(** * Mermaid preview panel: fenced-block extraction, theme resolution,
      panel modes, debounced refresh, export and zoom.

    A shallow embedding of [src/extension.ts] (the preview panel with
    modes and appearance) and of [src/previewPanel.ts] (the earlier panel
    without modes), with the properties of the specification proved on
    it. *)

From Stdlib Require Import String Ascii.
From Stdlib Require Import List Bool Arith ZArith NArith Lia.
From Stdlib Require Import PrimFloat DecimalString.
Import ListNotations.

Set Implicit Arguments.

(* ================================================================== *)
(** ** JavaScript strings *)
(* ================================================================== *)

(** A JavaScript string is a sequence of UTF-16 code units. *)
Abbreviation code_unit := N (only parsing).
Abbreviation jsstring := (list N) (only parsing).

Module JS.

Definition of_ascii (a : ascii) : code_unit := N_of_ascii a.

(** An ASCII literal as a JavaScript string. *)
Fixpoint lit (s : string) : jsstring :=
  match s with
  | EmptyString => []
  | String a t => of_ascii a :: lit t
  end.

Definition TAB : code_unit := 9%N.
Definition LF : code_unit := 10%N.
Definition CR : code_unit := 13%N.
Definition SP : code_unit := 32%N.
Definition BACKTICK : code_unit := 96%N.

(** [\s] of a regular expression without the [u] flag, which is also the
    set [String.prototype.trim] strips: WhiteSpace (TAB, VT, FF, SP, NBSP,
    ZWNBSP and the space separators) and LineTerminator (LF, CR, LS, PS). *)
Definition is_space (c : code_unit) : bool :=
  ((9 <=? c) && (c <=? 13) || (c =? 32) || (c =? 160) || (c =? 5760)
   || (8192 <=? c) && (c <=? 8202) || (c =? 8232) || (c =? 8233)
   || (c =? 8239) || (c =? 8287) || (c =? 12288) || (c =? 65279))%N.

Fixpoint trimStart (s : jsstring) : jsstring :=
  match s with
  | c :: t => if is_space c then trimStart t else s
  | [] => []
  end.

Definition trimEnd (s : jsstring) : jsstring := rev (trimStart (rev s)).

(** [String.prototype.trim]. *)
Definition trim (s : jsstring) : jsstring := trimEnd (trimStart s).

Fixpoint starts_with (p s : jsstring) : bool :=
  match p, s with
  | [], _ => true
  | a :: p', b :: s' => (a =? b)%N && starts_with p' s'
  | _ :: _, [] => false
  end.

(** [String.prototype.includes]. *)
Fixpoint includes (p s : jsstring) : bool :=
  starts_with p s ||
  match s with
  | [] => false
  | _ :: t => includes p t
  end.

(** What running a piece of code yields: a value, a thrown TypeError, or
    no answer within the steps allowed. *)
Inductive completion (A : Type) : Type :=
| Normal (a : A)
| Throw
| OutOfFuel.
Arguments Throw {A}.
Arguments OutOfFuel {A}.

End JS.
Import JS.

(* ================================================================== *)
(** ** Regular expressions *)
(* ================================================================== *)

Module Regex.

(** The pattern syntax the literals of the source use. A
    non-capturing group [(?:r)] is [r] itself; [RGroup] is the capturing
    group number 1. *)
Inductive regex : Type :=
| REmpty
| RChar (c : code_unit)
| RClass (p : code_unit -> bool)
| RSeq (r1 r2 : regex)
| RStar (greedy : bool) (r : regex)
| ROpt (r : regex)
| RGroup (r : regex).

(** A matcher state: the input that remains, and capture 1. *)
Abbreviation mstate := (list N * option (list N))%type (only parsing).

Definition consumed (x y : mstate) : nat := length (fst x) - length (fst y).

Definition progress (x y : mstate) : bool := length (fst y) <? length (fst x).

(** The iterations of a quantifier, in backtracking order: a greedy star
    tries one more iteration before it tries to stop, a lazy one stops
    first. An iteration that consumes nothing is rejected (RepeatMatcher,
    step 2.b of the ECMAScript semantics). *)
Fixpoint star_iter (step : mstate -> list mstate) (greedy : bool)
  (fuel : nat) (x : mstate) : list mstate :=
  match fuel with
  | O => [x]
  | S f =>
      let more :=
        flat_map (fun y => if progress x y then star_iter step greedy f y else [])
                 (step x) in
      if greedy then more ++ [x] else x :: more
  end.

(** All the ways [r] matches at the head of the input, in the order the
    backtracking matcher tries them. *)
Fixpoint rmatch (r : regex) (x : mstate) : list mstate :=
  match r with
  | REmpty => [x]
  | RChar c =>
      match fst x with
      | ch :: t => if (ch =? c)%N then [(t, snd x)] else []
      | [] => []
      end
  | RClass p =>
      match fst x with
      | ch :: t => if p ch then [(t, snd x)] else []
      | [] => []
      end
  | RSeq r1 r2 => flat_map (rmatch r2) (rmatch r1 x)
  | RStar greedy r' => star_iter (rmatch r') greedy (length (fst x)) x
  | ROpt r' => filter (progress x) (rmatch r' x) ++ [x]
  | RGroup r' =>
      map (fun y => (fst y, Some (firstn (consumed x y) (fst x)))) (rmatch r' x)
  end.

(** A literal string, character by character, followed by [k]. *)
Fixpoint RLit (s : jsstring) (k : regex) : regex :=
  match s with
  | [] => k
  | c :: t => RSeq (RChar c) (RLit t k)
  end.

(** The match object: [match.index], [match[0]] and [match[1]]. *)
Record match_result : Type := mkMatch {
  index : nat;
  matched : jsstring;
  group1 : option jsstring
}.

(** The match of [r] at one position, if there is one: the first
    alternative of the backtracking order. *)
Definition match_here (r : regex) (i : nat) (suffix : jsstring) : option match_result :=
  match rmatch r (suffix, None) with
  | y :: _ => Some (mkMatch i (firstn (consumed (suffix, None) y) suffix) (snd y))
  | [] => None
  end.

(** RegExpBuiltinExec on a global, non-sticky pattern: the first position
    at or after [lastIndex] where the pattern matches. [suffix] is the
    input from position [i] on. *)
Fixpoint exec_from (r : regex) (i : nat) (suffix : jsstring) : option match_result :=
  match match_here r i suffix with
  | Some m => Some m
  | None =>
      match suffix with
      | [] => None
      | _ :: t => exec_from r (S i) t
      end
  end.

Definition exec (r : regex) (text : jsstring) (lastIndex : nat) : option match_result :=
  if length text <? lastIndex then None
  else exec_from r lastIndex (skipn lastIndex text).

Definition end_index (m : match_result) : nat := index m + length (matched m).

(** [[...text.matchAll(r)]]: the iterator calls [exec] until it answers
    null; [exec] leaves [lastIndex] at the end of the match, and the
    iterator moves it one further after an empty match. *)
Fixpoint matchAll_loop (fuel : nat) (r : regex) (text : jsstring) (lastIndex : nat)
  : option (list match_result) :=
  match fuel with
  | O => None
  | S f =>
      match exec r text lastIndex with
      | None => Some []
      | Some m =>
          let next := match matched m with [] => S (end_index m) | _ => end_index m end in
          option_map (cons m) (matchAll_loop f r text next)
      end
  end.

Definition matchAll (r : regex) (text : jsstring) : option (list match_result) :=
  matchAll_loop (length text + 2) r text 0.

End Regex.
Import Regex.

(* ================================================================== *)
(** ** The two patterns of the source *)
(* ================================================================== *)

(** [\S]. *)
Definition is_nonspace (c : code_unit) : bool := negb (is_space c).

(** [[^\S\r\n]]: none of [\S], CR, LF. *)
Definition class_hspace (c : code_unit) : bool :=
  negb (is_nonspace c || (c =? CR)%N || (c =? LF)%N).

(** [[\s\S]]. *)
Definition class_any (c : code_unit) : bool := is_space c || is_nonspace c.

(** [(?:\r?\n)]. *)
Definition newline : regex := RSeq (ROpt (RChar CR)) (RChar LF).

Definition fence : jsstring := lit "```".
Definition opener : jsstring := lit "```mermaid".

(** [/```mermaid[^\S\r\n]*(?:\r?\n)([\s\S]*?)(?:\r?\n)?```/g] *)
Definition mermaidRegex : regex :=
  RLit opener
    (RSeq (RStar true (RClass class_hspace))
    (RSeq newline
    (RSeq (RGroup (RStar false (RClass class_any)))
    (RSeq (ROpt newline)
          (RLit fence REmpty))))).

(** [/```mermaid/g], which [_extractMermaidCode] counts for its log when
    the first pattern finds nothing. *)
Definition simpleRegex : regex := RLit opener REmpty.

(* ================================================================== *)
(** ** JSON.stringify on an array of strings *)
(* ================================================================== *)

Module JSON.

Definition is_lead_surrogate (c : code_unit) : bool := ((55296 <=? c) && (c <=? 56319))%N.
Definition is_trail_surrogate (c : code_unit) : bool := ((56320 <=? c) && (c <=? 57343))%N.

Definition hex_digit (n : N) : code_unit :=
  if (n <? 10)%N then (48 + n)%N else (87 + n)%N.

(** UnicodeEscape: a backslash, [u] and four lowercase hexadecimal digits. *)
Definition unicode_escape (c : code_unit) : jsstring :=
  [92; 117; hex_digit (c / 4096 mod 16); hex_digit (c / 256 mod 16);
   hex_digit (c / 16 mod 16); hex_digit (c mod 16)]%N.

(** One code unit that is not half of a surrogate pair. *)
Definition quote_unit (c : code_unit) : jsstring :=
  if (c =? 8)%N then lit "\b"
  else if (c =? 9)%N then lit "\t"
  else if (c =? 10)%N then lit "\n"
  else if (c =? 12)%N then lit "\f"
  else if (c =? 13)%N then lit "\r"
  else if (c =? 34)%N then [92; 34]%N
  else if (c =? 92)%N then [92; 92]%N
  else if (c <? 32)%N || is_lead_surrogate c || is_trail_surrogate c
       then unicode_escape c
  else [c].

(** The body of QuoteJSONString: the string is read code point by code
    point, so a well-formed surrogate pair is copied and a lone surrogate
    is escaped. *)
Fixpoint quote_body (s : jsstring) : jsstring :=
  match s with
  | [] => []
  | c :: t =>
      match t with
      | d :: t' =>
          if is_lead_surrogate c && is_trail_surrogate d
          then c :: d :: quote_body t'
          else quote_unit c ++ quote_body t
      | [] => quote_unit c
      end
  end.

Definition quote (s : jsstring) : jsstring := [34%N] ++ quote_body s ++ [34%N].

Fixpoint join_comma (l : list jsstring) : jsstring :=
  match l with
  | [] => []
  | [x] => x
  | x :: t => x ++ [44%N] ++ join_comma t
  end.

(** [JSON.stringify(a)] for an array [a] of strings. *)
Definition stringify (a : list jsstring) : jsstring :=
  [91%N] ++ join_comma (map quote a) ++ [93%N].

End JSON.

(* ================================================================== *)
(** ** The host editor *)
(* ================================================================== *)

Module Host.

(** [vscode.TextDocument], as far as the panel uses it: [getText()] and
    the line of [positionAt(offset)]. A value of this type is a document
    as it reads at one moment; the editor's object is live, and no
    property below speaks of one document read at two moments. *)
Record TextDocument : Type := mkDocument {
  getText : jsstring;
  positionAt_line : nat -> nat
}.

(** The line of an offset in the editor's text model: the number of line
    breaks (CRLF, LF or CR) that end at or before the offset. *)
Fixpoint line_of (text : jsstring) (offset : nat) : nat :=
  match offset, text with
  | O, _ => 0
  | _, [] => 0
  | S k, c :: t =>
      if (c =? LF)%N then S (line_of t k)
      else if (c =? CR)%N then
        match t with
        | d :: _ => if (d =? LF)%N then line_of t k else S (line_of t k)
        | [] => 1
        end
      else line_of t k
  end.

Definition document_of (text : jsstring) : TextDocument :=
  mkDocument text (line_of text).

(** [vscode.ColorThemeKind]. *)
Inductive ColorThemeKind : Type := Light | Dark | HighContrast | HighContrastLight.

(** [type PreviewAppearance = 'matchVSCode' | 'light' | 'dark']. *)
Inductive PreviewAppearance : Type := matchVSCode | light | dark.

(** The settings under [mermaidPreview]; [None] is a setting that is not
    defined, for which [config.get(key, default)] answers the default. *)
Record Configuration : Type := mkConfig {
  cfg_useVSCodeTheme : option bool;
  cfg_theme : option string;
  cfg_previewAppearance : option PreviewAppearance;
  cfg_refreshDelay : option Z
}.

Definition config_get {A : Type} (setting : option A) (default : A) : A :=
  match setting with
  | Some v => v
  | None => default
  end.

(** What the logger is handed. The logger itself ([util/logger]) is not
    among the sources; it is taken as a sink that keeps its entries. *)
Inductive LogValue : Type :=
| LNum (n : nat)
| LBool (b : bool)
| LStr (s : jsstring).

Record LogEntry : Type := mkLog {
  log_level : string;
  log_category : string;
  log_message : string;
  log_data : list (string * LogValue)
}.

(** [webview.html]. The page is a fixed template around the values kept
    here; the error page is a fixed template around its message. *)
Inductive Html : Type :=
| NoHtml
| ErrorHtml (message : string)
| DiagramHtml (mermaidCode : jsstring) (theme : string)
    (appearance : option PreviewAppearance).

Definition TimerId := nat.

End Host.
Import Host.

(* ================================================================== *)
(** ** The preview panel of [extension.ts] *)
(* ================================================================== *)

Module Panel.

Local Open Scope string_scope.
Local Open Scope nat_scope.
Local Open Scope list_scope.

(** [type PreviewMode = 'all' | 'single']. *)
Inductive PreviewMode : Type := all | single.

(** The fields of a [MermaidPreviewPanel] and the part of the host it
    acts on. [timers] are the host's pending timers set by this panel,
    each with its delay; the callback of every one of them is
    [() => this._render()]. [html_writes] counts the assignments to
    [webview.html], one for each render. *)
Record World : Type := mkWorld {
  _mode : PreviewMode;
  _singleLine : option Z;
  _currentDocument : option TextDocument;
  _updateTimeout : option TimerId;
  html : Html;
  html_writes : nat;
  timers : list (TimerId * Z);
  next_timer : TimerId;
  logger : list LogEntry;
  config : Configuration;
  activeColorTheme : ColorThemeKind
}.

Definition M (A : Type) : Type := World -> completion A * World.

Definition ret {A : Type} (a : A) : M A := fun w => (Normal a, w).

Definition bind {A B : Type} (m : M A) (f : A -> M B) : M B :=
  fun w =>
    match m w with
    | (Normal a, w') => f a w'
    | (Throw, w') => (Throw, w')
    | (OutOfFuel, w') => (OutOfFuel, w')
    end.

Definition lift {A : Type} (c : completion A) : M A := fun w => (c, w).

Declare Scope panel_scope.
Delimit Scope panel_scope with panel.
Notation "x <- m ;; k" := (bind m (fun x => k))
  (at level 61, m at next level, right associativity) : panel_scope.
Notation "m ;; k" := (bind m (fun _ => k))
  (at level 61, right associativity) : panel_scope.
Local Open Scope panel_scope.

Definition set_mode (m : PreviewMode) (l : option Z) : M unit := fun w =>
  (Normal tt,
   mkWorld m l (_currentDocument w) (_updateTimeout w) (html w) (html_writes w)
     (timers w) (next_timer w) (logger w) (config w) (activeColorTheme w)).

Definition set_currentDocument (d : TextDocument) : M unit := fun w =>
  (Normal tt,
   mkWorld (_mode w) (_singleLine w) (Some d) (_updateTimeout w) (html w)
     (html_writes w) (timers w) (next_timer w) (logger w) (config w)
     (activeColorTheme w)).

(** [webview.html = h]. *)
Definition set_html (h : Html) : M unit := fun w =>
  (Normal tt,
   mkWorld (_mode w) (_singleLine w) (_currentDocument w) (_updateTimeout w) h
     (S (html_writes w)) (timers w) (next_timer w) (logger w) (config w)
     (activeColorTheme w)).

(** [this._logger.logDebug(category, message, data)]. *)
Definition logDebug (category message : string) (data : list (string * LogValue))
  : M unit := fun w =>
  (Normal tt,
   mkWorld (_mode w) (_singleLine w) (_currentDocument w) (_updateTimeout w)
     (html w) (html_writes w) (timers w) (next_timer w)
     (logger w ++ [mkLog "debug" category message data]) (config w)
     (activeColorTheme w)).

(** [clearTimeout(id)]: the host forgets the timer, if it still has it. *)
Definition clearTimeout (id : TimerId) : M unit := fun w =>
  (Normal tt,
   mkWorld (_mode w) (_singleLine w) (_currentDocument w) (_updateTimeout w)
     (html w) (html_writes w)
     (filter (fun t => negb (fst t =? id)) (timers w)) (next_timer w)
     (logger w) (config w) (activeColorTheme w)).

(** [this._updateTimeout = setTimeout(() => this._render(), delay)]. *)
Definition setTimeout_render (delay : Z) : M unit := fun w =>
  (Normal tt,
   mkWorld (_mode w) (_singleLine w) (_currentDocument w) (Some (next_timer w))
     (html w) (html_writes w) (timers w ++ [(next_timer w, delay)])
     (S (next_timer w)) (logger w) (config w) (activeColorTheme w)).

Definition get {A : Type} (f : World -> A) : M A := fun w => (Normal (f w), w).

(** [match[1].trim()]: a TypeError when group 1 took no part. *)
Definition trimmed_group (m : match_result) : completion jsstring :=
  match group1 m with
  | Some body => Normal (trim body)
  | None => Throw
  end.

Fixpoint map_completion {A B : Type} (f : A -> completion B) (l : list A)
  : completion (list B) :=
  match l with
  | [] => Normal []
  | a :: t =>
      match f a with
      | Normal b =>
          match map_completion f t with
          | Normal bs => Normal (b :: bs)
          | Throw => Throw
          | OutOfFuel => OutOfFuel
          end
      | Throw => Throw
      | OutOfFuel => OutOfFuel
      end
  end.

Definition of_option {A : Type} (o : option A) : completion A :=
  match o with
  | Some a => Normal a
  | None => OutOfFuel
  end.

Definition nonempty (code : jsstring) : bool := 0 <? length code.

(** [_extractMermaidCode(document)]; [None] is [null]. *)
Definition _extractMermaidCode (document : TextDocument) : M (option jsstring) :=
  let text := getText document in
  logDebug "MermaidDetection" "Document snapshot"
    [("length", LNum (length text)); ("preview", LStr (firstn 200 text))] ;;
  matches <- lift (of_option (matchAll mermaidRegex text)) ;;
  logDebug "MermaidDetection" "Number of matches found"
    [("count", LNum (length matches))] ;;
  if length matches =? 0 then
    let hasTripleBacktick := includes fence text in
    let hasMermaidKeyword := includes (lit "mermaid") text in
    logDebug "MermaidDetection" "Fallback flags"
      [("hasTripleBacktick", LBool hasTripleBacktick);
       ("hasMermaidKeyword", LBool hasMermaidKeyword)] ;;
    simpleMatches <- lift (of_option (matchAll simpleRegex text)) ;;
    logDebug "MermaidDetection" "Simple pattern matches"
      [("count", LNum (length simpleMatches))] ;;
    ret None
  else
    trimmed <- lift (map_completion trimmed_group matches) ;;
    let diagrams := filter nonempty trimmed in
    logDebug "MermaidDetection" "Valid diagrams detected"
      [("count", LNum (length diagrams))] ;;
    if length diagrams =? 0 then ret None
    else ret (Some (JSON.stringify diagrams)).

(** The [while ((match = mermaidRegex.exec(text)) !== null)] loop of
    [_extractMermaidCodeAtLine]; [lastIndex] is the pattern's own. *)
Fixpoint atLine_loop (fuel : nat) (document : TextDocument) (lineNumber : Z)
  (lastIndex : nat) : completion (option jsstring) :=
  match fuel with
  | O => OutOfFuel
  | S f =>
      match exec mermaidRegex (getText document) lastIndex with
      | None => Normal None
      | Some m =>
          let startLine := positionAt_line document (index m) in
          let endLine := positionAt_line document (index m + length (matched m)) in
          if ((Z.of_nat startLine <=? lineNumber) && (lineNumber <=? Z.of_nat endLine))%Z
          then
            match trimmed_group m with
            | Normal diagramCode =>
                if nonempty diagramCode
                then Normal (Some (JSON.stringify [diagramCode]))
                else atLine_loop f document lineNumber (end_index m)
            | Throw => Throw
            | OutOfFuel => OutOfFuel
            end
          else atLine_loop f document lineNumber (end_index m)
      end
  end.

(** [_extractMermaidCodeAtLine(document, lineNumber)]. *)
Definition _extractMermaidCodeAtLine (document : TextDocument) (lineNumber : Z)
  : M (option jsstring) :=
  lift (atLine_loop (S (length (getText document))) document lineNumber 0).

(** JavaScript truthiness of an optional string argument. *)
Definition truthy (o : option string) : bool :=
  match o with
  | Some s => negb (String.eqb s "")
  | None => false
  end.

(** [overrideTheme || configuredTheme]. *)
Definition or_else (o : option string) (d : string) : string :=
  match o with
  | Some s => if truthy o then s else d
  | None => d
  end.

(** [_resolveTheme(overrideTheme)] on the settings and the editor's
    active colour theme. *)
Definition resolveTheme (cfg : Configuration) (kind : ColorThemeKind)
  (overrideTheme : option string) : string * PreviewAppearance :=
  let useVSCodeTheme := config_get (cfg_useVSCodeTheme cfg) false in
  let configuredTheme := config_get (cfg_theme cfg) "default"%string in
  let appearance := config_get (cfg_previewAppearance cfg) matchVSCode in
  let theme := or_else overrideTheme configuredTheme in
  let theme :=
    if useVSCodeTheme && negb (truthy overrideTheme) then
      match appearance with
      | light => "default"%string
      | dark => "dark"%string
      | matchVSCode =>
          match kind with
          | Dark => "dark"%string
          | _ => "default"%string
          end
      end
    else theme in
  (theme, appearance).

Definition _resolveTheme (overrideTheme : option string)
  : M (string * PreviewAppearance) :=
  fun w => (Normal (resolveTheme (config w) (activeColorTheme w) overrideTheme), w).

(** [!mermaidCode] is false for a non-empty string only. *)
Definition found (mermaidCode : option jsstring) : option jsstring :=
  match mermaidCode with
  | Some (c :: s) => Some (c :: s)
  | _ => None
  end.

(** [webview.html = this._getHtmlForWebview(webview, mermaidCode, theme, appearance)]. *)
Definition show_diagrams (mermaidCode : jsstring) (overrideTheme : option string)
  : M unit :=
  ta <- _resolveTheme overrideTheme ;;
  set_html (DiagramHtml mermaidCode (fst ta) (Some (snd ta))).

Definition _renderAll (overrideTheme : option string) : M unit :=
  d <- get _currentDocument ;;
  match d with
  | None => set_html (ErrorHtml "No document to preview")
  | Some document =>
      mermaidCode <- _extractMermaidCode document ;;
      match found mermaidCode with
      | None =>
          set_html (ErrorHtml
            "No Mermaid diagram found. Wrap your diagram in ```mermaid code blocks.")
      | Some code => show_diagrams code overrideTheme
      end
  end.

Definition _renderSingle (lineNumber : Z) (overrideTheme : option string) : M unit :=
  d <- get _currentDocument ;;
  match d with
  | None => set_html (ErrorHtml "No document to preview")
  | Some document =>
      mermaidCode <- _extractMermaidCodeAtLine document lineNumber ;;
      match found mermaidCode with
      | None => set_html (ErrorHtml "No Mermaid diagram found at this position.")
      | Some code => show_diagrams code overrideTheme
      end
  end.

Definition _render (overrideTheme : option string) : M unit :=
  mode <- get _mode ;;
  line <- get _singleLine ;;
  match mode, line with
  | single, Some l => _renderSingle l overrideTheme
  | _, _ => _renderAll overrideTheme
  end.

Definition _setMode (mode : PreviewMode) (lineNumber : option Z) : M unit :=
  set_mode mode lineNumber.

Definition _switchToAllMode (document : TextDocument) : M unit :=
  set_currentDocument document ;;
  _setMode all None ;;
  _render None.

Definition _switchToSingleMode (document : TextDocument) (lineNumber : Z) : M unit :=
  set_currentDocument document ;;
  _setMode single (Some lineNumber) ;;
  _renderSingle lineNumber None.

Definition updateContent (document : TextDocument) : M unit :=
  set_currentDocument document ;;
  mode <- get _mode ;;
  match mode with
  | single => ret tt
  | all =>
      pending <- get _updateTimeout ;;
      match pending with
      | Some id => clearTimeout id
      | None => ret tt
      end ;;
      cfg <- get config ;;
      let delay := config_get (cfg_refreshDelay cfg) 500%Z in
      setTimeout_render delay
  end.

Definition updateContentAtLine (document : TextDocument) (lineNumber : Z) : M unit :=
  _switchToSingleMode document lineNumber.

(** [_handleThemeChange(theme)]. Its two [config.update] calls are not
    awaited; what they write reaches the configuration as a later change
    of the settings ([SettingsChanged] below). *)
Definition _handleThemeChange (theme : option string) : M unit :=
  _render theme.

Definition refreshAppearance : M unit :=
  d <- get _currentDocument ;;
  match d with
  | None => ret tt
  | Some _ => _render None
  end.

(** [new MermaidPreviewPanel(panel, extensionUri, document, mode, singleLine)]
    in a host with the given settings, colour theme and log. *)
Definition construct (cfg : Configuration) (kind : ColorThemeKind)
  (log : list LogEntry) (document : TextDocument) (mode : PreviewMode)
  (singleLine : option Z) : completion unit * World :=
  _render None
    (mkWorld mode singleLine (Some document) None NoHtml 0 [] 0 log cfg kind).

(** [createOrShow] when there is no panel yet, and [createOrShowSingle]. *)
Definition createOrShow cfg kind log document :=
  snd (construct cfg kind log document all None).
Definition createOrShowSingle cfg kind log document (lineNumber : Z) :=
  snd (construct cfg kind log document single (Some lineNumber)).

(** What happens to a panel after its construction. *)
Inductive Event : Type :=
| ShowAgain (document : TextDocument)
    (* createOrShow with the panel open: _switchToAllMode *)
| DocumentEdited (document : TextDocument)
    (* onDidChangeTextDocument, onDidChangeActiveTextEditor: updateContent *)
| ShowAtLine (document : TextDocument) (lineNumber : Z)
    (* updateContentAtLine *)
| TimerFires (id : TimerId)
| ThemePicked (theme : option string)
    (* the webview's changeTheme message *)
| AppearanceRefresh
    (* refreshAppearance: after onDidChangeActiveColorTheme, after a change
       of previewAppearance, after the webview's changeAppearance message *)
| SettingsChanged (cfg : Configuration)
    (* a change of the settings, whoever wrote them *)
| ColorThemeChanged (kind : ColorThemeKind).

Definition with_environment (cfg : Configuration) (kind : ColorThemeKind) (w : World)
  : World :=
  mkWorld (_mode w) (_singleLine w) (_currentDocument w) (_updateTimeout w)
    (html w) (html_writes w) (timers w) (next_timer w) (logger w) cfg kind.

Definition is_pending (id : TimerId) (w : World) : bool :=
  existsb (fun t => fst t =? id) (timers w).

(** The host runs a timer's callback once, when the timer is due and was
    not cleared, and keeps the timer no longer. *)
Definition fire (id : TimerId) : M unit := fun w =>
  if is_pending id w then (clearTimeout id ;; _render None) w
  else (Normal tt, w).

Definition handle (e : Event) (w : World) : World :=
  match e with
  | ShowAgain d => snd (_switchToAllMode d w)
  | DocumentEdited d => snd (updateContent d w)
  | ShowAtLine d l => snd (updateContentAtLine d l w)
  | TimerFires id => snd (fire id w)
  | ThemePicked t => snd (_handleThemeChange t w)
  | AppearanceRefresh => snd (refreshAppearance w)
  | SettingsChanged cfg => with_environment cfg (activeColorTheme w) w
  | ColorThemeChanged kind => with_environment (config w) kind w
  end.

Definition run_events (es : list Event) (w : World) : World :=
  fold_left (fun w e => handle e w) es w.

(** The panel's fields, the host's timers and the settings: all of the
    state but the log. *)
Definition same_but_log (w w' : World) : Prop :=
  _mode w' = _mode w /\
  _singleLine w' = _singleLine w /\
  _currentDocument w' = _currentDocument w /\
  _updateTimeout w' = _updateTimeout w /\
  html w' = html w /\
  html_writes w' = html_writes w /\
  timers w' = timers w /\
  next_timer w' = next_timer w /\
  config w' = config w /\
  activeColorTheme w' = activeColorTheme w.

(** All of the state but the page and the log: what a render leaves as
    it was. *)
Definition same_but_page (w w' : World) : Prop :=
  _mode w' = _mode w /\
  _singleLine w' = _singleLine w /\
  _currentDocument w' = _currentDocument w /\
  _updateTimeout w' = _updateTimeout w /\
  timers w' = timers w /\
  next_timer w' = next_timer w /\
  config w' = config w /\
  activeColorTheme w' = activeColorTheme w.

(** The two modes exclude each other: a single line is kept exactly in
    mode [single]. *)
Definition mode_inv (w : World) : Prop :=
  match _mode w with
  | single => exists l, _singleLine w = Some l
  | all => _singleLine w = None
  end.

(** At most one timer of the panel is pending, and it is the one
    [_updateTimeout] names. *)
Definition timer_inv (w : World) : Prop :=
  timers w = [] \/
  exists id delay,
    timers w = [(id, delay)] /\ _updateTimeout w = Some id /\ id < next_timer w.

(** A panel as [createOrShow] makes it, or [createOrShowSingle] at a line. *)
Definition created (cfg : Configuration) (kind : ColorThemeKind)
  (log : list LogEntry) (document : TextDocument) (at_line : option Z) : World :=
  match at_line with
  | None => createOrShow cfg kind log document
  | Some lineNumber => createOrShowSingle cfg kind log document lineNumber
  end.

(** Debouncing, for a panel whose edits are handled by [edit] and whose
    timers fire through [fire]: at most one timer is pending; an edit
    replaces the pending timer by a new one with the configured delay
    and renders nothing; after any burst of edits one timer is pending,
    nothing was rendered, and its firing renders once, the last document
    of the burst. *)
Definition debounces (edit : TextDocument -> World -> World)
  (fire : TimerId -> World -> World) (w : World) : Prop :=
  let delay := config_get (cfg_refreshDelay (config w)) 500%Z in
  length (timers w) <= 1 /\
  (forall d,
     let w1 := edit d w in
     timers w1 = [(next_timer w, delay)] /\
     _updateTimeout w1 = Some (next_timer w) /\
     (forall t, In t (timers w) -> ~ In t (timers w1)) /\
     html w1 = html w /\ html_writes w1 = html_writes w) /\
  (forall d ds,
     let w2 := fold_left (fun w d => edit d w) (d :: ds) w in
     exists id,
       timers w2 = [(id, delay)] /\
       html w2 = html w /\ html_writes w2 = html_writes w /\
       timers (fire id w2) = [] /\
       html_writes (fire id w2) = S (html_writes w) /\
       _currentDocument (fire id w2) = Some (last ds d)).

(** A render ends, writes the page once and leaves the rest alone. *)
Definition renders_once (m : M unit) (w : World) : Prop :=
  exists w', m w = (Normal tt, w') /\
    same_but_page w w' /\ html_writes w' = S (html_writes w).

End Panel.

(* ================================================================== *)
(** ** The earlier panel of [previewPanel.ts] *)
(* ================================================================== *)

(** The earlier panel has the same [_extractMermaidCode],
    [_extractMermaidCodeAtLine] and [_handleExportDiagram], character for
    character, and no modes: it has no [_mode] and no [_singleLine], which
    stay as they are in the worlds below, and the callback of its timers
    is [() => this._update()]. *)
Module Legacy.
Import Panel.

Local Open Scope string_scope.
Local Open Scope nat_scope.
Local Open Scope list_scope.
Local Open Scope panel_scope.

(** The theme [_update(overrideTheme)] computes. *)
Definition update_theme (cfg : Configuration) (kind : ColorThemeKind)
  (overrideTheme : option string) : string :=
  let useVSCodeTheme := config_get (cfg_useVSCodeTheme cfg) false in
  let configuredTheme := config_get (cfg_theme cfg) "default" in
  let theme := or_else overrideTheme configuredTheme in
  if useVSCodeTheme && negb (truthy overrideTheme) then
    match kind with
    | Dark => "dark"
    | _ => "default"
    end
  else theme.

(** The theme [updateContentAtLine] computes. *)
Definition atLine_theme (cfg : Configuration) (kind : ColorThemeKind) : string :=
  let useVSCodeTheme := config_get (cfg_useVSCodeTheme cfg) false in
  let configuredTheme := config_get (cfg_theme cfg) "default" in
  if useVSCodeTheme then
    match kind with
    | Dark => "dark"
    | _ => "default"
    end
  else configuredTheme.

Definition _update (overrideTheme : option string) : M unit :=
  d <- get _currentDocument ;;
  match d with
  | None => set_html (ErrorHtml "No document to preview")
  | Some document =>
      mermaidCode <- _extractMermaidCode document ;;
      match found mermaidCode with
      | None =>
          set_html (ErrorHtml
            "No Mermaid diagram found. Wrap your diagram in ```mermaid code blocks.")
      | Some code =>
          cfg <- get config ;;
          kind <- get activeColorTheme ;;
          set_html (DiagramHtml code (update_theme cfg kind overrideTheme) None)
      end
  end.

Definition updateContent (document : TextDocument) : M unit :=
  set_currentDocument document ;;
  pending <- get _updateTimeout ;;
  match pending with
  | Some id => clearTimeout id
  | None => ret tt
  end ;;
  cfg <- get config ;;
  let delay := config_get (cfg_refreshDelay cfg) 500%Z in
  setTimeout_render delay.

Definition updateContentAtLine (document : TextDocument) (lineNumber : Z) : M unit :=
  set_currentDocument document ;;
  mermaidCode <- _extractMermaidCodeAtLine document lineNumber ;;
  match found mermaidCode with
  | None => set_html (ErrorHtml "No Mermaid diagram found at this position.")
  | Some code =>
      cfg <- get config ;;
      kind <- get activeColorTheme ;;
      set_html (DiagramHtml code (atLine_theme cfg kind) None)
  end.

Definition fire (id : TimerId) : M unit := fun w =>
  if is_pending id w then (clearTimeout id ;; _update None) w
  else (Normal tt, w).

(** [new MermaidPreviewPanel(panel, extensionUri, document)]. *)
Definition construct (cfg : Configuration) (kind : ColorThemeKind)
  (log : list LogEntry) (document : TextDocument) : World :=
  snd (_update None
         (mkWorld all None (Some document) None NoHtml 0 [] 0 log cfg kind)).

Inductive Event : Type :=
| DocumentEdited (document : TextDocument)
    (* createOrShow with the panel open, onDidChangeTextDocument,
       onDidChangeActiveTextEditor: updateContent *)
| ShowAtLine (document : TextDocument) (lineNumber : Z)
| TimerFires (id : TimerId)
| ThemePicked (theme : option string)
| SettingsChanged (cfg : Configuration)
| ColorThemeChanged (kind : ColorThemeKind).

Definition handle (e : Event) (w : World) : World :=
  match e with
  | DocumentEdited d => snd (updateContent d w)
  | ShowAtLine d l => snd (updateContentAtLine d l w)
  | TimerFires id => snd (fire id w)
  | ThemePicked t => snd (_update t w)
  | SettingsChanged cfg => with_environment cfg (activeColorTheme w) w
  | ColorThemeChanged kind => with_environment (config w) kind w
  end.

Definition run_events (es : list Event) (w : World) : World :=
  fold_left (fun w e => handle e w) es w.

End Legacy.

(* ================================================================== *)
(** ** Export of a diagram *)
(* ================================================================== *)

Module ExportDiagram.

Local Open Scope string_scope.

(** [vscode.Uri], by its path. *)
Record Uri : Type := Uri_file { fsPath : string }.

(** [Buffer.from(data, 'base64')]. *)
Inductive Buffer : Type := Base64 (data : jsstring).

Record SaveDialogOptions : Type := mkOptions {
  defaultUri : Uri;
  filters : list (string * list string)
}.

(** What [_handleExportDiagram] asks of the host and of the logger, with
    the type of the answer; the data handed to the logger are left out.
    [Buffer.from] answers a buffer or the error it throws, [writeFile]
    answers [Some error] when it throws. *)
Inductive Call : Type -> Type :=
| logDebug (category message : string) : Call unit
| logInfo (message : string) : Call unit
| logError (message : string) : Call unit
| showSaveDialog (options : SaveDialogOptions) : Call (option Uri)
| bufferFrom (data : option jsstring) : Call (Buffer + string)
| writeFile (uri : Uri) (content : Buffer) : Call (option string)
| showInformationMessage (message : string) : Call unit
| showErrorMessage (message : string) : Call unit.

(** An [async] function: it ends, or makes a call and goes on with the
    answer. *)
Inductive Prog (A : Type) : Type :=
| Ret (a : A)
| Do {X : Type} (c : Call X) (k : X -> Prog A).
Arguments Ret {A} a.
Arguments Do {A X} c k.

(** The template literal [${index + 1}] for an array index. *)
Definition decimal (n : nat) : string := NilZero.string_of_uint (Nat.to_uint n).

Definition failed (error : string) : Prog unit :=
  Do (logError "Failed to export diagram") (fun _ =>
  Do (showErrorMessage ("Failed to export diagram: " ++ error)) (fun _ =>
  Ret tt)).

(** [_handleExportDiagram(data, format, index)]; [data] is [None] when
    the message carried none. *)
Definition _handleExportDiagram (data : option jsstring) (format : string)
  (index : nat) : Prog unit :=
  Do (logDebug "Export" "Handling export request") (fun _ =>
  let filters :=
    if String.eqb format "svg" then [("SVG Image", ["svg"])]
    else if String.eqb format "png" then [("PNG Image", ["png"])]
    else if String.eqb format "jpg" then [("JPEG Image", ["jpg"; "jpeg"])]
    else [] in
  Do (logDebug "Export" "Showing save dialog") (fun _ =>
  Do (showSaveDialog
        (mkOptions (Uri_file ("mermaid-diagram-" ++ decimal (index + 1) ++ "." ++ format))
           filters)) (fun uri =>
  Do (logInfo "Export dialog closed") (fun _ =>
  match uri with
  | None => Ret tt
  | Some uri =>
      Do (bufferFrom data) (fun decoded =>
      match decoded with
      | inr error => failed error
      | inl buffer =>
          Do (writeFile uri buffer) (fun thrown =>
          match thrown with
          | None =>
              Do (showInformationMessage ("Diagram exported to " ++ fsPath uri)) (fun _ =>
              Do (logInfo "Diagram exported successfully") (fun _ =>
              Ret tt))
          | Some error => failed error
          end)
      end)
  end)))).

(** A host: what the user answers to the dialog, what a write does, and
    the TypeError [Buffer.from] throws when it is handed no string. *)
Record Host : Type := mkHost {
  dialog_answer : SaveDialogOptions -> option Uri;
  write_answer : Uri -> Buffer -> option string;
  type_error : string
}.

Definition answer (h : Host) {X : Type} (c : Call X) : X :=
  match c in Call T return T with
  | logDebug _ _ => tt
  | logInfo _ => tt
  | logError _ => tt
  | showSaveDialog o => dialog_answer h o
  | bufferFrom (Some data) => inl (Base64 data)
  | bufferFrom None => inr (type_error h)
  | writeFile u b => write_answer h u b
  | showInformationMessage _ => tt
  | showErrorMessage _ => tt
  end.

(** A call that was made. *)
Inductive Made : Type :=
| made (X : Type) (c : Call X).
Arguments made {X} c.

(** The calls a program makes on a host, in order. *)
Fixpoint trace (h : Host) {A : Type} (p : Prog A) : list Made :=
  match p with
  | Ret _ => []
  | Do c k => made c :: trace h (k (answer h c))
  end.

Definition dialogs (t : list Made) : list SaveDialogOptions :=
  flat_map (fun m => match m with
                     | made (showSaveDialog o) => [o]
                     | _ => []
                     end) t.

Definition writes (t : list Made) : list (Uri * Buffer) :=
  flat_map (fun m => match m with
                     | made (writeFile u b) => [(u, b)]
                     | _ => []
                     end) t.

Definition information_messages (t : list Made) : list string :=
  flat_map (fun m => match m with
                     | made (showInformationMessage s) => [s]
                     | _ => []
                     end) t.

Definition error_messages (t : list Made) : list string :=
  flat_map (fun m => match m with
                     | made (showErrorMessage s) => [s]
                     | _ => []
                     end) t.

End ExportDiagram.

(* ================================================================== *)
(** ** The zoom of the page *)
(* ================================================================== *)

(** The script of the page of [extension.ts]; its numbers are binary64
    floating-point numbers. *)
Module Webview.

Local Open Scope float_scope.

(** 0.1, 0.5, 5.0 and 1.0 as the script's literals denote them. *)
Definition tenth : float := 0x1.999999999999ap-4.
Definition zoom_min : float := 0.5.
Definition zoom_max : float := 5.
Definition zoom_initial : float := 1.

Definition is_negative_zero (x : float) : bool := is_zero x && get_sign x.

(** [Math.min(a, b)]: NaN when either is NaN; -0 is below +0. *)
Definition Math_min (a b : float) : float :=
  if is_nan a || is_nan b then nan
  else if a <? b then a
  else if b <? a then b
  else if is_negative_zero a then a else b.

(** [Math.max(a, b)]. *)
Definition Math_max (a b : float) : float :=
  if is_nan a || is_nan b then nan
  else if a <? b then b
  else if b <? a then a
  else if is_negative_zero a then b else a.

Record State : Type := mkState {
  currentZoom : float;
  panX : float;
  panY : float
}.

(** [let currentZoom = 1.0; let panX = 0; let panY = 0;] *)
Definition initial : State := mkState zoom_initial 0 0.

Definition zoomIn (s : State) : State :=
  mkState (Math_min (currentZoom s + tenth) zoom_max) (panX s) (panY s).

Definition zoomOut (s : State) : State :=
  mkState (Math_max (currentZoom s - tenth) zoom_min) (panX s) (panY s).

Definition zoomReset (s : State) : State := mkState zoom_initial 0 0.

(** The fields of a wheel event that [handleWheel] reads. *)
Record WheelEvent : Type := mkWheel {
  ctrlKey : bool;
  deltaY : float
}.

Definition handleWheel (event : WheelEvent) (s : State) : State :=
  if negb (ctrlKey event) then s
  else if deltaY event <? 0 then zoomIn s
  else zoomOut s.

Inductive Event : Type :=
| ZoomIn
| ZoomOut
| ZoomReset
| Wheel (event : WheelEvent).

Definition handle (e : Event) (s : State) : State :=
  match e with
  | ZoomIn => zoomIn s
  | ZoomOut => zoomOut s
  | ZoomReset => zoomReset s
  | Wheel event => handleWheel event s
  end.

Definition run_events (es : list Event) (s : State) : State :=
  fold_left (fun s e => handle e s) es s.

(** The zoom levels one step away from a level. *)
Definition next_levels (z : float) : list float :=
  [Math_min (z + tenth) zoom_max; Math_max (z - tenth) zoom_min; zoom_initial].

Definition position (x : float) (l : list float) : option nat :=
  (fix go (l : list float) (i : nat) : option nat :=
     match l with
     | [] => None
     | y :: t => if Leibniz.eqb x y then Some i else go t (S i)
     end) l 0%nat.

(** The levels reached from [seen], breadth first. *)
Fixpoint explore (fuel : nat) (seen frontier : list float) : list float :=
  match fuel with
  | O => seen
  | S f =>
      match frontier with
      | [] => seen
      | z :: rest =>
          let fresh :=
            fold_left (fun acc c =>
                         match position c (seen ++ acc) with
                         | Some _ => acc
                         | None => acc ++ [c]
                         end) (next_levels z) [] in
          explore f (seen ++ fresh) (rest ++ fresh)
      end
  end.

(** Every zoom level the page can take. *)
Definition zoom_levels : list float :=
  Eval vm_compute in explore 1000 [zoom_initial] [zoom_initial].

(** For each level, where the levels one zoom in and one zoom out of it
    stand in [zoom_levels]. *)
Definition zoom_steps : list (nat * nat) :=
  Eval vm_compute in
    map (fun z =>
           (match position (Math_min (z + tenth) zoom_max) zoom_levels with
            | Some i => i | None => 0%nat end,
            match position (Math_max (z - tenth) zoom_min) zoom_levels with
            | Some i => i | None => 0%nat end))
        zoom_levels.

(** [zoom_steps] is right about the levels [zs]. *)
Fixpoint steps_hold (zs : list float) (steps : list (nat * nat)) : Prop :=
  match zs, steps with
  | [], [] => True
  | z :: zs', (i, o) :: steps' =>
      Math_min (z + tenth) zoom_max = nth i zoom_levels 0 /\
      Math_max (z - tenth) zoom_min = nth o zoom_levels 0 /\
      (i <? length zoom_levels)%nat = true /\
      (o <? length zoom_levels)%nat = true /\
      steps_hold zs' steps'
  | _, _ => False
  end.

Definition in_range (z : float) : bool := (zoom_min <=? z) && (z <=? zoom_max).

End Webview.

(* ================================================================== *)
(** ** Fenced blocks, read without a pattern *)
(* ================================================================== *)

(** The blocks the specification speaks of, found by reading the text
    from left to right: an opening fence is [```mermaid], then blanks
    other than line breaks, then one line break; the body runs to the
    nearest closing [```], one line break just before it left out; the
    search goes on after the closing fence. *)
Module Scanner.

Fixpoint strip_prefix (p s : jsstring) : option jsstring :=
  match p, s with
  | [], _ => Some s
  | a :: p', b :: s' => if (b =? a)%N then strip_prefix p' s' else None
  | _ :: _, [] => None
  end.

Fixpoint skip_while (p : code_unit -> bool) (s : jsstring) : jsstring :=
  match s with
  | c :: t => if p c then skip_while p t else s
  | [] => []
  end.

Definition skip_hspace (s : jsstring) : jsstring := skip_while class_hspace s.

Definition strip_newline (s : jsstring) : option jsstring :=
  match s with
  | c :: t =>
      if (c =? LF)%N then Some t
      else if (c =? CR)%N then
        match t with
        | d :: t' => if (d =? LF)%N then Some t' else None
        | [] => None
        end
      else None
  | [] => None
  end.

Definition open_fence (s : jsstring) : option jsstring :=
  match strip_prefix opener s with
  | Some r => strip_newline (skip_hspace r)
  | None => None
  end.

Definition close_here (s : jsstring) : option jsstring :=
  match strip_newline s with
  | Some r => strip_prefix fence r
  | None => strip_prefix fence s
  end.

(** The body and what follows the closing fence. *)
Fixpoint find_close (s : jsstring) : option (jsstring * jsstring) :=
  match close_here s with
  | Some r => Some ([], r)
  | None =>
      match s with
      | [] => None
      | c :: t =>
          match find_close t with
          | Some (body, r) => Some (c :: body, r)
          | None => None
          end
      end
  end.

Definition block_here (s : jsstring) : option (jsstring * jsstring) :=
  match open_fence s with
  | Some r => find_close r
  | None => None
  end.

(** A block: the offsets of its first character and of the character
    after its closing fence, and its body as written. *)
Record Block : Type := mkBlock {
  block_start : nat;
  block_end : nat;
  block_body : jsstring
}.

(** The first block at or after offset [i], where [s] is the text from
    [i] on, with the text after it. *)
Fixpoint find_block (i : nat) (s : jsstring) : option (Block * jsstring) :=
  match block_here s with
  | Some (body, rest) => Some (mkBlock i (i + (length s - length rest)) body, rest)
  | None =>
      match s with
      | [] => None
      | _ :: t => find_block (S i) t
      end
  end.

Fixpoint blocks_from (fuel : nat) (i : nat) (s : jsstring) : list Block :=
  match fuel with
  | O => []
  | S f =>
      match find_block i s with
      | Some (b, rest) => b :: blocks_from f (block_end b) rest
      | None => []
      end
  end.

Definition fenced_blocks (text : jsstring) : list Block :=
  blocks_from (length text) 0 text.

(** The diagrams of a text: the trimmed bodies that are not empty. *)
Definition diagrams (text : jsstring) : list jsstring :=
  filter Panel.nonempty (map (fun b => trim (block_body b)) (fenced_blocks text)).

(** The lines a block spans in a document, first and last. *)
Definition spans (document : TextDocument) (b : Block) (lineNumber : Z) : bool :=
  ((Z.of_nat (positionAt_line document (block_start b)) <=? lineNumber)
   && (lineNumber <=? Z.of_nat (positionAt_line document (block_end b))))%Z.

(** A block counts for a line when it spans the line and has a diagram. *)
Definition hit (document : TextDocument) (lineNumber : Z) (b : Block) : bool :=
  spans document b lineNumber && Panel.nonempty (trim (block_body b)).

(** The inputs a greedy star over a class [p] can leave, in the order it
    tries them: the longest run first. *)
Fixpoint greedy_suffixes (p : code_unit -> bool) (s : jsstring) : list jsstring :=
  match s with
  | c :: t => if p c then greedy_suffixes p t ++ [s] else [s]
  | [] => [[]]
  end.

(** The inputs a lazy star over any character can leave, with what it
    has consumed after [pre]: the shortest run first. *)
Fixpoint lazy_splits (pre s : jsstring) : list (jsstring * jsstring) :=
  (pre, s) ::
  match s with
  | c :: t => lazy_splits (pre ++ [c]) t
  | [] => []
  end.

(** The text before the first [```] and the text after it. *)
Fixpoint split_fence (s : jsstring) : option (jsstring * jsstring) :=
  match strip_prefix fence s with
  | Some r => Some ([], r)
  | None =>
      match s with
      | [] => None
      | c :: t =>
          match split_fence t with
          | Some (before, r) => Some (c :: before, r)
          | None => None
          end
      end
  end.

(** The body of the first block of [s], and the text after the block. *)
Fixpoint find_body (s : jsstring) : option (jsstring * jsstring) :=
  match block_here s with
  | Some x => Some x
  | None =>
      match s with
      | [] => None
      | _ :: t => find_body t
      end
  end.

Fixpoint bodies_from (fuel : nat) (s : jsstring) : list jsstring :=
  match fuel with
  | O => []
  | S f =>
      match find_body s with
      | Some (body, rest) => body :: bodies_from f rest
      | None => []
      end
  end.

Definition keep (d : jsstring) : list jsstring :=
  if Panel.nonempty d then [d] else [].

(** The diagrams of [s], by its bodies alone. *)
Definition diagrams_of (s : jsstring) : list jsstring :=
  filter Panel.nonempty (map trim (bodies_from (length s) s)).

(** The diagrams of a text that follows an opening fence. *)
Definition diagrams_after_opening (s : jsstring) : list jsstring :=
  match find_close s with
  | Some (body, rest) => keep (trim body) ++ diagrams_of rest
  | None => []
  end.

(** A string ends well when its last character is not a backtick. *)
Definition ends_well (u : jsstring) : Prop := last u 0%N <> BACKTICK.

Definition to_match (b : Block) (text : jsstring) : match_result :=
  mkMatch (block_start b)
    (firstn (block_end b - block_start b) (skipn (block_start b) text))
    (Some (block_body b)).

End Scanner.

(* ================================================================== *)
(** ** The ways to write one block *)
(* ================================================================== *)

Module Written.

Inductive LineEnding : Type := Unix | Windows.

Definition eol (e : LineEnding) : jsstring :=
  match e with
  | Unix => [LF]
  | Windows => [CR; LF]
  end.

(** The line break before the closing fence, when there is one. *)
Definition trailing (e : option LineEnding) : jsstring :=
  match e with
  | Some e => eol e
  | None => []
  end.

Inductive Blank : Type := Space | Tab.

Definition blank (b : Blank) : code_unit :=
  match b with
  | Space => SP
  | Tab => TAB
  end.

(** The end of a written block: a line break or none, and the fence. *)
Definition ending (e : option LineEnding) : jsstring := trailing e ++ fence.

(** A block with the given body: the opener, blanks, a line break, the
    body, a line break or none, the closing fence. *)
Definition block (blanks : list Blank) (first : LineEnding) (body : jsstring)
  (last : option LineEnding) : jsstring :=
  opener ++ map blank blanks ++ eol first ++ body ++ ending last.

(** What [_extractMermaidCode] answers on a text, in a panel that has
    just been made. *)
Definition extracted (text : jsstring) : completion (option jsstring) :=
  fst (Panel._extractMermaidCode (document_of text)
         (Panel.mkWorld Panel.all None None None NoHtml 0 [] 0 []
            (mkConfig None None None None) Light)).

End Written.

(* ================================================================== *)
(** ** The code lenses of [extension.ts] *)
(* ================================================================== *)

(** [MermaidCodeLensProvider]: a lens above every opening fence. *)
Module CodeLens.

Local Open Scope string_scope.
Local Open Scope nat_scope.
Local Open Scope list_scope.

(** [/```mermaid[^\S\r\n]*(?:\r?\n)/g], the pattern of [provideCodeLenses]. *)
Definition mermaidRegex : regex :=
  RLit opener (RSeq (RStar true (RClass class_hspace)) newline).

(** [vscode.Position]. *)
Record Position : Type := mkPosition {
  line : nat;
  character : nat
}.

(** [vscode.TextDocument] as the provider reads it: its [uri], its text
    and the whole of [positionAt]. *)
Record Document : Type := mkLensDocument {
  uri : string;
  text_document : TextDocument;
  positionAt_character : nat -> nat
}.

Definition positionAt (document : Document) (offset : nat) : Position :=
  mkPosition (positionAt_line (text_document document) offset)
             (positionAt_character document offset).

(** [vscode.Command] with the two [arguments] the provider passes. *)
Record Command : Type := mkCommand {
  title : string;
  command : string;
  arguments : string * nat
}.

(** [vscode.CodeLens]. *)
Record Lens : Type := mkCodeLens {
  range : Position * Position;
  lens_command : Command
}.

(** The [while ((match = mermaidRegex.exec(text)) !== null)] loop;
    [lastIndex] is the pattern's own, [codeLenses] the array pushed to. *)
Fixpoint lenses_loop (fuel : nat) (document : Document) (lastIndex : nat)
  (codeLenses : list Lens) : completion (list Lens) :=
  match fuel with
  | O => OutOfFuel
  | S f =>
      match exec mermaidRegex (getText (text_document document)) lastIndex with
      | None => Normal codeLenses
      | Some m =>
          let startPos := positionAt document (index m) in
          let range := (startPos, startPos) in
          let command :=
            mkCommand "Preview Diagram" "mermaid-preview.showDiagramAtPosition"
              (uri document, line startPos) in
          lenses_loop f document (end_index m) (codeLenses ++ [mkCodeLens range command])
      end
  end.

(** [provideCodeLenses(document)]. *)
Definition provideCodeLenses (document : Document) : completion (list Lens) :=
  lenses_loop (S (length (getText (text_document document)))) document 0 [].

(** The offsets of [s], counted from [i], at which an opening fence
    stands: [```mermaid], blanks, a line break. *)
Fixpoint openings (i : nat) (s : jsstring) : list nat :=
  match Scanner.open_fence s with
  | Some _ => [i]
  | None => []
  end ++
  match s with
  | [] => []
  | _ :: t => openings (S i) t
  end.

(** The lens that sits at an offset of a document. *)
Definition lens_at (document : Document) (offset : nat) : Lens :=
  mkCodeLens (positionAt document offset, positionAt document offset)
    (mkCommand "Preview Diagram" "mermaid-preview.showDiagramAtPosition"
       (uri document, line (positionAt document offset))).

(** The positions of a document never go back to an earlier line. *)
Definition lines_ascend (document : TextDocument) : Prop :=
  forall i j, i <= j -> positionAt_line document i <= positionAt_line document j.

(** What holds of a block of [text] found at or after offset [lo]: it
    lies in the text, and the text reads as a block at its start. *)
Definition block_in (text : jsstring) (lo : nat) (b : Scanner.Block) : Prop :=
  lo <= Scanner.block_start b /\
  Scanner.block_start b + 14 <= Scanner.block_end b /\
  Scanner.block_end b <= length text /\
  Scanner.block_here (skipn (Scanner.block_start b) text) =
    Some (Scanner.block_body b, skipn (Scanner.block_end b) text).

(** A diagram as the panel hands it on: not empty, no blank at either
    end, no fence inside, and a part of the text. *)
Definition clean (text d : jsstring) : Prop :=
  d <> [] /\ trim d = d /\ includes fence d = false /\
  exists pre post, text = pre ++ d ++ post.

End CodeLens.

(* ================================================================== *)
(** ** The page of diagrams *)
(* ================================================================== *)

(** [_getHtmlForWebview]: the diagrams are read back from their JSON
    text, escaped one by one and written into the script of the page. *)
Module Page.

Local Open Scope string_scope.
Local Open Scope nat_scope.
Local Open Scope list_scope.

(** JSON white space: TAB, LF, CR and SP. *)
Definition is_json_space (c : code_unit) : bool :=
  ((c =? 9) || (c =? 10) || (c =? 13) || (c =? 32))%N.

(** The value of a hexadecimal digit, of either case. *)
Definition hex_value (c : code_unit) : option N :=
  if ((48 <=? c) && (c <=? 57))%N then Some (c - 48)%N
  else if ((97 <=? c) && (c <=? 102))%N then Some (c - 87)%N
  else if ((65 <=? c) && (c <=? 70))%N then Some (c - 55)%N
  else None.

(** Where a reader of the JSON text of an array of strings stands. *)
Inductive Where : Type :=
| Start        (* before the opening bracket *)
| Opened       (* after the opening bracket *)
| InString     (* inside a string *)
| AfterString  (* after a string *)
| AfterComma   (* after a comma *)
| Closed.      (* after the closing bracket *)

(** The reader: [done] are the strings read, [cur] is the string being
    read. Inside a string a quote ends it, a backslash starts one of the
    escapes of JSON, a control character is refused and every other code
    unit stands for itself. *)
Fixpoint read (st : Where) (done : list jsstring) (cur : jsstring) (s : jsstring)
  : option (list jsstring) :=
  match s with
  | [] =>
      match st with
      | Closed => Some done
      | _ => None
      end
  | c :: t =>
      match st with
      | Start =>
          if is_json_space c then read Start done cur t
          else if (c =? 91)%N then read Opened done cur t
          else None
      | Opened =>
          if is_json_space c then read Opened done cur t
          else if (c =? 34)%N then read InString done [] t
          else if (c =? 93)%N then read Closed done cur t
          else None
      | AfterComma =>
          if is_json_space c then read AfterComma done cur t
          else if (c =? 34)%N then read InString done [] t
          else None
      | AfterString =>
          if is_json_space c then read AfterString done cur t
          else if (c =? 44)%N then read AfterComma done cur t
          else if (c =? 93)%N then read Closed done cur t
          else None
      | Closed =>
          if is_json_space c then read Closed done cur t
          else None
      | InString =>
          if (c =? 34)%N then read AfterString (done ++ [cur]) [] t
          else if (c =? 92)%N then
            match t with
            | e :: t' =>
                if (e =? 34)%N then read InString done (cur ++ [34%N]) t'
                else if (e =? 92)%N then read InString done (cur ++ [92%N]) t'
                else if (e =? 47)%N then read InString done (cur ++ [47%N]) t'
                else if (e =? 98)%N then read InString done (cur ++ [8%N]) t'
                else if (e =? 102)%N then read InString done (cur ++ [12%N]) t'
                else if (e =? 110)%N then read InString done (cur ++ [10%N]) t'
                else if (e =? 114)%N then read InString done (cur ++ [13%N]) t'
                else if (e =? 116)%N then read InString done (cur ++ [9%N]) t'
                else if (e =? 117)%N then
                  match t' with
                  | h1 :: h2 :: h3 :: h4 :: t'' =>
                      match hex_value h1, hex_value h2, hex_value h3, hex_value h4 with
                      | Some a, Some b, Some c', Some d =>
                          read InString done
                            (cur ++ [(4096 * a + 256 * b + 16 * c' + d)%N]) t''
                      | _, _, _, _ => None
                      end
                  | _ => None
                  end
                else None
            | [] => None
            end
          else if (c <? 32)%N then None
          else read InString done (cur ++ [c]) t
      end
  end.

(** [JSON.parse(text)] where the text is that of an array of strings:
    the array. On every other text [JSON.parse] throws a SyntaxError or
    answers a value on which [_getHtmlForWebview] throws a TypeError
    ([diagrams.map], [code.replace]); both are [None]. *)
Definition JSON_parse (text : jsstring) : option (list jsstring) :=
  read Start [] [] text.

(** GetSubstitution for a pattern without capturing groups: in the
    replacement text [$$] is a dollar, [$&] the match, [$`] the text
    before the match and [$'] the text after it; a dollar before
    anything else, or at the end, and every other character stand for
    themselves. *)
Fixpoint GetSubstitution (matched before after template : jsstring) : jsstring :=
  match template with
  | [] => []
  | c :: t =>
      if (c =? 36)%N then
        match t with
        | d :: t' =>
            if (d =? 36)%N then 36%N :: GetSubstitution matched before after t'
            else if (d =? 38)%N then matched ++ GetSubstitution matched before after t'
            else if (d =? 96)%N then before ++ GetSubstitution matched before after t'
            else if (d =? 39)%N then after ++ GetSubstitution matched before after t'
            else c :: GetSubstitution matched before after t
        | [] => [c]
        end
      else c :: GetSubstitution matched before after t
  end.

(** The second loop of [RegExp.prototype[Symbol.replace]]: the text
    between the matches and the substitution of each match, from
    [nextSourcePosition] on. *)
Fixpoint accumulate (results : list match_result) (text template : jsstring)
  (nextSourcePosition : nat) : jsstring :=
  match results with
  | [] => skipn nextSourcePosition text
  | result :: rest =>
      let position := index result in
      let matchLength := length (matched result) in
      let replacement :=
        GetSubstitution (matched result) (firstn position text)
          (skipn (position + matchLength) text) template in
      if nextSourcePosition <=? position then
        firstn (position - nextSourcePosition) (skipn nextSourcePosition text)
        ++ replacement ++ accumulate rest text template (position + matchLength)
      else accumulate rest text template nextSourcePosition
  end.

(** [text.replace(r, template)] for a global pattern [r] without groups
    and a replacement text: its first loop collects the matches as
    [matchAll] does. *)
Definition replace (r : regex) (template : jsstring) (text : jsstring)
  : completion jsstring :=
  match matchAll r text with
  | Some results => Normal (accumulate results text template 0)
  | None => OutOfFuel
  end.

Definition and_then {A B : Type} (c : completion A) (f : A -> completion B)
  : completion B :=
  match c with
  | Normal a => f a
  | Throw => Throw
  | OutOfFuel => OutOfFuel
  end.

(** [code.replace(/\\/g, '\\\\').replace(/`/g, '\\`').replace(/\$/g, '\\$')] *)
Definition escape (code : jsstring) : completion jsstring :=
  and_then (replace (RChar 92%N) [92; 92]%N code) (fun code =>
  and_then (replace (RChar 96%N) [92; 96]%N code) (fun code =>
  replace (RChar 36%N) [92; 36]%N code)).

(** [_getAppearanceClass(appearance)]. *)
Definition _getAppearanceClass (appearance : PreviewAppearance) : string :=
  match appearance with
  | light => "appearance-light"
  | dark => "appearance-dark"
  | matchVSCode => "appearance-match"
  end.

(** The text of an appearance, as a template writes it. *)
Definition appearance_text (appearance : PreviewAppearance) : string :=
  match appearance with
  | matchVSCode => "matchVSCode"
  | light => "light"
  | dark => "dark"
  end.

(** The page [_getHtmlForWebview] answers is a fixed text around four
    values: the array after [const diagrams =], the theme and the
    appearance between quotes after [let currentTheme =] and
    [let currentAppearance =], and the class of [body]. *)
Record Html : Type := mkHtml {
  diagrams_text : jsstring;
  currentTheme : string;
  currentAppearance : string;
  body_class : string
}.

(** [_getHtmlForWebview(webview, mermaidCode, theme, appearance)]. *)
Definition _getHtmlForWebview (mermaidCode : jsstring) (theme : string)
  (appearance : PreviewAppearance) : completion Html :=
  match JSON_parse mermaidCode with
  | None => Throw
  | Some diagrams =>
      and_then (Panel.map_completion escape diagrams) (fun escapedDiagrams =>
      let appearanceClass := _getAppearanceClass appearance in
      Normal (mkHtml (JSON.stringify escapedDiagrams) theme
                (appearance_text appearance) appearanceClass))
  end.

(** What the three replacements make of one character. *)
Definition escape_unit (c : code_unit) : jsstring :=
  if ((c =? 92) || (c =? 96) || (c =? 36))%N then [92%N; c] else [c].

Definition is_special (c : code_unit) : bool :=
  ((c =? 92) || (c =? 96) || (c =? 36))%N.

(** The pages a panel of [extension.ts] writes: an error page with one
    of the three messages of the renderers, or a page of diagrams whose
    JSON text is that of an array, not empty, of diagrams that are not
    empty, on which [_getHtmlForWebview] does not throw. *)
Definition well_formed (h : Host.Html) : Prop :=
  match h with
  | NoHtml => False
  | ErrorHtml message =>
      message = "No document to preview" \/
      message = "No Mermaid diagram found. Wrap your diagram in ```mermaid code blocks." \/
      message = "No Mermaid diagram found at this position."
  | DiagramHtml mermaidCode theme appearance =>
      exists diagrams a page,
        mermaidCode = JSON.stringify diagrams /\
        diagrams <> [] /\ Forall (fun d => d <> []) diagrams /\
        appearance = Some a /\
        _getHtmlForWebview mermaidCode theme a = Normal page /\
        JSON_parse (diagrams_text page) = Some (map (flat_map escape_unit) diagrams)
  end.

End Page.

(* ================================================================== *)
(** ** The script of the page: what it shows *)
(* ================================================================== *)

From Stdlib Require FloatOps SpecFloat.

(** The script of the page of [extension.ts] beyond the zoom itself: the
    zoom label, the active diagram and its indicator, the dropdown
    menus. Indices and lengths are integers, which the numbers of the
    script hold exactly. *)
Module Script.

Local Open Scope string_scope.
Local Open Scope Z_scope.

(** [Math.round(x)]: the integer nearest to [x], the upper one of two
    that are as near; no integer for NaN and the infinities. A finite
    number is [m * 2^e] for integers [m] and [e], so the integer is
    [floor (x + 1/2)], computed exactly. *)
Definition Math_round (x : float) : option Z :=
  match FloatOps.Prim2SF x with
  | SpecFloat.S754_zero _ => Some 0
  | SpecFloat.S754_finite s m e =>
      let v := if s then Z.neg m else Z.pos m in
      Some (if 0 <=? e then v * 2 ^ e else (2 * v + 2 ^ (- e)) / 2 ^ (1 - e))
  | SpecFloat.S754_infinity _ => None
  | SpecFloat.S754_nan => None
  end.

(** An integer as the script writes it into a text. *)
Definition integer_text (n : Z) : string := NilZero.string_of_int (Z.to_int n).

(** The text [applyZoomScale] puts into the zoom label:
    [Math.round(currentZoom * 100) + '%']. *)
Definition zoom_label (currentZoom : float) : option string :=
  option_map (fun n => integer_text n ++ "%") (Math_round (currentZoom * 100)%float).

(** From the zoom [z], forty-six steps in give the upper bound and
    forty-six steps out the lower bound. *)
Definition reaches_bounds (z : float) : Prop :=
  Nat.iter 46 (fun z => Webview.Math_min (z + Webview.tenth) Webview.zoom_max)%float z
    = Webview.zoom_max /\
  Nat.iter 46 (fun z => Webview.Math_max (z - Webview.tenth) Webview.zoom_min)%float z
    = Webview.zoom_min.

(** [diagrams.length] and [activeDiagramIndex]. *)
Record Navigation : Type := mkNavigation {
  diagrams_length : nat;
  activeDiagramIndex : Z
}.

(** [setActiveDiagram(index)]. *)
Definition setActiveDiagram (index : Z) (s : Navigation) : Navigation :=
  if (diagrams_length s =? 0)%nat then s
  else mkNavigation (diagrams_length s)
         (Z.max 0 (Z.min (Z.of_nat (diagrams_length s) - 1) index)).

(** [focusDiagram(index)]; the scrolling is left out. *)
Definition focusDiagram (index : Z) (s : Navigation) : Navigation :=
  setActiveDiagram index s.

(** [navigateDiagram(delta)]; [%] is the remainder with the sign of the
    dividend. *)
Definition navigateDiagram (delta : Z) (s : Navigation) : Navigation :=
  if (diagrams_length s =? 0)%nat then s
  else
    let next :=
      Z.rem (activeDiagramIndex s + delta + Z.of_nat (diagrams_length s))
            (Z.of_nat (diagrams_length s)) in
    focusDiagram next s.

(** [updateDiagramIndicator()]: the text of the indicator and the
    [display] of the controls. *)
Definition updateDiagramIndicator (s : Navigation) : string * string :=
  let hasMultiple := (1 <? diagrams_length s)%nat in
  (if hasMultiple
   then "Diagram " ++ integer_text (activeDiagramIndex s + 1) ++ " of "
        ++ integer_text (Z.of_nat (diagrams_length s))
   else "",
   if hasMultiple then "flex" else "none").

(** What moves the active diagram: the two buttons of the toolbar, a
    click on the diagram number [i] of the page, and [renderAllDiagrams],
    which sets the active diagram again. *)
Inductive NavigationEvent : Type :=
| Previous                            (* navigateDiagram(-1) *)
| Next                                (* navigateDiagram(1) *)
| Navigate (delta : Z)                (* navigateDiagram(delta) *)
| Click (i : nat)                     (* focusDiagram(i) *)
| Rendered.                           (* setActiveDiagram(activeDiagramIndex) *)

Definition navigation_step (e : NavigationEvent) (s : Navigation) : Navigation :=
  match e with
  | Previous => navigateDiagram (-1) s
  | Next => navigateDiagram 1 s
  | Navigate delta => navigateDiagram delta s
  | Click i => focusDiagram (Z.of_nat i) s
  | Rendered => setActiveDiagram (activeDiagramIndex s) s
  end.

Definition navigation_run (es : list NavigationEvent) (s : Navigation) : Navigation :=
  fold_left (fun s e => navigation_step e s) es s.

(** A page of [n] diagrams when it is loaded: [let activeDiagramIndex = 0]. *)
Definition loaded (n : nat) : Navigation := mkNavigation n 0.

(** The three dropdown menus of the toolbar, [dropdown-theme],
    [dropdown-appearance] and [dropdown-export]. *)
Inductive Menu : Type := theme_menu | appearance_menu | export_menu.

Definition same_menu (a b : Menu) : bool :=
  match a, b with
  | theme_menu, theme_menu => true
  | appearance_menu, appearance_menu => true
  | export_menu, export_menu => true
  | _, _ => false
  end.

(** Which menus have the class [show]. *)
Definition Shown : Type := Menu -> bool.

(** [closeAllDropdowns(exceptId)]. *)
Definition closeAllDropdowns (exceptId : option Menu) (shown : Shown) : Shown :=
  fun menu =>
    match exceptId with
    | Some id => if same_menu menu id then shown menu else false
    | None => false
    end.

(** [toggleDropdown(name)]. *)
Definition toggleDropdown (name : Menu) (shown : Shown) : Shown :=
  let isOpen := shown name in
  let shown := closeAllDropdowns (if isOpen then None else Some name) shown in
  if negb isOpen then fun menu => if same_menu menu name then true else shown menu
  else shown.

(** A click somewhere in the document, in a dropdown or not. *)
Definition document_click (in_dropdown : bool) (shown : Shown) : Shown :=
  if negb in_dropdown then closeAllDropdowns None shown else shown.

Inductive MenuEvent : Type :=
| Toggle (name : Menu)
| DocumentClick (in_dropdown : bool).

Definition menu_step (e : MenuEvent) (shown : Shown) : Shown :=
  match e with
  | Toggle name => toggleDropdown name shown
  | DocumentClick in_dropdown => document_click in_dropdown shown
  end.

Definition menu_run (es : list MenuEvent) (shown : Shown) : Shown :=
  fold_left (fun s e => menu_step e s) es shown.

(** No menu has the class [show] in the page as it is written. *)
Definition all_closed : Shown := fun _ => false.

End Script.

(* ================================================================== *)
(** ** The script of the page of [previewPanel.ts] *)
(* ================================================================== *)

(** The earlier page zooms between 0.3 and 3.0 and has one export menu
    for each diagram. *)
Module LegacyScript.

Local Open Scope float_scope.

(** 0.3 and 3.0 as the script's literals denote them. *)
Definition zoom_min : float := 0x1.3333333333333p-2.
Definition zoom_max : float := 3.

(** [let currentZoom = 1.0]. *)
Definition initial : float := 1.

Definition zoomIn (currentZoom : float) : float :=
  Webview.Math_min (currentZoom + Webview.tenth) zoom_max.

Definition zoomOut (currentZoom : float) : float :=
  Webview.Math_max (currentZoom - Webview.tenth) zoom_min.

Definition zoomReset (currentZoom : float) : float := 1.

Inductive Event : Type :=
| ZoomIn
| ZoomOut
| ZoomReset.

Definition handle (e : Event) (currentZoom : float) : float :=
  match e with
  | ZoomIn => zoomIn currentZoom
  | ZoomOut => zoomOut currentZoom
  | ZoomReset => zoomReset currentZoom
  end.

Definition run_events (es : list Event) (currentZoom : float) : float :=
  fold_left (fun z e => handle e z) es currentZoom.

(** The levels reached from [seen], breadth first. *)
Fixpoint explore (fuel : nat) (seen frontier : list float) : list float :=
  match fuel with
  | O => seen
  | S f =>
      match frontier with
      | [] => seen
      | z :: rest =>
          let fresh :=
            fold_left (fun acc c =>
                         match Webview.position c (seen ++ acc) with
                         | Some _ => acc
                         | None => acc ++ [c]
                         end) [zoomIn z; zoomOut z; initial] [] in
          explore f (seen ++ fresh) (rest ++ fresh)
      end
  end.

(** Every zoom level the earlier page can take. *)
Definition zoom_levels : list float :=
  Eval vm_compute in explore 1000 [initial] [initial].

(** For each level, where the levels one zoom in and one zoom out of it
    stand in [zoom_levels]. *)
Definition zoom_steps : list (nat * nat) :=
  Eval vm_compute in
    map (fun z =>
           (match Webview.position (zoomIn z) zoom_levels with
            | Some i => i | None => 0%nat end,
            match Webview.position (zoomOut z) zoom_levels with
            | Some i => i | None => 0%nat end))
        zoom_levels.

(** [zoom_steps] is right about the levels [zs]. *)
Fixpoint steps_hold (zs : list float) (steps : list (nat * nat)) : Prop :=
  match zs, steps with
  | [], [] => True
  | z :: zs', (i, o) :: steps' =>
      zoomIn z = nth i zoom_levels 0 /\
      zoomOut z = nth o zoom_levels 0 /\
      (i <? length zoom_levels)%nat = true /\
      (o <? length zoom_levels)%nat = true /\
      steps_hold zs' steps'
  | _, _ => False
  end.

(** From the zoom [z], twenty-seven steps in give the upper bound and
    twenty-seven steps out the lower bound. *)
Definition reaches_bounds (z : float) : Prop :=
  Nat.iter 27 zoomIn z = zoom_max /\ Nat.iter 27 zoomOut z = zoom_min.

(** The export menus of the page, one for each diagram, by its index:
    which have the class [show]. *)
Definition Shown : Type := nat -> bool.

(** [toggleExportMenu(index)]. *)
Definition toggleExportMenu (index : nat) (shown : Shown) : Shown :=
  fun m => if (m =? index)%nat then negb (shown index) else false.

(** [closeExportMenu(index)]. *)
Definition closeExportMenu (index : nat) (shown : Shown) : Shown :=
  fun m => if (m =? index)%nat then false else shown m.

(** A click somewhere in the document, in an export dropdown or not. *)
Definition document_click (in_dropdown : bool) (shown : Shown) : Shown :=
  if negb in_dropdown then fun _ => false else shown.

Inductive MenuEvent : Type :=
| ToggleExport (index : nat)
| CloseExport (index : nat)
| DocumentClick (in_dropdown : bool).

Definition menu_step (e : MenuEvent) (shown : Shown) : Shown :=
  match e with
  | ToggleExport index => toggleExportMenu index shown
  | CloseExport index => closeExportMenu index shown
  | DocumentClick in_dropdown => document_click in_dropdown shown
  end.

Definition menu_run (es : list MenuEvent) (shown : Shown) : Shown :=
  fold_left (fun s e => menu_step e s) es shown.

End LegacyScript.

(* ================================================================== *)
(** ** The extension: its commands and listeners *)
(* ================================================================== *)

(** [activate] of [extension.ts] with the static side of
    [MermaidPreviewPanel]: [currentPanel], [createOrShow],
    [createOrShowSingle], the listener of a panel's messages and
    [dispose]. The settings, the colour theme and the logger are the
    host's, one of each for all the panels. *)
Module Extension.
Import Panel.

Local Open Scope string_scope.
Local Open Scope nat_scope.
Local Open Scope list_scope.
Local Open Scope panel_scope.

(** A document with the [languageId] the listeners look at. *)
Record Document : Type := mkDocumentOf {
  document : TextDocument;
  languageId : string
}.

(** The state of the extension and of the host around it. [panels] are
    the panels made so far, in the order they were made; a panel that
    was disposed is [None]. [currentPanel] is the number of a panel. *)
Record State : Type := mkState {
  currentPanel : option nat;
  panels : list (option World);
  activeTextEditor : option Document;
  autoRefresh : option bool;
  settings : Configuration;
  colorTheme : ColorThemeKind;
  log : list LogEntry
}.

(** A panel's world as the host is now: the settings, the colour theme
    and the logger are shared. *)
Definition enter (x : State) (w : World) : World :=
  mkWorld (_mode w) (_singleLine w) (_currentDocument w) (_updateTimeout w)
    (html w) (html_writes w) (timers w) (next_timer w) (log x) (settings x)
    (colorTheme x).

Fixpoint set_nth {A : Type} (i : nat) (a : A) (l : list A) : list A :=
  match l, i with
  | [], _ => []
  | _ :: t, O => a :: t
  | b :: t, S j => b :: set_nth j a t
  end.

Definition panel (i : nat) (x : State) : option World :=
  match nth_error (panels x) i with
  | Some (Some w) => Some w
  | _ => None
  end.

(** A method of the panel number [i] is run; nothing runs on a panel
    that is not there. *)
Definition call (i : nat) (m : M unit) (x : State) : State :=
  match panel i x with
  | Some w =>
      let w' := snd (m (enter x w)) in
      mkState (currentPanel x) (set_nth i (Some w') (panels x)) (activeTextEditor x)
        (autoRefresh x) (settings x) (colorTheme x) (logger w')
  | None => x
  end.

(** [MermaidPreviewPanel.currentPanel?.m()]. *)
Definition call_current (m : M unit) (x : State) : State :=
  match currentPanel x with
  | Some i => call i m x
  | None => x
  end.

(** [new MermaidPreviewPanel(panel, extensionUri, document, mode, singleLine)]:
    the new panel is the last of [panels]. *)
Definition new_panel (d : TextDocument) (mode : PreviewMode) (singleLine : option Z)
  (x : State) : State :=
  let w := snd (construct (settings x) (colorTheme x) (log x) d mode singleLine) in
  mkState (currentPanel x) (panels x ++ [Some w]) (activeTextEditor x)
    (autoRefresh x) (settings x) (colorTheme x) (logger w).

Definition set_currentPanel (p : option nat) (x : State) : State :=
  mkState p (panels x) (activeTextEditor x) (autoRefresh x) (settings x)
    (colorTheme x) (log x).

(** [MermaidPreviewPanel.createOrShow(extensionUri, document, viewColumn)];
    the column and [reveal] are left out. *)
Definition createOrShow (d : TextDocument) (x : State) : State :=
  match currentPanel x with
  | Some i => call i (_switchToAllMode d) x
  | None => set_currentPanel (Some (length (panels x))) (new_panel d all None x)
  end.

(** [MermaidPreviewPanel.createOrShowSingle(extensionUri, document, lineNumber, viewColumn)]. *)
Definition createOrShowSingle (d : TextDocument) (lineNumber : Z) (x : State) : State :=
  new_panel d single (Some lineNumber) x.

(** [dispose()] of the panel number [i]. *)
Definition dispose (i : nat) (x : State) : State :=
  match panel i x with
  | Some _ =>
      mkState None (set_nth i None (panels x)) (activeTextEditor x) (autoRefresh x)
        (settings x) (colorTheme x) (log x)
  | None => x
  end.

(** The two preview commands. *)
Definition showPreview (x : State) : State :=
  match activeTextEditor x with
  | Some editor => createOrShow (document editor) x
  | None => x
  end.

(** The command of the lenses, once [openTextDocument(uri)] has
    answered the document. *)
Definition showDiagramAtPosition (d : TextDocument) (line : Z) (x : State) : State :=
  createOrShowSingle d line x.

Definition is_markdown (d : Document) : bool := String.eqb (languageId d) "markdown".

Definition has_panel (x : State) : bool :=
  match currentPanel x with
  | Some _ => true
  | None => false
  end.

(** The listener of [onDidChangeTextDocument]. *)
Definition onDidChangeTextDocument (e : Document) (x : State) : State :=
  let autoRefresh := config_get (autoRefresh x) true in
  if autoRefresh && is_markdown e && has_panel x
  then call_current (updateContent (document e)) x
  else x.

(** The listener of [onDidChangeActiveTextEditor]. *)
Definition onDidChangeActiveTextEditor (editor : option Document) (x : State) : State :=
  match editor with
  | Some editor =>
      if is_markdown editor && has_panel x
      then call_current (updateContent (document editor)) x
      else x
  | None => x
  end.

(** The listener of [onDidChangeActiveColorTheme]. *)
Definition onDidChangeActiveColorTheme (x : State) : State :=
  call_current refreshAppearance x.

(** The listener of [onDidChangeConfiguration]; [affects] is what
    [event.affectsConfiguration('mermaidPreview.previewAppearance')]
    answers. *)
Definition onDidChangeConfiguration (affects : bool) (x : State) : State :=
  if affects then call_current refreshAppearance x else x.

(** A message of a page to its panel. *)
Inductive Message : Type :=
| changeTheme (theme : option string)
| saveThemePreference (theme : option string)
| exportDiagram (data : option jsstring) (format : string) (index : nat)
| exportError (error : option string)
| changeAppearance (appearance : PreviewAppearance)
| unknown (command : string).

Definition command_of (m : Message) : string :=
  match m with
  | changeTheme _ => "changeTheme"
  | saveThemePreference _ => "saveThemePreference"
  | exportDiagram _ _ _ => "exportDiagram"
  | exportError _ => "exportError"
  | changeAppearance _ => "changeAppearance"
  | unknown command => command
  end.

(** [this._logger.logError(message, error)]. *)
Definition logError (message : string) : M unit := fun w =>
  (Normal tt,
   mkWorld (_mode w) (_singleLine w) (_currentDocument w) (_updateTimeout w)
     (html w) (html_writes w) (timers w) (next_timer w)
     (logger w ++ [mkLog "error" "" message []]) (config w) (activeColorTheme w)).

(** The listener of the messages of a panel's page, as far as it acts on
    the panel: [config.update] is a request to the host, whose outcome
    comes back as a change of the settings; the export goes on in
    [_handleExportDiagram], on the host's dialogs and files; the
    listener of [changeAppearance] goes on to [refreshAppearance] after
    the host has answered its request. *)
Definition onDidReceiveMessage (message : Message) : M unit :=
  Panel.logDebug "WebviewMessage" ("Received " ++ command_of message) [] ;;
  match message with
  | changeTheme theme => _handleThemeChange theme
  | saveThemePreference _ => ret tt
  | exportDiagram _ _ _ =>
      Panel.logDebug "Export" "Received export request from webview" []
  | exportError _ => logError "Webview reported export error"
  | changeAppearance _ => ret tt
  | unknown _ => ret tt
  end.

(** What the host does to the extension. *)
Inductive Event : Type :=
| ShowPreview
| ShowPreviewToSide
| ShowDiagramAtPosition (d : TextDocument) (line : Z)
| TextDocumentChanged (e : Document)
| ActiveTextEditorChanged (editor : option Document)
| ActiveColorThemeChanged (kind : ColorThemeKind)
| ConfigurationChanged (cfg : Configuration) (auto : option bool) (affects : bool)
| TimerFires (i : nat) (id : TimerId)
| MessageReceived (i : nat) (message : Message)
| AppearanceSaved (i : nat)
    (* the host has answered the request of [_handleAppearanceChange] *)
| PanelClosed (i : nat).

Definition handle (e : Event) (x : State) : State :=
  match e with
  | ShowPreview => showPreview x
  | ShowPreviewToSide => showPreview x
  | ShowDiagramAtPosition d line => showDiagramAtPosition d line x
  | TextDocumentChanged e => onDidChangeTextDocument e x
  | ActiveTextEditorChanged editor =>
      onDidChangeActiveTextEditor editor
        (mkState (currentPanel x) (panels x) editor (autoRefresh x) (settings x)
           (colorTheme x) (log x))
  | ActiveColorThemeChanged kind =>
      onDidChangeActiveColorTheme
        (mkState (currentPanel x) (panels x) (activeTextEditor x) (autoRefresh x)
           (settings x) kind (log x))
  | ConfigurationChanged cfg auto affects =>
      onDidChangeConfiguration affects
        (mkState (currentPanel x) (panels x) (activeTextEditor x) auto cfg
           (colorTheme x) (log x))
  | TimerFires i id => call i (fire id) x
  | MessageReceived i message => call i (onDidReceiveMessage message) x
  | AppearanceSaved i => call i refreshAppearance x
  | PanelClosed i => dispose i x
  end.

Definition run_events (es : list Event) (x : State) : State :=
  fold_left (fun x e => handle e x) es x.

(** The extension when [activate] has run: no panel yet. *)
Definition activated (editor : option Document) (auto : option bool)
  (cfg : Configuration) (kind : ColorThemeKind) : State :=
  mkState None [] editor auto cfg kind
    [mkLog "info" "" "Mermaid Preview extension activated" []].

(** The panels keep their modes: a panel in mode [all] keeps no line, a
    panel in mode [single] keeps one and has no timer; the current
    panel is open and in mode [all]. *)
Definition modes_kept (x : State) : Prop :=
  (forall i w, panel i x = Some w ->
     match _mode w with
     | all => _singleLine w = None
     | single => (exists l, _singleLine w = Some l) /\ timers w = []
     end) /\
  (forall i, currentPanel x = Some i -> exists w, panel i x = Some w /\ _mode w = all).

(** What a call on a panel keeps when it is not a change of document:
    the mode, the line, the field [_currentDocument] (it is not
    assigned), and the absence of timers. *)
Definition kept (w w' : World) : Prop :=
  _mode w' = _mode w /\ _singleLine w' = _singleLine w /\
  _currentDocument w' = _currentDocument w /\
  (timers w = [] -> timers w' = []).

(** What stays of a panel as long as it is open: its mode and its line,
    and in mode [single] the field [_currentDocument], which is not
    assigned again. *)
Definition stable (w w' : World) : Prop :=
  _mode w' = _mode w /\ _singleLine w' = _singleLine w /\
  (_mode w = single -> _currentDocument w' = _currentDocument w).

End Extension.

(* ================================================================== *)
(** ** Documents of prose and blocks *)
(* ================================================================== *)

(** A markdown document as it is written: prose, then fenced blocks,
    each followed by prose. *)
Module Composed.
Import Written.

(** A fenced block as it is written: the blanks after the opener, the
    line break after them, the body, the line break before the closing
    fence or none. *)
Record Fenced : Type := mkFenced {
  blanks : list Blank;
  first_break : LineEnding;
  body : jsstring;
  last_break : option LineEnding
}.

Definition fenced_text (f : Fenced) : jsstring :=
  block (blanks f) (first_break f) (body f) (last_break f).

Definition compose (prose : jsstring) (parts : list (Fenced * jsstring)) : jsstring :=
  prose ++ flat_map (fun p => fenced_text (fst p) ++ snd p) parts.

(** Prose is quiet when [```mermaid] does not stand in it. *)
Definition quiet (prose : jsstring) : Prop := includes opener prose = false.

(** A block is tidy when its body holds no [```] and does not end in a
    backtick. *)
Definition tidy (f : Fenced) : Prop :=
  includes fence (body f) = false /\ Scanner.ends_well (body f).

End Composed.

(* ================================================================== *)
(** * Properties *)
(* ================================================================== *)

Unset Implicit Arguments.

(** ** Concrete runs *)

Section Runs.

(** A document with two fences: a diagram written with Windows line
    breaks and blanks after the opener, and an empty block opened in the
    middle of a line. *)
Let sample : jsstring :=
  lit "# T" ++ [LF] ++ lit "```mermaid  " ++ [CR; LF] ++ lit "graph TD" ++ [LF]
  ++ lit " A-->B" ++ [CR; LF] ++ lit "```" ++ [LF] ++ lit "x```mermaid" ++ [LF]
  ++ lit "```".

Let quiet : Panel.World :=
  Panel.mkWorld Panel.all None None None NoHtml 0 [] 0 []
    (mkConfig None None None None) Light.

Example matchAll_sample :
  option_map (map (fun m => (index m, length (matched m), group1 m)))
    (matchAll mermaidRegex sample) =
  Some [(4, 34, Some (lit "graph TD" ++ [LF] ++ lit " A-->B")); (40, 14, Some [])].
Proof. vm_compute. reflexivity. Qed.

Example extract_sample :
  fst (Panel._extractMermaidCode (document_of sample) quiet) =
  Normal (Some ([91; 34]%N ++ lit "graph TD\n A-->B" ++ [34; 93]%N)).
Proof. vm_compute. reflexivity. Qed.

Example extract_at_line_sample :
  map (fun l => fst (Panel._extractMermaidCodeAtLine (document_of sample) l quiet))
    [0; 1; 3; 4; 5; 6]%Z =
  [Normal None;
   Normal (Some ([91; 34]%N ++ lit "graph TD\n A-->B" ++ [34; 93]%N));
   Normal (Some ([91; 34]%N ++ lit "graph TD\n A-->B" ++ [34; 93]%N));
   Normal (Some ([91; 34]%N ++ lit "graph TD\n A-->B" ++ [34; 93]%N));
   Normal None; Normal None].
Proof. vm_compute. reflexivity. Qed.

Example line_of_sample :
  map (line_of sample) [0; 3; 4; 17; 18; 27; 38; 39; 54] = [0; 0; 1; 1; 2; 3; 4; 5; 6].
Proof. vm_compute. reflexivity. Qed.

(** Quotes, line breaks, backslashes and control characters are escaped;
    a surrogate pair is kept and a lone surrogate is escaped. *)
Example stringify_sample :
  JSON.stringify [lit "a"; [34; 10; 92; 1; 55357; 56832; 55357]%N] =
  [91; 34]%N ++ lit "a" ++ [34; 44; 34]%N ++ [92; 34; 92; 110; 92; 92]%N
  ++ lit "\u0001" ++ [55357; 56832]%N ++ lit "\ud83d" ++ [34; 93]%N.
Proof. vm_compute. reflexivity. Qed.

Example trim_sample :
  trim ([LF; SP; 160; 65279]%N ++ lit "a b" ++ [TAB; CR; 8232]%N) = lit "a b".
Proof. vm_compute. reflexivity. Qed.

Example resolveTheme_sample :
  Panel.resolveTheme (mkConfig (Some true) (Some "forest"%string) None None) Dark None =
    ("dark"%string, matchVSCode) /\
  Panel.resolveTheme (mkConfig (Some true) (Some "forest"%string) (Some light) None)
    Dark None = ("default"%string, light) /\
  Panel.resolveTheme (mkConfig (Some true) (Some "forest"%string) None None) Dark
    (Some "base"%string) = ("base"%string, matchVSCode).
Proof. repeat split. Qed.

Example zoom_sample :
  Webview.currentZoom
    (Webview.run_events (repeat Webview.ZoomIn 3) Webview.initial) =
    0x1.4cccccccccccep+0%float /\
  Webview.currentZoom
    (Webview.run_events (repeat Webview.ZoomIn 60) Webview.initial) = 5%float /\
  Webview.currentZoom
    (Webview.run_events (repeat Webview.ZoomOut 60) Webview.initial) = 0.5%float.
Proof. repeat split. Qed.

Example export_cancelled :
  ExportDiagram.trace (ExportDiagram.mkHost (fun _ => None) (fun _ _ => None) "")
    (ExportDiagram._handleExportDiagram (Some (lit "PHN2Zz4=")) "png" 0) =
  [ExportDiagram.made (ExportDiagram.logDebug "Export" "Handling export request");
   ExportDiagram.made (ExportDiagram.logDebug "Export" "Showing save dialog");
   ExportDiagram.made
     (ExportDiagram.showSaveDialog
        (ExportDiagram.mkOptions (ExportDiagram.Uri_file "mermaid-diagram-1.png")
           [("PNG Image"%string, ["png"%string])]));
   ExportDiagram.made (ExportDiagram.logInfo "Export dialog closed")].
Proof. reflexivity. Qed.

End Runs.

(** ** The pattern and the scanner find the same blocks *)

Module RegexFacts.
Import Scanner.

Lemma flat_map_single {A B : Type} (f : A -> list B) (a : A) : flat_map f [a] = f a.
Proof. simpl. apply app_nil_r. Qed.

Lemma progress_cons (c : code_unit) (t : jsstring) (cap cap' : option jsstring) :
  progress (c :: t, cap) (t, cap') = true.
Proof. unfold progress. simpl. apply Nat.ltb_lt. lia. Qed.

(** A literal matches when the input starts with it. *)
Lemma rmatch_RLit (p : jsstring) (k : regex) (s : jsstring) (cap : option jsstring) :
  rmatch (RLit p k) (s, cap) =
  match strip_prefix p s with
  | Some r => rmatch k (r, cap)
  | None => []
  end.
Proof.
  revert s. induction p as [|c p IH]; intros s.
  - reflexivity.
  - destruct s as [|ch t]; [reflexivity|].
    cbn [RLit rmatch fst snd strip_prefix].
    destruct (ch =? c)%N.
    + rewrite flat_map_single. apply IH.
    + reflexivity.
Qed.

Lemma star_greedy_class (p : code_unit -> bool) (cap : option jsstring) :
  forall fuel s, length s <= fuel ->
  star_iter (rmatch (RClass p)) true fuel (s, cap) =
  map (fun r => (r, cap)) (greedy_suffixes p s).
Proof.
  induction fuel as [|f IH]; intros s Hlen.
  - destruct s; [reflexivity | simpl in Hlen; lia].
  - destruct s as [|c t]; [reflexivity|].
    cbn [star_iter rmatch fst snd greedy_suffixes].
    destruct (p c).
    + rewrite flat_map_single, progress_cons.
      rewrite IH by (simpl in Hlen; lia).
      rewrite map_app. reflexivity.
    + reflexivity.
Qed.

(** What follows a greedy run of blanks and cannot start on a blank sees
    only the longest run. *)
Lemma after_greedy_class (p : code_unit -> bool) (cap : option jsstring)
  (K : mstate -> list mstate)
  (HK : forall c t, p c = true -> K (c :: t, cap) = []) :
  forall s,
  flat_map K (map (fun r => (r, cap)) (greedy_suffixes p s)) =
  K (skip_while p s, cap).
Proof.
  induction s as [|c t IH].
  - apply flat_map_single.
  - cbn [greedy_suffixes skip_while]. destruct (p c) eqn:Hp.
    + rewrite map_app, flat_map_app, IH. cbn [map]. rewrite flat_map_single.
      rewrite (HK c t Hp). apply app_nil_r.
    + apply flat_map_single.
Qed.

Lemma rmatch_newline (s : jsstring) (cap : option jsstring) :
  rmatch newline (s, cap) =
  match strip_newline s with
  | Some r => [(r, cap)]
  | None => []
  end.
Proof.
  unfold newline. cbn [rmatch fst snd].
  destruct s as [|c t]; [reflexivity|].
  unfold strip_newline.
  destruct (N.eqb_spec c LF) as [->|Hlf].
  - reflexivity.
  - destruct (N.eqb_spec c CR) as [->|Hcr].
    + cbn [filter app flat_map]. rewrite progress_cons. cbn [filter app flat_map fst snd].
      destruct t as [|d t']; [reflexivity|].
      destruct (d =? LF)%N; reflexivity.
    + cbn [filter app flat_map fst snd].
      destruct (N.eqb_spec c LF); [contradiction | reflexivity].
Qed.

Lemma class_any_true (c : code_unit) : class_any c = true.
Proof. unfold class_any, is_nonspace. apply orb_negb_r. Qed.

Lemma star_lazy_any (cap : option jsstring) :
  forall fuel s pre, length s <= fuel ->
  star_iter (rmatch (RClass class_any)) false fuel (s, cap) =
  map (fun pr => (snd pr, cap)) (lazy_splits pre s).
Proof.
  induction fuel as [|f IH]; intros s pre Hlen.
  - destruct s; [reflexivity | simpl in Hlen; lia].
  - destruct s as [|c t]; [reflexivity|].
    cbn [star_iter rmatch fst snd lazy_splits map].
    rewrite class_any_true, flat_map_single, progress_cons.
    f_equal. apply (IH t (pre ++ [c])). simpl in Hlen. lia.
Qed.

Lemma lazy_splits_app (pre s : jsstring) (pr : jsstring * jsstring) :
  In pr (lazy_splits pre s) -> fst pr ++ snd pr = pre ++ s.
Proof.
  revert pre. induction s as [|c t IH]; intros pre [<-|Hin]; try reflexivity.
  - destruct Hin.
  - rewrite (IH _ Hin), <- app_assoc. reflexivity.
Qed.

Lemma rmatch_seq (a b : regex) (x : mstate) :
  rmatch (RSeq a b) x = flat_map (rmatch b) (rmatch a x).
Proof. reflexivity. Qed.

Lemma rmatch_star (greedy : bool) (r : regex) (x : mstate) :
  rmatch (RStar greedy r) x = star_iter (rmatch r) greedy (length (fst x)) x.
Proof. reflexivity. Qed.

Lemma rmatch_opt (r : regex) (x : mstate) :
  rmatch (ROpt r) x = filter (progress x) (rmatch r x) ++ [x].
Proof. reflexivity. Qed.

Lemma rmatch_group (r : regex) (x : mstate) :
  rmatch (RGroup r) x =
  map (fun y => (fst y, Some (firstn (consumed x y) (fst x)))) (rmatch r x).
Proof. reflexivity. Qed.

(** The capturing group around the lazy star: every split of the input,
    the shortest body first. *)
Lemma rmatch_body (s : jsstring) (cap : option jsstring) :
  rmatch (RGroup (RStar false (RClass class_any))) (s, cap) =
  map (fun pr => (snd pr, Some (fst pr))) (lazy_splits [] s).
Proof.
  rewrite rmatch_group, rmatch_star. cbn [fst].
  rewrite (star_lazy_any cap (length s) s []) by lia.
  rewrite map_map. apply map_ext_in. intros pr Hin.
  apply lazy_splits_app in Hin. cbn [app] in Hin.
  unfold consumed. cbn [fst snd]. f_equal. f_equal.
  rewrite <- Hin, length_app.
  replace (length (fst pr) + length (snd pr) - length (snd pr)) with (length (fst pr)) by lia.
  rewrite firstn_app, Nat.sub_diag, firstn_all. cbn [firstn]. apply app_nil_r.
Qed.

Lemma strip_newline_shorter (s r : jsstring) :
  strip_newline s = Some r -> length r < length s.
Proof.
  unfold strip_newline. destruct s as [|c t]; [discriminate|].
  destruct (c =? LF)%N.
  - intros [= <-]. simpl. lia.
  - destruct (c =? CR)%N; [|discriminate].
    destruct t as [|d t']; [discriminate|].
    destruct (d =? LF)%N; [|discriminate].
    intros [= <-]. simpl. lia.
Qed.

Lemma strip_newline_no_fence (s r : jsstring) :
  strip_newline s = Some r -> strip_prefix fence s = None.
Proof.
  unfold strip_newline. destruct s as [|c t]; [discriminate|].
  destruct (N.eqb_spec c LF) as [->|_]; [reflexivity|].
  destruct (N.eqb_spec c CR) as [->|_]; [reflexivity | discriminate].
Qed.

(** The end of the pattern, [(?:\r?\n)?```], at one position. *)
Lemma rmatch_closing (s : jsstring) (cap : option jsstring) :
  rmatch (RSeq (ROpt newline) (RLit fence REmpty)) (s, cap) =
  match close_here s with
  | Some r => [(r, cap)]
  | None => []
  end.
Proof.
  rewrite rmatch_seq, rmatch_opt, rmatch_newline.
  unfold close_here.
  destruct (strip_newline s) as [r|] eqn:Hnl.
  - cbn [filter]. unfold progress at 1. cbn [fst].
    apply strip_newline_shorter in Hnl as Hlt.
    apply Nat.ltb_lt in Hlt. rewrite Hlt.
    cbn [app flat_map]. rewrite !rmatch_RLit.
    rewrite (strip_newline_no_fence _ _ Hnl).
    destruct (strip_prefix fence r); reflexivity.
  - cbn [filter app flat_map]. rewrite rmatch_RLit.
    destruct (strip_prefix fence s); reflexivity.
Qed.

(** The lazy body stops at the first position where the pattern can end. *)
Lemma first_close (s pre : jsstring) :
  hd_error (flat_map (rmatch (RSeq (ROpt newline) (RLit fence REmpty)))
              (map (fun pr => (snd pr, Some (fst pr))) (lazy_splits pre s))) =
  match find_close s with
  | Some (body, r) => Some (r, Some (pre ++ body))
  | None => None
  end.
Proof.
  revert pre. induction s as [|c t IH]; intros pre.
  - cbn [lazy_splits map flat_map fst snd find_close]. rewrite rmatch_closing.
    destruct (close_here []); [rewrite !app_nil_r|]; reflexivity.
  - cbn [lazy_splits map flat_map fst snd find_close]. rewrite rmatch_closing.
    destruct (close_here (c :: t)) as [r|].
    + rewrite !app_nil_r. reflexivity.
    + cbn [app]. rewrite IH.
      destruct (find_close t) as [[body r]|]; [|reflexivity].
      rewrite <- app_assoc. reflexivity.
Qed.

Lemma hspace_not_newline (c : code_unit) (t : jsstring) :
  class_hspace c = true -> strip_newline (c :: t) = None.
Proof.
  unfold class_hspace, strip_newline. intros H.
  apply negb_true_iff in H. apply orb_false_iff in H as [H Hlf].
  apply orb_false_iff in H as [_ Hcr]. rewrite Hlf, Hcr. reflexivity.
Qed.

(** The whole pattern at one position: its first way to match is the
    block that starts there. *)
Lemma rmatch_mermaid (s : jsstring) :
  hd_error (rmatch mermaidRegex (s, None)) =
  match block_here s with
  | Some (body, r) => Some (r, Some body)
  | None => None
  end.
Proof.
  unfold mermaidRegex, block_here, open_fence. rewrite rmatch_RLit.
  destruct (strip_prefix opener s) as [r0|]; [|reflexivity].
  rewrite rmatch_seq, rmatch_star. cbn [fst].
  rewrite star_greedy_class by lia.
  rewrite after_greedy_class.
  - fold (skip_hspace r0). rewrite rmatch_seq, rmatch_newline.
    destruct (strip_newline (skip_hspace r0)) as [r1|]; [|reflexivity].
    rewrite flat_map_single, rmatch_seq, rmatch_body, first_close.
    destruct (find_close r1) as [[body r]|]; reflexivity.
  - intros c t Hc. rewrite rmatch_seq, rmatch_newline, (hspace_not_newline c t Hc).
    reflexivity.
Qed.

Lemma strip_prefix_Some (p s r : jsstring) :
  strip_prefix p s = Some r <-> s = p ++ r.
Proof.
  revert s. induction p as [|a p IH]; intros s; cbn [strip_prefix app].
  - split; [intros [= ->]; reflexivity | intros ->; reflexivity].
  - destruct s as [|b t].
    + split; discriminate.
    + destruct (N.eqb_spec b a) as [->|Hne].
      * rewrite IH. split; [intros ->; reflexivity | intros [= ->]; reflexivity].
      * split; [discriminate | intros [= E _]; contradiction].
Qed.

Lemma strip_newline_Some (s r : jsstring) :
  strip_newline s = Some r <-> s = LF :: r \/ s = CR :: LF :: r.
Proof.
  unfold strip_newline. destruct s as [|c t].
  - split; [discriminate | intros [|]; discriminate].
  - destruct (N.eqb_spec c LF) as [->|Hlf].
    + split; [intros [= ->]; now left | intros [[= ->]|[=]]; reflexivity].
    + destruct (N.eqb_spec c CR) as [->|Hcr].
      * destruct t as [|d t'].
        { split; [discriminate | intros [[=]|[=]]]. }
        destruct (N.eqb_spec d LF) as [->|Hd].
        { split; [intros [= ->]; now right | intros [[=]|[= ->]]; reflexivity]. }
        { split; [discriminate | intros [[=]|[= E _]]; contradiction]. }
      * split; [discriminate | intros [[= E _]|[= E _]]; contradiction].
Qed.

Lemma skip_while_length (p : code_unit -> bool) (s : jsstring) :
  length (skip_while p s) <= length s.
Proof.
  induction s as [|c t IH]; cbn [skip_while]; [lia|].
  destruct (p c); simpl; lia.
Qed.

Lemma close_here_length (s r : jsstring) :
  close_here s = Some r -> length r + 3 <= length s.
Proof.
  unfold close_here. destruct (strip_newline s) as [r1|] eqn:Hnl.
  - intros H. apply strip_prefix_Some in H. apply strip_newline_shorter in Hnl.
    subst r1. rewrite length_app in Hnl. simpl in Hnl. lia.
  - intros H. apply strip_prefix_Some in H. subst s. rewrite length_app. simpl. lia.
Qed.

Lemma find_close_length (s body r : jsstring) :
  find_close s = Some (body, r) -> length body + length r + 3 <= length s.
Proof.
  revert body. induction s as [|c t IH]; intros body; cbn [find_close].
  - destruct (close_here []) as [r'|] eqn:Hc; [|discriminate].
    intros [= <- <-]. apply close_here_length in Hc. simpl in *. lia.
  - destruct (close_here (c :: t)) as [r'|] eqn:Hc.
    + intros [= <- <-]. apply close_here_length in Hc. simpl in *. lia.
    + destruct (find_close t) as [[b r']|]; [|discriminate].
      intros [= <- <-]. specialize (IH b eq_refl). simpl. lia.
Qed.

(** A block is never empty: it holds both fences and a line break. *)
Lemma block_here_length (s body r : jsstring) :
  block_here s = Some (body, r) -> length body + length r + 14 <= length s.
Proof.
  unfold block_here, open_fence.
  destruct (strip_prefix opener s) as [r0|] eqn:H0; [|discriminate].
  destruct (strip_newline (skip_hspace r0)) as [r1|] eqn:H1; [|discriminate].
  intros H2. apply strip_prefix_Some in H0. apply strip_newline_shorter in H1.
  apply find_close_length in H2.
  pose proof (skip_while_length class_hspace r0) as H3. fold (skip_hspace r0) in H3.
  subst s. rewrite length_app. change (length opener) with 10. lia.
Qed.

Lemma match_here_mermaid (i : nat) (s : jsstring) :
  match_here mermaidRegex i s =
  match block_here s with
  | Some (body, r) => Some (mkMatch i (firstn (length s - length r) s) (Some body))
  | None => None
  end.
Proof.
  unfold match_here. pose proof (rmatch_mermaid s) as H.
  destruct (rmatch mermaidRegex (s, None)) as [|y l]; cbn [hd_error] in H.
  - destruct (block_here s) as [[body r]|]; [discriminate | reflexivity].
  - destruct (block_here s) as [[body r]|]; [|discriminate].
    injection H as ->. reflexivity.
Qed.

Lemma skip_while_split (p : code_unit -> bool) (s : jsstring) :
  exists ws, s = ws ++ skip_while p s /\ forallb p ws = true.
Proof.
  induction s as [|c t [ws [E F]]]; cbn [skip_while].
  - exists []. split; reflexivity.
  - destruct (p c) eqn:Hp.
    + exists (c :: ws). cbn [app forallb]. rewrite Hp, F, <- E. split; reflexivity.
    + exists []. split; reflexivity.
Qed.

Lemma close_here_Some (s r : jsstring) :
  close_here s = Some r <->
  s = fence ++ r \/ s = LF :: fence ++ r \/ s = CR :: LF :: fence ++ r.
Proof.
  unfold close_here. destruct (strip_newline s) as [r1|] eqn:Hnl.
  - rewrite strip_prefix_Some. apply strip_newline_Some in Hnl.
    destruct Hnl as [-> | ->]; split.
    + intros ->. right; left; reflexivity.
    + intros [[=] | [[= ->] | [=]]]. reflexivity.
    + intros ->. right; right; reflexivity.
    + intros [[=] | [[=] | [= ->]]]. reflexivity.
  - rewrite strip_prefix_Some. split; [intros ->; left; reflexivity|].
    intros [-> | [-> | ->]]; [reflexivity | discriminate | discriminate].
Qed.

Lemma find_close_split (s body r : jsstring) :
  find_close s = Some (body, r) ->
  exists cl, s = body ++ cl ++ r /\ close_here (cl ++ r) = Some r.
Proof.
  revert body. induction s as [|c t IH]; intros body; cbn [find_close].
  - destruct (close_here []) as [r'|] eqn:Hc; [|discriminate].
    apply close_here_length in Hc. simpl in Hc. lia.
  - destruct (close_here (c :: t)) as [r'|] eqn:Hc.
    + intros [= <- <-]. pose proof Hc as Hl. apply close_here_length in Hl.
      exists (firstn (length (c :: t) - length r') (c :: t)).
      assert (E : firstn (length (c :: t) - length r') (c :: t) ++ r' = c :: t).
      { apply close_here_Some in Hc.
        destruct Hc as [E | [E | E]]; rewrite E;
          rewrite ?app_comm_cons, length_app, Nat.add_sub, firstn_app, Nat.sub_diag, firstn_all;
          cbn [firstn]; rewrite app_nil_r; reflexivity. }
      cbn [app]. rewrite E. split; [reflexivity | exact Hc].
    + destruct (find_close t) as [[b r']|]; [|discriminate].
      intros [= <- <-]. destruct (IH b eq_refl) as [cl [E Hcl]].
      exists cl. cbn [app]. rewrite <- E. split; [reflexivity | exact Hcl].
Qed.

(** How a block is written. *)
Lemma block_here_Some (s body r : jsstring) :
  block_here s = Some (body, r) ->
  exists ws nl cl,
    s = opener ++ ws ++ nl ++ body ++ cl ++ r /\
    forallb class_hspace ws = true /\
    (nl = [LF] \/ nl = [CR; LF]) /\
    close_here (cl ++ r) = Some r.
Proof.
  unfold block_here, open_fence.
  destruct (strip_prefix opener s) as [r0|] eqn:H0; [|discriminate].
  destruct (strip_newline (skip_hspace r0)) as [r1|] eqn:H1; [|discriminate].
  intros H2. apply strip_prefix_Some in H0.
  destruct (skip_while_split class_hspace r0) as [ws [E F]]. fold (skip_hspace r0) in E.
  apply find_close_split in H2 as [cl [E2 Hcl]].
  apply strip_newline_Some in H1.
  destruct H1 as [H1 | H1].
  - exists ws, [LF], cl. subst s. rewrite E at 1. rewrite H1, E2.
    repeat split; auto.
  - exists ws, [CR; LF], cl. subst s. rewrite E at 1. rewrite H1, E2.
    repeat split; auto.
Qed.

Lemma block_here_suffix (s body r : jsstring) :
  block_here s = Some (body, r) -> skipn (length s - length r) s = r.
Proof.
  intros H. apply block_here_Some in H as [ws [nl [cl [E _]]]].
  rewrite E at 2. rewrite E at 1.
  rewrite !app_assoc. rewrite length_app, Nat.add_sub, skipn_app, Nat.sub_diag, skipn_all.
  reflexivity.
Qed.

Lemma skipn_cons_next {A : Type} (l : list A) :
  forall i c t, skipn i l = c :: t -> skipn (S i) l = t.
Proof.
  induction l as [|a l IH]; intros i c t H.
  - destruct i; discriminate.
  - destruct i as [|i].
    + injection H as _ ->. reflexivity.
    + cbn [skipn] in *. apply IH with c. exact H.
Qed.

Lemma find_block_eq (i : nat) (s : jsstring) :
  find_block i s =
  match block_here s with
  | Some (body, rest) => Some (mkBlock i (i + (length s - length rest)) body, rest)
  | None =>
      match s with
      | [] => None
      | _ :: t => find_block (S i) t
      end
  end.
Proof. destruct s; reflexivity. Qed.

(** [exec] finds the block the scanner finds. *)
Lemma exec_from_mermaid (text : jsstring) :
  forall s i, skipn i text = s ->
  exec_from mermaidRegex i s =
  match find_block i s with
  | Some (b, _) => Some (to_match b text)
  | None => None
  end.
Proof.
  induction s as [|c t IH]; intros i Hs; rewrite find_block_eq; cbn [exec_from];
    rewrite match_here_mermaid.
  - destruct (block_here []) as [[body r]|]; [|reflexivity].
    unfold to_match, block_start, block_end, block_body. cbv beta iota.
    rewrite Hs, Nat.add_comm, Nat.add_sub. reflexivity.
  - destruct (block_here (c :: t)) as [[body r]|].
    + unfold to_match, block_start, block_end, block_body. cbv beta iota.
      rewrite Hs, Nat.add_comm, Nat.add_sub. reflexivity.
    + apply IH. apply skipn_cons_next with c. exact Hs.
Qed.

Lemma find_block_bounds :
  forall s i b rest,
  find_block i s = Some (b, rest) ->
  i <= block_start b /\
  block_start b + 14 <= block_end b /\
  block_end b + length rest = i + length s.
Proof.
  induction s as [|c t IH]; intros i b rest; rewrite find_block_eq.
  - destruct (block_here []) as [[body r]|] eqn:Hb; [|discriminate].
    apply block_here_length in Hb. simpl in Hb. lia.
  - destruct (block_here (c :: t)) as [[body r]|] eqn:Hb.
    + pose proof (block_here_length _ _ _ Hb) as Hl.
      destruct b as [bs be bb]. intros H. injection H as E1 E2 E3 E4.
      assert (E : i + (length (c :: t) - length r) = be) by exact E2.
      cbn [block_start block_end]. subst rest. lia.
    + intros H. apply IH in H. cbn [length]. lia.
Qed.

Lemma find_block_rest (text : jsstring) :
  forall s i b rest, skipn i text = s ->
  find_block i s = Some (b, rest) ->
  skipn (block_end b) text = rest.
Proof.
  induction s as [|c t IH]; intros i b rest Hs; rewrite find_block_eq.
  - destruct (block_here []) as [[body r]|] eqn:Hb; [|discriminate].
    apply block_here_length in Hb. simpl in Hb. lia.
  - destruct (block_here (c :: t)) as [[body r]|] eqn:Hb.
    + destruct b as [bs be bb]. intros H. injection H as E1 E2 E3 E4.
      assert (E : i + (length (c :: t) - length r) = be) by exact E2.
      cbn [block_end]. subst rest. rewrite <- E.
      rewrite Nat.add_comm, <- skipn_skipn, Hs.
      apply block_here_suffix with body. exact Hb.
    + apply IH. apply skipn_cons_next with c. exact Hs.
Qed.

Lemma blocks_from_fuel :
  forall f1 f2 s i, length s <= f1 -> length s <= f2 ->
  blocks_from f1 i s = blocks_from f2 i s.
Proof.
  induction f1 as [|f1 IH]; intros f2 s i H1 H2.
  - destruct s; [|simpl in H1; lia]. destruct f2; reflexivity.
  - destruct f2 as [|f2].
    + destruct s; [|simpl in H2; lia]. reflexivity.
    + cbn [blocks_from].
      destruct (find_block i s) as [[b rest]|] eqn:Hb; [|reflexivity].
      f_equal. apply find_block_bounds in Hb. apply IH; lia.
Qed.

(** The iterator of [matchAll] never runs out of steps on this pattern,
    and lists the scanner's blocks. *)
Lemma matchAll_loop_mermaid (text : jsstring) :
  forall fuel i, i <= length text -> length text - i < fuel ->
  matchAll_loop fuel mermaidRegex text i =
  Some (map (fun b => to_match b text)
          (blocks_from (length text - i) i (skipn i text))).
Proof.
  induction fuel as [|f IH]; intros i Hi Hf; [lia|].
  cbn [matchAll_loop]. unfold exec.
  destruct (Nat.ltb_spec (length text) i) as [Hlt|_]; [lia|].
  rewrite (exec_from_mermaid text (skipn i text) i eq_refl).
  destruct (length text - i) as [|n] eqn:Hn.
  - assert (E : skipn i text = []) by (apply skipn_all2; lia).
    rewrite E. reflexivity.
  - cbn [blocks_from].
    destruct (find_block i (skipn i text)) as [[b rest]|] eqn:Hb; [|reflexivity].
    pose proof (find_block_bounds _ _ _ _ Hb) as (H1 & H2 & H3).
    pose proof (find_block_rest text _ _ _ _ eq_refl Hb) as H4.
    rewrite length_skipn in H3.
    assert (Hm : matched (to_match b text) <> []).
    { unfold to_match. cbn [matched]. intros E. apply (f_equal (@length N)) in E.
      rewrite length_firstn, length_skipn in E. simpl in E. lia. }
    destruct (matched (to_match b text)) as [|c m] eqn:Em; [contradiction|].
    clear Em Hm c m.
    assert (Ee : end_index (to_match b text) = block_end b).
    { unfold end_index, to_match. cbn [index matched].
      rewrite length_firstn, length_skipn. lia. }
    rewrite Ee, IH by lia.
    cbn [option_map map]. do 3 f_equal.
    rewrite H4. apply blocks_from_fuel; rewrite <- H4, length_skipn; lia.
Qed.

Lemma matchAll_mermaid (text : jsstring) :
  matchAll mermaidRegex text =
  Some (map (fun b => to_match b text) (fenced_blocks text)).
Proof.
  unfold matchAll, fenced_blocks.
  rewrite matchAll_loop_mermaid by lia.
  rewrite Nat.sub_0_r. reflexivity.
Qed.

Lemma exec_from_index (r : regex) :
  forall s i m, exec_from r i s = Some m -> i <= index m.
Proof.
  induction s as [|c t IH]; intros i m; cbn [exec_from]; unfold match_here;
    destruct (rmatch r _) as [|y l].
  - discriminate.
  - intros [= <-]. cbn [index]. lia.
  - intros H. apply IH in H. lia.
  - intros [= <-]. cbn [index]. lia.
Qed.

(** The iterator of [matchAll] ends on every pattern and every text. *)
Lemma matchAll_loop_total (r : regex) (text : jsstring) :
  forall fuel i, length text + 1 - i < fuel ->
  exists l, matchAll_loop fuel r text i = Some l.
Proof.
  induction fuel as [|f IH]; intros i Hf; [lia|].
  cbn [matchAll_loop]. unfold exec.
  destruct (Nat.ltb_spec (length text) i) as [Hlt|Hle].
  - exists []. reflexivity.
  - destruct (exec_from r i (skipn i text)) as [m|] eqn:He.
    + apply exec_from_index in He.
      destruct (IH (match matched m with [] => S (end_index m) | _ :: _ => end_index m end))
        as [l Hl].
      { unfold end_index. destruct (matched m); cbn [length]; lia. }
      rewrite Hl. exists (m :: l). reflexivity.
    + exists []. reflexivity.
Qed.

Lemma matchAll_total (r : regex) (text : jsstring) :
  exists l, matchAll r text = Some l.
Proof. apply matchAll_loop_total. lia. Qed.

Lemma to_match_end (b : Block) (text : jsstring) :
  block_start b <= block_end b -> block_end b <= length text ->
  end_index (to_match b text) = block_end b.
Proof.
  intros H1 H2. unfold end_index, to_match. cbn [index matched].
  rewrite length_firstn, length_skipn. lia.
Qed.

(** The loop of [_extractMermaidCodeAtLine] ends, at the first block
    that counts for the line. *)
Lemma atLine_loop_mermaid (document : TextDocument) (lineNumber : Z) :
  forall fuel i, i <= length (getText document) ->
  length (getText document) - i < fuel ->
  Panel.atLine_loop fuel document lineNumber i =
  Normal (option_map (fun b => JSON.stringify [trim (block_body b)])
            (find (hit document lineNumber)
               (blocks_from (length (getText document) - i) i
                  (skipn i (getText document))))).
Proof.
  set (text := getText document).
  induction fuel as [|f IH]; intros i Hi Hf; [lia|].
  cbn [Panel.atLine_loop]. fold text. unfold exec.
  destruct (Nat.ltb_spec (length text) i) as [Hlt|_]; [lia|].
  rewrite (exec_from_mermaid text (skipn i text) i eq_refl).
  destruct (length text - i) as [|n] eqn:Hn.
  - assert (E : skipn i text = []) by (apply skipn_all2; lia).
    rewrite E. reflexivity.
  - cbn [blocks_from].
    destruct (find_block i (skipn i text)) as [[b rest]|] eqn:Hb; [|reflexivity].
    pose proof (find_block_bounds _ _ _ _ Hb) as (H1 & H2 & H3).
    pose proof (find_block_rest text _ _ _ _ eq_refl Hb) as H4.
    rewrite length_skipn in H3.
    assert (Ee : end_index (to_match b text) = block_end b)
      by (apply to_match_end; lia).
    fold (end_index (to_match b text)). rewrite Ee.
    assert (Hrec : Panel.atLine_loop f document lineNumber (block_end b) =
      Normal (option_map (fun b => JSON.stringify [trim (block_body b)])
                (find (hit document lineNumber) (blocks_from n (block_end b) rest)))).
    { rewrite IH by lia. do 3 f_equal. fold text. rewrite H4.
      apply blocks_from_fuel; rewrite <- H4, length_skipn; lia. }
    cbn [find]. unfold hit at 1, spans.
    change (index (to_match b text)) with (block_start b).
    destruct ((_ <=? _)%Z && (_ <=? _)%Z); cbn [andb]; [|exact Hrec].
    unfold Panel.trimmed_group. cbn [group1 to_match].
    destruct (Panel.nonempty (trim (block_body b))); [reflexivity | exact Hrec].
Qed.

End RegexFacts.

(** ** Extraction of the diagrams *)

Section Extraction.
Import Scanner RegexFacts.

Lemma trimmed_groups (text : jsstring) (bs : list Block) :
  Panel.map_completion Panel.trimmed_group (map (fun b => to_match b text) bs) =
  Normal (map (fun b => trim (block_body b)) bs).
Proof.
  induction bs as [|b bs IH]; [reflexivity|].
  cbn [map Panel.map_completion]. rewrite IH. reflexivity.
Qed.

(** What [_extractMermaidCode] answers and what it leaves behind: the
    diagrams of the text, and a longer log. *)
Lemma extractMermaidCode_run (document : TextDocument) (w : Panel.World) :
  exists w',
    Panel._extractMermaidCode document w =
      (Normal (match diagrams (getText document) with
               | [] => None
               | _ :: _ => Some (JSON.stringify (diagrams (getText document)))
               end), w') /\
    Panel.same_but_log w w'.
Proof.
  unfold Panel._extractMermaidCode, diagrams.
  set (text := getText document).
  unfold Panel.bind at 1. cbn [Panel.logDebug].
  unfold Panel.bind at 1. unfold Panel.lift at 1.
  rewrite matchAll_mermaid. cbn [Panel.of_option].
  unfold Panel.bind at 1. cbn [Panel.logDebug].
  rewrite length_map.
  destruct (fenced_blocks text) as [|b bs] eqn:Hbs.
  - cbn [length Nat.eqb].
    unfold Panel.bind at 1. cbn [Panel.logDebug].
    unfold Panel.bind at 1. unfold Panel.lift at 1.
    destruct (matchAll_total simpleRegex text) as [l Hl]. rewrite Hl.
    cbn [Panel.of_option]. unfold Panel.bind, Panel.ret. cbn [Panel.logDebug map filter].
    eexists. split; [reflexivity|].
    unfold Panel.same_but_log. cbn. tauto.
  - cbn [length Nat.eqb].
    unfold Panel.bind at 1. unfold Panel.lift at 1.
    rewrite trimmed_groups.
    unfold Panel.bind at 1. cbn [Panel.logDebug].
    set (ds := filter Panel.nonempty (map (fun b => trim (block_body b)) (b :: bs))).
    destruct ds as [|d ds'] eqn:Hds.
    + cbn [length Nat.eqb]. unfold Panel.ret.
      eexists. split; [reflexivity|].
      unfold Panel.same_but_log. cbn. tauto.
    + cbn [length Nat.eqb]. unfold Panel.ret.
      eexists. split; [reflexivity|].
      unfold Panel.same_but_log. cbn. tauto.
Qed.

Lemma nonempty_false (s : jsstring) : Panel.nonempty s = false <-> s = [].
Proof.
  unfold Panel.nonempty. destruct s; cbn; split; congruence.
Qed.

Lemma diagrams_nil (text : jsstring) :
  diagrams text = [] <->
  Forall (fun b => trim (block_body b) = []) (fenced_blocks text).
Proof.
  unfold diagrams. induction (fenced_blocks text) as [|b bs IH]; cbn [map filter].
  - split; [constructor | reflexivity].
  - destruct (Panel.nonempty (trim (block_body b))) eqn:Hn.
    + split; [discriminate|]. intros H. inversion H as [|? ? Hb _]; subst.
      apply nonempty_false in Hb. congruence.
    + rewrite IH. apply nonempty_false in Hn. split.
      * intros H. constructor; assumption.
      * intros H. inversion H; assumption.
Qed.

End Extraction.

(** C1. For every document text, [_extractMermaidCode] returns the
    JSON-encoded array of the trimmed bodies of all the fenced mermaid
    blocks of the text, in document order, keeping the bodies that are
    not empty after trimming; it returns null exactly when there is no
    fenced block or every block's trimmed body is empty. The fenced
    blocks are those a reading of the text from left to right finds, and
    they are the matches of the pattern. *)
Theorem extractMermaidCode_all_diagrams (document : TextDocument) (w : Panel.World) :
  let blocks := Scanner.fenced_blocks (getText document) in
  let ds := filter Panel.nonempty (map (fun b => trim (Scanner.block_body b)) blocks) in
  matchAll mermaidRegex (getText document) =
    Some (map (fun b => Scanner.to_match b (getText document)) blocks) /\
  fst (Panel._extractMermaidCode document w) =
    Normal (match ds with
            | [] => None
            | _ :: _ => Some (JSON.stringify ds)
            end) /\
  (fst (Panel._extractMermaidCode document w) = Normal None <->
   blocks = [] \/ Forall (fun b => trim (Scanner.block_body b) = []) blocks).
Proof.
  intros blocks ds.
  destruct (extractMermaidCode_run document w) as [w' [Hrun _]].
  rewrite Hrun. cbn [fst]. fold ds. unfold Scanner.diagrams. fold blocks. fold ds.
  split; [apply RegexFacts.matchAll_mermaid|].
  split; [reflexivity|].
  pose proof (diagrams_nil (getText document)) as Hnil.
  unfold Scanner.diagrams in Hnil. fold blocks in Hnil. fold ds in Hnil.
  split.
  - intros H. right. apply Hnil. destruct ds; [reflexivity | discriminate].
  - intros [H | H].
    + assert (E : ds = []) by (unfold ds; rewrite H; reflexivity).
      rewrite E. reflexivity.
    + apply Hnil in H. rewrite H. reflexivity.
Qed.

Lemma extractMermaidCodeAtLine_run
  (document : TextDocument) (lineNumber : Z) (w : Panel.World) :
  Panel._extractMermaidCodeAtLine document lineNumber w =
  (Normal (option_map (fun b => JSON.stringify [trim (Scanner.block_body b)])
             (find (Scanner.hit document lineNumber)
                (Scanner.fenced_blocks (getText document)))), w).
Proof.
  unfold Panel._extractMermaidCodeAtLine, Panel.lift.
  rewrite RegexFacts.atLine_loop_mermaid by (cbn [length]; lia).
  rewrite Nat.sub_0_r. reflexivity.
Qed.

(** C6. For every document and line number, [_extractMermaidCodeAtLine]
    returns the JSON array of one diagram, the trimmed body of a fenced
    block whose lines, from its opening fence to its closing fence,
    contain the line and whose trimmed body is not empty (the first such
    block of the text), and returns null when no such block contains the
    line. *)
Theorem extractMermaidCodeAtLine_block_at_line
  (document : TextDocument) (lineNumber : Z) (w : Panel.World) :
  let blocks := Scanner.fenced_blocks (getText document) in
  exists result,
    Panel._extractMermaidCodeAtLine document lineNumber w = (Normal result, w) /\
    result = option_map (fun b => JSON.stringify [trim (Scanner.block_body b)])
               (find (Scanner.hit document lineNumber) blocks) /\
    match result with
    | Some json =>
        exists b, In b blocks /\
          Scanner.spans document b lineNumber = true /\
          trim (Scanner.block_body b) <> [] /\
          json = JSON.stringify [trim (Scanner.block_body b)]
    | None =>
        forall b, In b blocks ->
          Scanner.spans document b lineNumber = true ->
          trim (Scanner.block_body b) = []
    end.
Proof.
  intros blocks. rewrite extractMermaidCodeAtLine_run. fold blocks.
  eexists. split; [reflexivity|]. split; [reflexivity|].
  destruct (find (Scanner.hit document lineNumber) blocks) as [b|] eqn:Hf; cbn [option_map].
  - apply find_some in Hf as [Hin Hhit].
    unfold Scanner.hit in Hhit. apply andb_true_iff in Hhit as [Hs Hn].
    exists b. repeat split; try assumption.
    intros E. rewrite E in Hn. discriminate.
  - intros b Hin Hs.
    pose proof (find_none _ _ Hf b Hin) as Hhit.
    unfold Scanner.hit in Hhit. rewrite Hs in Hhit. cbn [andb] in Hhit.
    apply nonempty_false. exact Hhit.
Qed.

(** C8. The two extractions are functions of their inputs: the answer of
    [_extractMermaidCode] is fixed by the text of the document, and the
    answer of [_extractMermaidCodeAtLine] by the document and the line,
    whatever the state of the panel; neither changes the mode, the single
    line, the current document or the page of the panel ([_extractMermaidCode]
    writes to the log, [_extractMermaidCodeAtLine] changes nothing). *)
Theorem extraction_is_pure
  (document : TextDocument) (lineNumber : Z) (w w' : Panel.World)
  (positions : nat -> nat) :
  fst (Panel._extractMermaidCode document w) =
    fst (Panel._extractMermaidCode (mkDocument (getText document) positions) w') /\
  fst (Panel._extractMermaidCodeAtLine document lineNumber w) =
    fst (Panel._extractMermaidCodeAtLine document lineNumber w') /\
  Panel.same_but_log w (snd (Panel._extractMermaidCode document w)) /\
  snd (Panel._extractMermaidCodeAtLine document lineNumber w) = w.
Proof.
  destruct (extractMermaidCode_run document w) as [w1 [H1 F1]].
  destruct (extractMermaidCode_run (mkDocument (getText document) positions) w')
    as [w2 [H2 _]].
  rewrite H1, H2. cbn [fst snd getText].
  repeat split; try reflexivity; apply F1.
Qed.

(** ** What a render changes *)

Module PanelFacts.
Import Panel.

Ltac frame :=
  unfold same_but_page, same_but_log in *; cbn [_mode _singleLine _currentDocument
    _updateTimeout html html_writes timers next_timer logger config activeColorTheme
    fst snd] in *;
  intuition congruence.

Lemma set_html_renders (h : Html) (w w0 : World) :
  same_but_log w0 w ->
  exists w', set_html h w = (Normal tt, w') /\
    same_but_page w0 w' /\ html_writes w' = S (html_writes w0).
Proof. intros H. unfold set_html. eexists. split; [reflexivity|]. split; frame. Qed.

Lemma show_diagrams_renders (code : jsstring) (o : option string) (w w0 : World) :
  same_but_log w0 w ->
  exists w', show_diagrams code o w = (Normal tt, w') /\
    same_but_page w0 w' /\ html_writes w' = S (html_writes w0).
Proof.
  intros H. unfold show_diagrams, bind, _resolveTheme. apply set_html_renders. exact H.
Qed.

Lemma same_but_log_refl (w : World) : same_but_log w w.
Proof. frame. Qed.

Lemma renderAll_renders (o : option string) (w : World) : renders_once (_renderAll o) w.
Proof.
  unfold renders_once, _renderAll, bind at 1, get.
  destruct (_currentDocument w) as [document|].
  - unfold bind.
    destruct (extractMermaidCode_run document w) as [w' [Hrun Hlog]]. rewrite Hrun.
    destruct (found _).
    + apply show_diagrams_renders. exact Hlog.
    + apply set_html_renders. exact Hlog.
  - apply set_html_renders. apply same_but_log_refl.
Qed.

Lemma renderSingle_renders (l : Z) (o : option string) (w : World) :
  renders_once (_renderSingle l o) w.
Proof.
  unfold renders_once, _renderSingle, bind at 1, get.
  destruct (_currentDocument w) as [document|].
  - unfold bind. rewrite extractMermaidCodeAtLine_run.
    destruct (found _).
    + apply show_diagrams_renders. apply same_but_log_refl.
    + apply set_html_renders. apply same_but_log_refl.
  - apply set_html_renders. apply same_but_log_refl.
Qed.

Lemma render_renders (o : option string) (w : World) : renders_once (_render o) w.
Proof.
  unfold _render, renders_once, bind, get.
  destruct (_mode w), (_singleLine w);
    first [apply renderAll_renders | apply renderSingle_renders].
Qed.

Lemma update_renders (o : option string) (w : World) : renders_once (Legacy._update o) w.
Proof.
  unfold renders_once, Legacy._update, bind at 1, get.
  destruct (_currentDocument w) as [document|].
  - unfold bind.
    destruct (extractMermaidCode_run document w) as [w' [Hrun Hlog]]. rewrite Hrun.
    destruct (found _).
    + apply set_html_renders. exact Hlog.
    + apply set_html_renders. exact Hlog.
  - apply set_html_renders. apply same_but_log_refl.
Qed.

Lemma switchToAllMode_spec (d : TextDocument) (w : World) :
  exists w', _switchToAllMode d w = (Normal tt, w') /\
    _mode w' = all /\ _singleLine w' = None /\ _currentDocument w' = Some d /\
    timers w' = timers w /\ _updateTimeout w' = _updateTimeout w /\
    next_timer w' = next_timer w /\ config w' = config w /\
    activeColorTheme w' = activeColorTheme w /\
    html_writes w' = S (html_writes w).
Proof.
  unfold _switchToAllMode, _setMode, bind, set_currentDocument, set_mode.
  match goal with |- context [_render None ?w0] =>
    destruct (render_renders None w0) as [w' [Hrun [Hf Hw]]] end.
  rewrite Hrun. exists w'. split; [reflexivity|]. frame.
Qed.

Lemma switchToSingleMode_spec (d : TextDocument) (l : Z) (w : World) :
  exists w', _switchToSingleMode d l w = (Normal tt, w') /\
    _mode w' = single /\ _singleLine w' = Some l /\ _currentDocument w' = Some d /\
    timers w' = timers w /\ _updateTimeout w' = _updateTimeout w /\
    next_timer w' = next_timer w /\ config w' = config w /\
    activeColorTheme w' = activeColorTheme w /\
    html_writes w' = S (html_writes w).
Proof.
  unfold _switchToSingleMode, _setMode, bind, set_currentDocument, set_mode.
  match goal with |- context [_renderSingle l None ?w0] =>
    destruct (renderSingle_renders l None w0) as [w' [Hrun [Hf Hw]]] end.
  rewrite Hrun. exists w'. split; [reflexivity|]. frame.
Qed.

(** [updateContent] in mode [single]: the document is recorded, nothing
    else moves. *)
Lemma updateContent_single (d : TextDocument) (w : World) :
  _mode w = single ->
  updateContent d w =
  (Normal tt,
   mkWorld (_mode w) (_singleLine w) (Some d) (_updateTimeout w) (html w)
     (html_writes w) (timers w) (next_timer w) (logger w) (config w)
     (activeColorTheme w)).
Proof.
  intros Hm. unfold updateContent, bind, set_currentDocument, get. cbn [_mode].
  rewrite Hm. reflexivity.
Qed.

(** [updateContent] in mode [all]: the pending timer, if any, is
    cleared, and one is set with the configured delay. *)
Lemma updateContent_all (d : TextDocument) (w : World) :
  _mode w = all ->
  updateContent d w =
  (Normal tt,
   mkWorld (_mode w) (_singleLine w) (Some d) (Some (next_timer w)) (html w)
     (html_writes w)
     (match _updateTimeout w with
      | Some id => filter (fun t => negb (fst t =? id)) (timers w)
      | None => timers w
      end ++ [(next_timer w, config_get (cfg_refreshDelay (config w)) 500%Z)])
     (S (next_timer w)) (logger w) (config w) (activeColorTheme w)).
Proof.
  intros Hm. unfold updateContent, bind, set_currentDocument, get. cbn [_mode].
  rewrite Hm. cbn [_updateTimeout].
  destruct (_updateTimeout w); reflexivity.
Qed.

Lemma timer_inv_cleared (w : World) :
  timer_inv w ->
  match _updateTimeout w with
  | Some id => filter (fun t => negb (fst t =? id)) (timers w)
  | None => timers w
  end = [].
Proof.
  intros [H | [id [delay [Ht [Hu _]]]]].
  - rewrite H. destruct (_updateTimeout w); reflexivity.
  - rewrite Hu, Ht. cbn [filter fst]. rewrite Nat.eqb_refl. reflexivity.
Qed.

Lemma fire_spec (id : TimerId) (w : World) :
  timer_inv w ->
  exists w', fire id w = (Normal tt, w') /\
    _mode w' = _mode w /\ _singleLine w' = _singleLine w /\
    _currentDocument w' = _currentDocument w /\
    _updateTimeout w' = _updateTimeout w /\
    next_timer w' = next_timer w /\ config w' = config w /\
    activeColorTheme w' = activeColorTheme w /\
    (if is_pending id w
     then timers w' = [] /\ html_writes w' = S (html_writes w)
     else w' = w).
Proof.
  intros Hinv. unfold fire.
  destruct (is_pending id w) eqn:Hp.
  - unfold bind, clearTimeout.
    match goal with |- context [_render None ?w0] =>
      destruct (render_renders None w0) as [w' [Hrun [Hf Hw]]] end.
    rewrite Hrun. exists w'. split; [reflexivity|].
    assert (Ht : timers w' = []).
    { destruct Hf as (_ & _ & _ & _ & Ht & _). rewrite Ht. cbn [timers].
      unfold is_pending in Hp.
      destruct Hinv as [H | [id' [delay [H [Hu _]]]]]; rewrite H in *.
      - reflexivity.
      - cbn [existsb fst orb] in Hp. rewrite orb_false_r in Hp.
        cbn [filter fst]. rewrite Hp. reflexivity. }
    frame.
  - exists w. repeat split; reflexivity.
Qed.

Lemma handle_inv (e : Event) (w : World) :
  mode_inv w -> timer_inv w -> mode_inv (handle e w) /\ timer_inv (handle e w).
Proof.
  intros Hm Ht. unfold mode_inv, timer_inv in *.
  destruct e as [d | d | d l | id | t | | cfg | kind]; cbn [handle].
  - destruct (switchToAllMode_spec d w) as [w' [Hrun H]]. rewrite Hrun. cbn [snd].
    destruct H as (H1 & H2 & _ & H4 & H5 & H6 & _). rewrite H1, H2, H4, H5, H6.
    split; [reflexivity | exact Ht].
  - destruct (_mode w) eqn:Hmode.
    + rewrite updateContent_all by exact Hmode. cbn [snd _mode _singleLine timers
        _updateTimeout next_timer]. rewrite Hmode.
      rewrite (timer_inv_cleared w Ht). cbn [app].
      split; [exact Hm|]. right. eexists. eexists. repeat split. lia.
    + rewrite updateContent_single by exact Hmode. cbn [snd _mode _singleLine timers
        _updateTimeout next_timer]. rewrite Hmode. split; assumption.
  - unfold updateContentAtLine.
    destruct (switchToSingleMode_spec d l w) as [w' [Hrun H]]. rewrite Hrun. cbn [snd].
    destruct H as (H1 & H2 & _ & H4 & H5 & H6 & _). rewrite H1, H2, H4, H5, H6.
    split; [exists l; reflexivity | exact Ht].
  - destruct (fire_spec id w Ht) as [w' [Hrun H]]. rewrite Hrun. cbn [snd].
    destruct H as (H1 & H2 & _ & H4 & H5 & _ & _ & H8). rewrite H1, H2, H4, H5.
    split; [exact Hm|].
    destruct (is_pending id w).
    + left. apply H8.
    + rewrite H8. exact Ht.
  - unfold _handleThemeChange.
    destruct (render_renders t w) as [w' [Hrun [Hf _]]]. rewrite Hrun. cbn [snd].
    destruct Hf as (H1 & H2 & _ & H4 & H5 & H6 & _). rewrite H1, H2, H4, H5, H6.
    split; assumption.
  - unfold refreshAppearance, bind, get.
    destruct (_currentDocument w).
    + destruct (render_renders None w) as [w' [Hrun [Hf _]]]. rewrite Hrun. cbn [snd].
      destruct Hf as (H1 & H2 & _ & H4 & H5 & H6 & _). rewrite H1, H2, H4, H5, H6.
      split; assumption.
    + split; assumption.
  - split; assumption.
  - split; assumption.
Qed.

Lemma created_inv (cfg : Configuration) (kind : ColorThemeKind) (log : list LogEntry)
  (document : TextDocument) (at_line : option Z) :
  mode_inv (created cfg kind log document at_line) /\
  timer_inv (created cfg kind log document at_line).
Proof.
  unfold created, createOrShow, createOrShowSingle, construct.
  destruct at_line as [l|];
    match goal with |- context [_render None ?w0] =>
      destruct (render_renders None w0) as [w' [Hrun [Hf _]]] end;
    rewrite Hrun; cbn [snd];
    destruct Hf as (H1 & H2 & _ & H4 & H5 & H6 & _);
    unfold mode_inv, timer_inv; rewrite H1, H2, H5; cbn [_mode _singleLine timers].
  - split; [exists l; reflexivity | left; reflexivity].
  - split; [reflexivity | left; reflexivity].
Qed.

Lemma run_events_inv (es : list Event) :
  forall w, mode_inv w -> timer_inv w ->
  mode_inv (run_events es w) /\ timer_inv (run_events es w).
Proof.
  induction es as [|e es IH]; intros w Hm Ht; cbn [run_events fold_left].
  - split; assumption.
  - destruct (handle_inv e w Hm Ht) as [Hm' Ht']. apply IH; assumption.
Qed.

Lemma reachable_inv (cfg : Configuration) (kind : ColorThemeKind) (log : list LogEntry)
  (document : TextDocument) (at_line : option Z) (es : list Event) :
  mode_inv (run_events es (created cfg kind log document at_line)) /\
  timer_inv (run_events es (created cfg kind log document at_line)).
Proof.
  destruct (created_inv cfg kind log document at_line) as [Hm Ht].
  apply run_events_inv; assumption.
Qed.

End PanelFacts.

(** ** The panel's modes and its debounced refresh *)

Section PanelClaims.
Import Panel PanelFacts.

Lemma last_cons_default {A : Type} (l : list A) :
  forall x d, last (x :: l) d = last l x.
Proof.
  induction l as [|y l IH]; intros x d; [reflexivity|].
  change (last (x :: y :: l) d) with (last (y :: l) d).
  rewrite (IH y d), (IH y x). reflexivity.
Qed.

Section Debounce.

Variable edit : TextDocument -> World -> World.
Variable fire : TimerId -> World -> World.
Variable P : World -> Prop.

Hypothesis edit_eq : forall d w, P w -> timer_inv w ->
  edit d w =
  mkWorld (_mode w) (_singleLine w) (Some d) (Some (next_timer w)) (html w)
    (html_writes w)
    [(next_timer w, config_get (cfg_refreshDelay (config w)) 500%Z)]
    (S (next_timer w)) (logger w) (config w) (activeColorTheme w).

Hypothesis P_edit : forall d w, P w -> timer_inv w -> P (edit d w).

Hypothesis fire_pending : forall id w, timer_inv w -> is_pending id w = true ->
  timers (fire id w) = [] /\
  html_writes (fire id w) = S (html_writes w) /\
  _currentDocument (fire id w) = _currentDocument w.

Lemma timer_inv_edit (d : TextDocument) (w : World) :
  P w -> timer_inv w -> timer_inv (edit d w).
Proof.
  intros HP Ht. rewrite edit_eq by assumption.
  right. eexists. eexists. cbn. repeat split. lia.
Qed.

(** A burst of edits leaves one timer, the last one set, and no render. *)
Lemma burst_of_edits (ds : list TextDocument) :
  forall (d : TextDocument) (w : World),
  P w -> timer_inv w ->
  let w' := fold_left (fun w d => edit d w) (d :: ds) w in
  timers w' =
    [(next_timer w + length ds, config_get (cfg_refreshDelay (config w)) 500%Z)] /\
  _currentDocument w' = Some (last ds d) /\
  timer_inv w' /\
  html w' = html w /\ html_writes w' = html_writes w.
Proof.
  induction ds as [|d' ds IH]; intros d w HP Ht.
  - cbn [fold_left length last]. cbn zeta.
    split; [|split; [|split; [apply timer_inv_edit; assumption|]]];
      rewrite edit_eq by assumption; cbn; rewrite ?Nat.add_0_r; auto.
  - cbn [fold_left]. cbn zeta.
    specialize (IH d' (edit d w) (P_edit d w HP Ht) (timer_inv_edit d w HP Ht)).
    cbn [fold_left] in IH. cbn zeta in IH.
    destruct IH as (H1 & H2 & H3 & H4 & H5).
    assert (E : next_timer (edit d w) = S (next_timer w) /\
                config (edit d w) = config w /\
                html (edit d w) = html w /\
                html_writes (edit d w) = html_writes w)
      by (rewrite (edit_eq d w HP Ht); repeat split; reflexivity).
    destruct E as (E1 & E2 & E3 & E4). rewrite E1, E2 in H1. rewrite E3 in H4.
    rewrite E4 in H5.
    cbn [length]. rewrite last_cons_default.
    replace (next_timer w + S (length ds)) with (S (next_timer w) + length ds) by lia.
    repeat split; assumption.
Qed.

Lemma debounces_holds (w : World) : P w -> timer_inv w -> debounces edit fire w.
Proof.
  intros HP Ht. unfold debounces. cbn zeta. split; [|split].
  - destruct Ht as [H | [id [delay [H _]]]]; rewrite H; cbn [length]; lia.
  - intros d. rewrite (edit_eq d w HP Ht). cbn.
    repeat split; try reflexivity.
    intros t Hin [E | []]. subst t.
    destruct Ht as [H | [id [delay [H [_ Hlt]]]]]; rewrite H in Hin.
    + destruct Hin.
    + destruct Hin as [E | []]. injection E as E _. lia.
  - intros d ds.
    destruct (burst_of_edits ds d w HP Ht) as (H1 & H2 & H3 & H4 & H5).
    eexists. split; [exact H1|]. split; [exact H4|]. split; [exact H5|].
    match goal with |- context [fire ?id ?w2] =>
      destruct (fire_pending id w2 H3) as (F1 & F2 & F3) end.
    { unfold is_pending. rewrite H1. cbn [existsb fst]. rewrite Nat.eqb_refl. reflexivity. }
    rewrite F1, F2, F3, H5, H2. repeat split; reflexivity.
Qed.

End Debounce.

Lemma edit_in_all (d : TextDocument) (w : World) :
  _mode w = all -> timer_inv w ->
  handle (DocumentEdited d) w =
  mkWorld (_mode w) (_singleLine w) (Some d) (Some (next_timer w)) (html w)
    (html_writes w)
    [(next_timer w, config_get (cfg_refreshDelay (config w)) 500%Z)]
    (S (next_timer w)) (logger w) (config w) (activeColorTheme w).
Proof.
  intros Hm Ht. cbn [handle]. rewrite updateContent_all by exact Hm.
  rewrite (timer_inv_cleared w Ht). reflexivity.
Qed.

Lemma fire_when_pending (id : TimerId) (w : World) :
  timer_inv w -> is_pending id w = true ->
  timers (handle (TimerFires id) w) = [] /\
  html_writes (handle (TimerFires id) w) = S (html_writes w) /\
  _currentDocument (handle (TimerFires id) w) = _currentDocument w.
Proof.
  intros Ht Hp. cbn [handle].
  destruct (fire_spec id w Ht) as [w' [Hrun H]]. rewrite Hrun. cbn [snd].
  rewrite Hp in H. destruct H as (_ & _ & H3 & _ & _ & _ & _ & H8 & H9).
  repeat split; assumption.
Qed.

Lemma debounces_panel (w : World) :
  _mode w = all -> timer_inv w ->
  debounces (fun d => handle (DocumentEdited d)) (fun id => handle (TimerFires id)) w.
Proof.
  apply (debounces_holds (fun d => handle (DocumentEdited d))
           (fun id => handle (TimerFires id)) (fun w => _mode w = all)).
  - intros d w0. apply edit_in_all.
  - intros d w0 Hm Ht. rewrite edit_in_all by assumption. exact Hm.
  - apply fire_when_pending.
Qed.

Lemma legacy_edit (d : TextDocument) (w : World) :
  timer_inv w ->
  Legacy.handle (Legacy.DocumentEdited d) w =
  mkWorld (_mode w) (_singleLine w) (Some d) (Some (next_timer w)) (html w)
    (html_writes w)
    [(next_timer w, config_get (cfg_refreshDelay (config w)) 500%Z)]
    (S (next_timer w)) (logger w) (config w) (activeColorTheme w).
Proof.
  intros Ht. cbn [Legacy.handle].
  unfold Legacy.updateContent, bind, set_currentDocument, get. cbn [_updateTimeout].
  pose proof (timer_inv_cleared w Ht) as Hc.
  destruct (_updateTimeout w); cbn [clearTimeout setTimeout_render snd timers
    next_timer config _mode _singleLine _currentDocument _updateTimeout html
    html_writes logger activeColorTheme ret]; rewrite Hc; reflexivity.
Qed.

Lemma legacy_fire_spec (id : TimerId) (w : World) :
  timer_inv w ->
  exists w', Legacy.fire id w = (Normal tt, w') /\
    _updateTimeout w' = _updateTimeout w /\
    next_timer w' = next_timer w /\
    _currentDocument w' = _currentDocument w /\
    (if is_pending id w
     then timers w' = [] /\ html_writes w' = S (html_writes w)
     else w' = w).
Proof.
  intros Hinv. unfold Legacy.fire.
  destruct (is_pending id w) eqn:Hp.
  - unfold bind, clearTimeout.
    match goal with |- context [Legacy._update None ?w0] =>
      destruct (update_renders None w0) as [w' [Hrun [Hf Hw]]] end.
    rewrite Hrun. exists w'. split; [reflexivity|].
    assert (Ht : timers w' = []).
    { destruct Hf as (_ & _ & _ & _ & Ht & _). rewrite Ht. cbn [timers].
      unfold is_pending in Hp.
      destruct Hinv as [H | [id' [delay [H [Hu _]]]]]; rewrite H in *.
      - reflexivity.
      - cbn [existsb fst orb] in Hp. rewrite orb_false_r in Hp.
        cbn [filter fst]. rewrite Hp. reflexivity. }
    frame.
  - exists w. repeat split; reflexivity.
Qed.

Lemma legacy_fire_when_pending (id : TimerId) (w : World) :
  timer_inv w -> is_pending id w = true ->
  timers (Legacy.handle (Legacy.TimerFires id) w) = [] /\
  html_writes (Legacy.handle (Legacy.TimerFires id) w) = S (html_writes w) /\
  _currentDocument (Legacy.handle (Legacy.TimerFires id) w) = _currentDocument w.
Proof.
  intros Ht Hp. cbn [Legacy.handle].
  destruct (legacy_fire_spec id w Ht) as [w' [Hrun H]]. rewrite Hrun. cbn [snd].
  rewrite Hp in H. destruct H as (_ & _ & H3 & H8 & H9).
  repeat split; assumption.
Qed.

Lemma same_but_page_timer_inv (w w' : World) :
  same_but_page w w' -> timer_inv w -> timer_inv w'.
Proof.
  intros (_ & _ & _ & H4 & H5 & H6 & _). unfold timer_inv. rewrite H4, H5, H6. tauto.
Qed.

Lemma legacy_handle_inv (e : Legacy.Event) (w : World) :
  timer_inv w -> timer_inv (Legacy.handle e w).
Proof.
  intros Ht. destruct e as [d | d l | id | t | cfg | kind].
  - rewrite legacy_edit by exact Ht. right. eexists. eexists. cbn. repeat split. lia.
  - cbn [Legacy.handle]. unfold Legacy.updateContentAtLine, bind, set_currentDocument.
    rewrite extractMermaidCodeAtLine_run.
    match goal with |- context [found ?c] => destruct (found c) end; unfold get;
      match goal with |- context [set_html ?h ?w0] =>
        destruct (set_html_renders h w0 w0 (same_but_log_refl w0)) as [w' [Hrun [Hf _]]]
      end; rewrite Hrun; cbn [snd];
      apply (same_but_page_timer_inv _ _ Hf); exact Ht.
  - cbn [Legacy.handle].
    destruct (legacy_fire_spec id w Ht) as [w' [Hrun H]]. rewrite Hrun. cbn [snd].
    destruct H as (H1 & H2 & _ & H4). unfold timer_inv. rewrite H1, H2.
    destruct (is_pending id w).
    + left. apply H4.
    + rewrite H4. exact Ht.
  - cbn [Legacy.handle].
    destruct (update_renders t w) as [w' [Hrun [Hf _]]]. rewrite Hrun. cbn [snd].
    apply (same_but_page_timer_inv _ _ Hf). exact Ht.
  - exact Ht.
  - exact Ht.
Qed.

Lemma legacy_reachable_inv (cfg : Configuration) (kind : ColorThemeKind)
  (log : list LogEntry) (document : TextDocument) (es : list Legacy.Event) :
  timer_inv (Legacy.run_events es (Legacy.construct cfg kind log document)).
Proof.
  unfold Legacy.run_events.
  assert (H0 : timer_inv (Legacy.construct cfg kind log document)).
  { unfold Legacy.construct.
    match goal with |- context [Legacy._update None ?w0] =>
      destruct (update_renders None w0) as [w' [Hrun [Hf _]]] end.
    rewrite Hrun. cbn [snd]. apply (same_but_page_timer_inv _ _ Hf).
    left. reflexivity. }
  revert H0. generalize (Legacy.construct cfg kind log document).
  induction es as [|e es IH]; intros w Ht; cbn [fold_left]; [exact Ht|].
  apply IH. apply legacy_handle_inv. exact Ht.
Qed.

Lemma debounces_legacy (w : World) :
  timer_inv w ->
  debounces (fun d => Legacy.handle (Legacy.DocumentEdited d))
            (fun id => Legacy.handle (Legacy.TimerFires id)) w.
Proof.
  apply (debounces_holds (fun d => Legacy.handle (Legacy.DocumentEdited d))
           (fun id => Legacy.handle (Legacy.TimerFires id)) (fun _ => True)
           (fun d w0 _ => legacy_edit d w0)
           (fun _ _ _ _ => I)
           legacy_fire_when_pending w I).
Qed.

(** C4. Edits are debounced. On every state the panel of [extension.ts]
    reaches, at most one timer is pending; in mode [all], [updateContent]
    clears the pending timer before it sets a new one with the configured
    [refreshDelay] (500 when the setting is not defined), and renders
    nothing itself; a burst of [updateContent] calls leaves one timer,
    so one render follows it. The same holds of [updateContent] of
    [previewPanel.ts], which has no modes. *)
Theorem updateContent_debounced
  (cfg : Configuration) (kind : ColorThemeKind) (log : list LogEntry)
  (document : TextDocument) (at_line : option Z) (es : list Event)
  (legacy_es : list Legacy.Event) :
  let w := run_events es (created cfg kind log document at_line) in
  let lw := Legacy.run_events legacy_es (Legacy.construct cfg kind log document) in
  length (timers w) <= 1 /\
  (_mode w = all ->
   debounces (fun d => handle (DocumentEdited d)) (fun id => handle (TimerFires id)) w) /\
  debounces (fun d => Legacy.handle (Legacy.DocumentEdited d))
            (fun id => Legacy.handle (Legacy.TimerFires id)) lw.
Proof.
  intros w lw.
  destruct (reachable_inv cfg kind log document at_line es) as [_ Ht]. fold w in Ht.
  split; [|split].
  - destruct Ht as [H | [id [delay [H _]]]]; rewrite H; cbn [length]; lia.
  - intros Hm. apply debounces_panel; assumption.
  - apply debounces_legacy. apply legacy_reachable_inv.
Qed.

(** C10. A panel in mode [single] ignores edits: [updateContent] records
    the document in [_currentDocument] and changes nothing else, so no
    timer is set and the page stays; in mode [all] it sets a timer with
    the configured delay. *)
Theorem updateContent_single_mode_ignores_edits (d : TextDocument) (w : World) :
  match _mode w with
  | single =>
      updateContent d w =
      (Normal tt,
       mkWorld (_mode w) (_singleLine w) (Some d) (_updateTimeout w) (html w)
         (html_writes w) (timers w) (next_timer w) (logger w) (config w)
         (activeColorTheme w))
  | all =>
      let w' := snd (updateContent d w) in
      In (next_timer w, config_get (cfg_refreshDelay (config w)) 500%Z) (timers w') /\
      _updateTimeout w' = Some (next_timer w) /\
      _currentDocument w' = Some d /\
      html w' = html w
  end.
Proof.
  destruct (_mode w) eqn:Hm.
  - rewrite updateContent_all by exact Hm. cbn.
    repeat split. apply in_or_app. right. left. reflexivity.
  - rewrite updateContent_single by exact Hm. rewrite Hm. reflexivity.
Qed.

(** C5. The states of the panel exclude each other: after construction
    and after every transition the mode is one of [all] and [single];
    in mode [single] a line number is kept, in mode [all] none;
    [_setMode] sets the two fields, switching to [all] clears the line;
    in every state, [_render] goes to the renderer of one diagram
    exactly when the mode is [single] and a line is kept, and to the
    renderer of all diagrams otherwise. *)
Theorem mode_machine_exclusive
  (cfg : Configuration) (kind : ColorThemeKind) (log : list LogEntry)
  (document : TextDocument) (at_line : option Z) (es : list Event) (any : World) :
  let w := run_events es (created cfg kind log document at_line) in
  (_mode w = all \/ _mode w = single) /\
  (_mode w = single -> exists l, _singleLine w = Some l) /\
  (_mode w = all -> _singleLine w = None) /\
  (forall m l, _mode (snd (_setMode m l w)) = m /\ _singleLine (snd (_setMode m l w)) = l) /\
  (forall d, _mode (snd (_switchToAllMode d w)) = all /\
             _singleLine (snd (_switchToAllMode d w)) = None) /\
  (forall d l, _mode (snd (_switchToSingleMode d l w)) = single /\
               _singleLine (snd (_switchToSingleMode d l w)) = Some l) /\
  (forall o l, _mode any = single -> _singleLine any = Some l ->
               _render o any = _renderSingle l o any) /\
  (forall o, ~ (_mode any = single /\ exists l, _singleLine any = Some l) ->
             _render o any = _renderAll o any).
Proof.
  intros w.
  destruct (reachable_inv cfg kind log document at_line es) as [Hm _].
  fold w in Hm. unfold mode_inv in Hm.
  split; [destruct (_mode w); auto|].
  split; [intros E; rewrite E in Hm; exact Hm|].
  split; [intros E; rewrite E in Hm; exact Hm|].
  split; [intros m l; split; reflexivity|].
  split.
  { intros d. destruct (switchToAllMode_spec d w) as [w' [Hrun H]]. rewrite Hrun.
    cbn [snd]. split; apply H. }
  split.
  { intros d l. destruct (switchToSingleMode_spec d l w) as [w' [Hrun H]]. rewrite Hrun.
    cbn [snd]. split; apply H. }
  split.
  - intros o l E1 E2. unfold _render, bind, get. rewrite E1, E2. reflexivity.
  - intros o Hn. unfold _render, bind, get.
    destruct (_mode any); [reflexivity|].
    destruct (_singleLine any) as [l|]; [|reflexivity].
    exfalso. apply Hn. split; [reflexivity | exists l; reflexivity].
Qed.

End PanelClaims.

(** ** Theme resolution *)

Section ThemeClaims.
Import Panel.
Local Open Scope string_scope.

(** C3, as the code has it. Theme resolution does not follow the host
    editor's colour theme: when [useVSCodeTheme] is false the resolved
    theme is the override when one is passed (a string that is not
    empty, as the theme names of the page are; an empty one counts as
    none) and the configured theme otherwise, and it is the same under
    every colour theme of the host. In [_resolveTheme] of [extension.ts]
    the colour theme of the host changes the result only when
    [useVSCodeTheme] is true, no override is passed and
    [previewAppearance] is [matchVSCode]. In [_update] of
    [previewPanel.ts], which reads no [previewAppearance], it changes
    the result only when [useVSCodeTheme] is true and no override is
    passed. *)
Theorem resolveTheme_decoupled_from_host
  (cfg : Configuration) (kind kind' : ColorThemeKind) (o : option string) :
  let use := config_get (cfg_useVSCodeTheme cfg) false in
  let configured := config_get (cfg_theme cfg) "default" in
  let appearance := config_get (cfg_previewAppearance cfg) matchVSCode in
  (use = false ->
   (forall t, o = Some t -> t <> "" -> fst (resolveTheme cfg kind o) = t) /\
   (o = None \/ o = Some "" -> fst (resolveTheme cfg kind o) = configured) /\
   fst (resolveTheme cfg kind o) = fst (resolveTheme cfg kind' o)) /\
  (fst (resolveTheme cfg kind o) <> fst (resolveTheme cfg kind' o) ->
   use = true /\ (o = None \/ o = Some "") /\ appearance = matchVSCode) /\
  snd (resolveTheme cfg kind o) = appearance /\
  (use = false ->
   (forall t, o = Some t -> t <> "" -> Legacy.update_theme cfg kind o = t) /\
   (o = None \/ o = Some "" -> Legacy.update_theme cfg kind o = configured) /\
   Legacy.update_theme cfg kind o = Legacy.update_theme cfg kind' o /\
   Legacy.atLine_theme cfg kind = configured) /\
  (Legacy.update_theme cfg kind o <> Legacy.update_theme cfg kind' o ->
   use = true /\ (o = None \/ o = Some "")).
Proof.
  intros use configured appearance. subst use configured appearance.
  unfold resolveTheme, Legacy.update_theme, Legacy.atLine_theme, or_else, truthy.
  cbn [fst snd].
  destruct (config_get (cfg_useVSCodeTheme cfg) false),
    (config_get (cfg_previewAppearance cfg) matchVSCode), kind, kind', o as [t|];
    try destruct (String.eqb_spec t ""); subst; cbn [andb negb];
    intuition (try discriminate; congruence).
Qed.

(** C3 as it is worded fails for [_update] of [previewPanel.ts], which
    reads no [previewAppearance]: with [useVSCodeTheme] true,
    [previewAppearance] [light] and no override, the theme is [default]
    under a light colour theme of the host and [dark] under a dark one,
    and so is the theme of the page of a panel that has just been made. *)
Lemma update_follows_host_whatever_the_appearance :
  config_get (cfg_previewAppearance (mkConfig (Some true) None (Some light) None))
    matchVSCode = light /\
  Legacy.update_theme (mkConfig (Some true) None (Some light) None) Light None = "default" /\
  Legacy.update_theme (mkConfig (Some true) None (Some light) None) Dark None = "dark" /\
  html (Legacy.construct (mkConfig (Some true) None (Some light) None) Light []
          (document_of (Written.block [] Written.Unix (lit "graph TD")
                          (Some Written.Unix)))) =
    DiagramHtml (JSON.stringify [lit "graph TD"]) "default" None /\
  html (Legacy.construct (mkConfig (Some true) None (Some light) None) Dark []
          (document_of (Written.block [] Written.Unix (lit "graph TD")
                          (Some Written.Unix)))) =
    DiagramHtml (JSON.stringify [lit "graph TD"]) "dark" None.
Proof. repeat split. Qed.

End ThemeClaims.

(** ** Export *)

Section ExportClaims.
Import ExportDiagram.
Local Open Scope string_scope.

(** C7. For every export request and every host, [_handleExportDiagram]
    shows one save dialog, whose filters are those of the format asked
    for (svg; png; jpg and jpeg) and whose default file name is
    [mermaid-diagram-{index+1}.{format}]; when the user cancels the
    dialog nothing is written and no message is shown; when the write
    (or the decoding of the data before it) throws, an error message is
    shown and no information message; when it succeeds, the information
    message is shown and no error message. *)
Theorem handleExportDiagram_dialog_and_outcome
  (h : Host) (data : option jsstring) (format : string) (index : nat) :
  let t := trace h (_handleExportDiagram data format index) in
  let name := Uri_file ("mermaid-diagram-" ++ decimal (index + 1) ++ "." ++ format) in
  exists options,
    dialogs t = [options] /\
    defaultUri options = name /\
    (format = "svg" -> filters options = [("SVG Image", ["svg"])]) /\
    (format = "png" -> filters options = [("PNG Image", ["png"])]) /\
    (format = "jpg" -> filters options = [("JPEG Image", ["jpg"; "jpeg"])]) /\
    match dialog_answer h options with
    | None => writes t = [] /\ information_messages t = [] /\ error_messages t = []
    | Some uri =>
        match data with
        | None =>
            writes t = [] /\ information_messages t = [] /\
            error_messages t = ["Failed to export diagram: " ++ type_error h]
        | Some content =>
            writes t = [(uri, Base64 content)] /\
            match write_answer h uri (Base64 content) with
            | Some error =>
                error_messages t = ["Failed to export diagram: " ++ error] /\
                information_messages t = []
            | None =>
                information_messages t = ["Diagram exported to " ++ fsPath uri] /\
                error_messages t = []
            end
        end
    end.
Proof.
  intros t name. subst t name. unfold _handleExportDiagram.
  cbn [trace answer]. eexists. split.
  - unfold dialogs. cbn [flat_map app].
    destruct (dialog_answer h _) as [uri|]; cbn [trace answer flat_map app].
    + destruct data as [content|]; cbn [trace answer flat_map app];
        [destruct (write_answer h uri _)|]; reflexivity.
    + reflexivity.
  - cbn [defaultUri filters]. split; [reflexivity|].
    split; [intros ->; reflexivity|].
    split; [intros ->; reflexivity|].
    split; [intros ->; reflexivity|].
    destruct (dialog_answer h _) as [uri|]; cbn [trace answer].
    + unfold writes, error_messages, information_messages.
      destruct data as [content|]; cbn [trace answer];
        [destruct (write_answer h uri _)|]; cbn; repeat split; reflexivity.
    + repeat split; reflexivity.
Qed.

End ExportClaims.

(** ** Zoom *)

Section ZoomClaims.
Import Webview.
Local Open Scope float_scope.

Lemma zoom_steps_hold : steps_hold zoom_levels zoom_steps.
Proof.
  vm_compute. repeat (split; [reflexivity|]). exact I.
Qed.

Lemma steps_hold_In :
  forall zs steps, steps_hold zs steps ->
  forall z, In z zs ->
  In (Math_min (z + tenth) zoom_max) zoom_levels /\
  In (Math_max (z - tenth) zoom_min) zoom_levels.
Proof.
  induction zs as [|z0 zs IH]; intros steps H z Hin; [destruct Hin|].
  destruct steps as [|[i o] steps]; cbn [steps_hold] in H; [destruct H|].
  destruct H as (Hi & Ho & Li & Lo & Hrest).
  destruct Hin as [<- | Hin].
  - rewrite Hi, Ho. split; apply nth_In; apply Nat.ltb_lt; assumption.
  - apply (IH steps Hrest z Hin).
Qed.

Lemma zoom_levels_in_range : forall z, In z zoom_levels -> in_range z = true.
Proof.
  apply forallb_forall. vm_compute. reflexivity.
Qed.

Lemma zoom_initial_level : In zoom_initial zoom_levels.
Proof. left. reflexivity. Qed.

Lemma handle_level (e : Event) (s : State) :
  In (currentZoom s) zoom_levels -> In (currentZoom (handle e s)) zoom_levels.
Proof.
  intros H.
  destruct (steps_hold_In zoom_levels zoom_steps zoom_steps_hold _ H) as [Hin Hout].
  destruct e as [ | | | event]; cbn [handle zoomIn zoomOut zoomReset currentZoom].
  - exact Hin.
  - exact Hout.
  - exact zoom_initial_level.
  - unfold handleWheel. destruct (negb (ctrlKey event)); [exact H|].
    destruct (deltaY event <? 0); [exact Hin | exact Hout].
Qed.

(** C9. The zoom level stays within [0.5, 5.0]: from the initial 1.0,
    after any sequence of [zoomIn], [zoomOut], [zoomReset] and wheel
    events, [0.5 <= currentZoom <= 5.0]. *)
Theorem zoom_within_bounds (es : list Event) :
  let z := currentZoom (run_events es initial) in
  (zoom_min <=? z) = true /\ (z <=? zoom_max) = true.
Proof.
  cbn zeta.
  assert (H : In (currentZoom (run_events es initial)) zoom_levels).
  { unfold run_events.
    assert (H0 : In (currentZoom initial) zoom_levels) by exact zoom_initial_level.
    revert H0. generalize initial.
    induction es as [|e es IH]; intros s Hs; cbn [fold_left]; [exact Hs|].
    apply IH. apply handle_level. exact Hs. }
  apply zoom_levels_in_range in H. unfold in_range in H.
  apply andb_true_iff in H. exact H.
Qed.

End ZoomClaims.

(** ** One block, written in different ways *)

Module WrittenFacts.
Import Scanner RegexFacts Written.

Lemma trimStart_spaces (o s : jsstring) :
  forallb is_space o = true -> trimStart (o ++ s) = trimStart s.
Proof.
  induction o as [|c o IH]; intros H; [reflexivity|].
  cbn [forallb] in H. apply andb_true_iff in H as [Hc Ho].
  cbn [app trimStart]. rewrite Hc. apply IH. exact Ho.
Qed.

Lemma trimStart_app_spaces (s o : jsstring) :
  forallb is_space o = true ->
  trimStart (s ++ o) = match trimStart s with [] => [] | _ :: _ => trimStart s ++ o end.
Proof.
  intros Ho. induction s as [|c s IH].
  - cbn [app trimStart]. rewrite <- (app_nil_r o), trimStart_spaces by exact Ho.
    reflexivity.
  - cbn [app trimStart]. destruct (is_space c); [exact IH | reflexivity].
Qed.

Lemma forallb_rev {A : Type} (f : A -> bool) (l : list A) :
  forallb f (rev l) = forallb f l.
Proof.
  induction l as [|a l IH]; [reflexivity|].
  cbn [rev forallb]. rewrite forallb_app, IH. cbn [forallb].
  rewrite andb_true_r. apply andb_comm.
Qed.

Lemma trimEnd_app_spaces (s o : jsstring) :
  forallb is_space o = true -> trimEnd (s ++ o) = trimEnd s.
Proof.
  intros Ho. unfold trimEnd. rewrite rev_app_distr, trimStart_spaces; [reflexivity|].
  rewrite forallb_rev. exact Ho.
Qed.

(** Blanks at the end of a string do not show after [trim]. *)
Lemma trim_app_spaces (s o : jsstring) :
  forallb is_space o = true -> trim (s ++ o) = trim s.
Proof.
  intros Ho. unfold trim. rewrite trimStart_app_spaces by exact Ho.
  destruct (trimStart s) as [|c r]; [reflexivity|].
  apply trimEnd_app_spaces. exact Ho.
Qed.

Lemma find_body_of_block :
  forall s i,
  find_body s =
  match find_block i s with
  | Some (b, rest) => Some (block_body b, rest)
  | None => None
  end.
Proof.
  induction s as [|c t IH]; intros i; rewrite find_block_eq; cbn [find_body].
  - destruct (block_here []) as [[body r]|]; reflexivity.
  - destruct (block_here (c :: t)) as [[body r]|]; [reflexivity | apply IH].
Qed.

Lemma bodies_of_blocks :
  forall fuel i s, bodies_from fuel s = map block_body (blocks_from fuel i s).
Proof.
  induction fuel as [|f IH]; intros i s; [reflexivity|].
  cbn [bodies_from blocks_from]. rewrite (find_body_of_block s i).
  destruct (find_block i s) as [[b rest]|]; [|reflexivity].
  cbn [map]. f_equal. apply IH.
Qed.

Lemma diagrams_by_bodies (text : jsstring) : diagrams text = diagrams_of text.
Proof.
  unfold diagrams, diagrams_of, fenced_blocks.
  rewrite (bodies_of_blocks (length text) 0 text), map_map. reflexivity.
Qed.

Lemma find_body_shorter :
  forall s body rest, find_body s = Some (body, rest) -> length rest < length s.
Proof.
  intros s body rest H. rewrite (find_body_of_block s 0) in H.
  destruct (find_block 0 s) as [[b r]|] eqn:Hb; [|discriminate].
  injection H as _ ->. apply find_block_bounds in Hb. lia.
Qed.

Lemma bodies_from_fuel (f1 f2 : nat) (s : jsstring) :
  length s <= f1 -> length s <= f2 -> bodies_from f1 s = bodies_from f2 s.
Proof.
  intros H1 H2. rewrite (bodies_of_blocks f1 0), (bodies_of_blocks f2 0).
  f_equal. apply blocks_from_fuel; assumption.
Qed.

(** The diagrams of a text: those of its first block, then those of the
    text after it. *)
Lemma diagrams_of_eq (s : jsstring) :
  diagrams_of s =
  match find_body s with
  | Some (body, rest) => keep (trim body) ++ diagrams_of rest
  | None => []
  end.
Proof.
  unfold diagrams_of at 1.
  destruct (length s) as [|n] eqn:Hn.
  - destruct s; [reflexivity | discriminate].
  - cbn [bodies_from].
    destruct (find_body s) as [[body rest]|] eqn:Hb; [|reflexivity].
    apply find_body_shorter in Hb.
    rewrite (bodies_from_fuel n (length rest) rest) by lia.
    cbn [map filter]. unfold keep, diagrams_of.
    destruct (Panel.nonempty (trim body)); reflexivity.
Qed.

Lemma diagrams_of_block (s body rest : jsstring) :
  block_here s = Some (body, rest) ->
  diagrams_of s = keep (trim body) ++ diagrams_of rest.
Proof.
  intros H. rewrite diagrams_of_eq. destruct s; cbn [find_body]; rewrite H; reflexivity.
Qed.

Lemma diagrams_of_skip (c : code_unit) (t : jsstring) :
  block_here (c :: t) = None -> diagrams_of (c :: t) = diagrams_of t.
Proof.
  intros H. rewrite (diagrams_of_eq (c :: t)), (diagrams_of_eq t).
  cbn [find_body]. rewrite H. reflexivity.
Qed.

Lemma strip_prefix_app_inside (p u Y r : jsstring) :
  strip_prefix p u = Some r -> strip_prefix p (u ++ Y) = Some (r ++ Y).
Proof.
  intros H. apply strip_prefix_Some in H. subst u.
  apply strip_prefix_Some. rewrite app_assoc. reflexivity.
Qed.

Lemma strip_prefix_app_none (p u Y : jsstring) :
  strip_prefix p u = None -> length p <= length u -> strip_prefix p (u ++ Y) = None.
Proof.
  revert u. induction p as [|a p IH]; intros u H Hlen; [discriminate|].
  destruct u as [|b u]; [simpl in Hlen; lia|].
  cbn [strip_prefix app] in *. destruct (b =? a)%N; [|reflexivity].
  apply IH; [exact H | simpl in Hlen; lia].
Qed.

Lemma split_fence_length (s before r : jsstring) :
  split_fence s = Some (before, r) -> length before + 3 + length r = length s.
Proof.
  revert before. induction s as [|c t IH]; intros before; cbn [split_fence].
  - discriminate.
  - destruct (strip_prefix fence (c :: t)) as [r'|] eqn:Hp.
    + intros [= <- <-]. apply strip_prefix_Some in Hp. rewrite Hp, length_app. reflexivity.
    + destruct (split_fence t) as [[b r']|]; [|discriminate].
      intros [= <- <-]. specialize (IH b eq_refl). cbn [length]. lia.
Qed.

Lemma split_fence_Some (s before r : jsstring) :
  split_fence s = Some (before, r) -> s = before ++ fence ++ r.
Proof.
  revert before. induction s as [|c t IH]; intros before; cbn [split_fence].
  - discriminate.
  - destruct (strip_prefix fence (c :: t)) as [r'|] eqn:Hp.
    + intros [= <- <-]. apply strip_prefix_Some in Hp. exact Hp.
    + destruct (split_fence t) as [[b r']|]; [|discriminate].
      intros [= <- <-]. rewrite (IH b eq_refl) at 1. reflexivity.
Qed.

(** A fence inside [u] is the first fence of [u ++ Y] too. *)
Lemma split_fence_app_inside (u Y before r : jsstring) :
  split_fence u = Some (before, r) -> split_fence (u ++ Y) = Some (before, r ++ Y).
Proof.
  revert before. induction u as [|c t IH]; intros before; [discriminate|].
  cbn [split_fence app].
  destruct (strip_prefix fence (c :: t)) as [r'|] eqn:Hp.
  - intros [= <- <-].
    change (c :: t ++ Y) with ((c :: t) ++ Y).
    rewrite (strip_prefix_app_inside _ _ Y _ Hp). reflexivity.
  - destruct (split_fence t) as [[b r']|] eqn:Ht; [|discriminate].
    intros [= <- <-].
    change (c :: t ++ Y) with ((c :: t) ++ Y).
    rewrite strip_prefix_app_none; [| exact Hp |].
    + rewrite (IH b eq_refl). reflexivity.
    + apply split_fence_length in Ht. cbn [length]. change (length fence) with 3. lia.
Qed.

Lemma ends_well_nil : ends_well [].
Proof. unfold ends_well. cbn. discriminate. Qed.

Lemma ends_well_tail (c : code_unit) (u : jsstring) :
  ends_well (c :: u) -> ends_well u.
Proof.
  destruct u as [|d u]; intros H; [apply ends_well_nil | exact H].
Qed.

Lemma ends_well_suffix (a r : jsstring) : ends_well (a ++ r) -> ends_well r.
Proof.
  induction a as [|c a IH]; intros H; [exact H|].
  apply IH. apply ends_well_tail with c. exact H.
Qed.

Lemma no_backtick_no_fence (c : code_unit) (t : jsstring) :
  c <> BACKTICK -> strip_prefix fence (c :: t) = None.
Proof.
  intros H. cbn [fence lit strip_prefix]. 
  destruct (N.eqb_spec c (of_ascii "`"%char)) as [E|_]; [contradiction | reflexivity].
Qed.

(** Where no fence lies in [u] and [u] ends well, the first fence of
    [u ++ t ++ fence] is the last one, when [t] has no backtick. *)
Lemma split_fence_end (u t : jsstring) :
  split_fence u = None -> ends_well u -> Forall (fun c => c <> BACKTICK) t ->
  split_fence (u ++ t ++ fence) = Some (u ++ t, []).
Proof.
  intros Hu Hw Ht. induction u as [|c u IH].
  - clear Hu Hw. cbn [app]. induction Ht as [|c t Hc Ht IH]; [reflexivity|].
    cbn [app split_fence]. rewrite (no_backtick_no_fence c _ Hc), IH. reflexivity.
  - cbn [split_fence] in Hu.
    destruct (strip_prefix fence (c :: u)) as [r|] eqn:Hp; [discriminate|].
    destruct (split_fence u) as [[b r]|] eqn:Hs; [discriminate|].
    cbn [app split_fence].
    rewrite (IH eq_refl (ends_well_tail c u Hw)).
    assert (Hn : strip_prefix fence (c :: u ++ t ++ fence) = None).
    { destruct (N.eqb_spec c BACKTICK) as [->|Hc]; [|apply no_backtick_no_fence; exact Hc].
      destruct u as [|c2 u]; [exfalso; apply Hw; reflexivity|].
      destruct (N.eqb_spec c2 BACKTICK) as [->|Hc2].
      - destruct u as [|c3 u]; [exfalso; apply Hw; reflexivity|].
        destruct (N.eqb_spec c3 BACKTICK) as [->|Hc3]; [discriminate Hp|].
        cbn [app]. change (strip_prefix fence (BACKTICK :: BACKTICK :: c3 :: u ++ t ++ fence))
          with (strip_prefix [BACKTICK] (c3 :: u ++ t ++ fence)).
        cbn [strip_prefix]. destruct (N.eqb_spec c3 BACKTICK); [contradiction | reflexivity].
      - cbn [app]. change (strip_prefix fence (BACKTICK :: c2 :: u ++ t ++ fence))
          with (strip_prefix [BACKTICK; BACKTICK] (c2 :: u ++ t ++ fence)).
        cbn [strip_prefix]. destruct (N.eqb_spec c2 BACKTICK); [contradiction | reflexivity]. }
    rewrite Hn. reflexivity.
Qed.

Lemma fence_closes (s r : jsstring) :
  strip_prefix fence s = Some r -> close_here s = Some r.
Proof.
  intros H. unfold close_here.
  destruct (strip_newline s) as [r1|] eqn:Hnl; [|exact H].
  apply strip_newline_no_fence in Hnl. congruence.
Qed.

(** The body the pattern captures is the text before the first fence,
    less one line break at its end. *)
Lemma find_close_split_fence (s : jsstring) :
  match find_close s, split_fence s with
  | Some (body, r), Some (before, r') =>
      r = r' /\ exists o, before = body ++ o /\ (o = [] \/ o = [LF] \/ o = [CR; LF])
  | None, None => True
  | _, _ => False
  end.
Proof.
  induction s as [|c t IH].
  - cbn. exact I.
  - cbn [find_close].
    destruct (close_here (c :: t)) as [r|] eqn:Hc.
    + apply close_here_Some in Hc.
      assert (Hs : exists o, split_fence (c :: t) = Some (o, r) /\
                             (o = [] \/ o = [LF] \/ o = [CR; LF])).
      { destruct Hc as [E | [E | E]]; rewrite E;
          [exists [] | exists [LF] | exists [CR; LF]]; split; auto; reflexivity. }
      destruct Hs as [o [Hs Ho]]. rewrite Hs.
      split; [reflexivity|]. exists o. split; [reflexivity | exact Ho].
    + cbn [split_fence].
      destruct (strip_prefix fence (c :: t)) as [r|] eqn:Hp.
      { apply fence_closes in Hp. congruence. }
      destruct (find_close t) as [[body r]|], (split_fence t) as [[before r']|];
        try contradiction; [|exact I].
      destruct IH as [-> [o [-> Ho]]].
      split; [reflexivity|]. exists o. split; [reflexivity | exact Ho].
Qed.

Lemma trailing_spaces (e : option LineEnding) : forallb is_space (trailing e) = true.
Proof. destruct e as [[|]|]; reflexivity. Qed.

Lemma trailing_no_backtick (e : option LineEnding) :
  Forall (fun c => c <> BACKTICK) (trailing e).
Proof. destruct e as [[|]|]; repeat constructor; discriminate. Qed.

Lemma after_opening_by_fence (s : jsstring) :
  diagrams_after_opening s =
  match split_fence s with
  | Some (before, r) => keep (trim before) ++ diagrams_of r
  | None => []
  end.
Proof.
  unfold diagrams_after_opening. pose proof (find_close_split_fence s) as H.
  destruct (find_close s) as [[body r]|], (split_fence s) as [[before r']|];
    try contradiction; [|reflexivity].
  destruct H as [-> [o [-> Ho]]].
  rewrite trim_app_spaces; [reflexivity|].
  destruct Ho as [-> | [-> | ->]]; reflexivity.
Qed.

Lemma diagrams_of_nil : diagrams_of [] = [].
Proof. reflexivity. Qed.

(** After an opening fence, a text without a fence that ends well gives
    its own diagram, however the block is closed. *)
Lemma after_opening_no_fence (u : jsstring) (e : option LineEnding) :
  split_fence u = None -> ends_well u ->
  diagrams_after_opening (u ++ ending e) = keep (trim u).
Proof.
  intros Hs Hw. rewrite after_opening_by_fence. unfold ending.
  rewrite (split_fence_end u (trailing e) Hs Hw (trailing_no_backtick e)).
  rewrite trim_app_spaces by apply trailing_spaces.
  rewrite diagrams_of_nil. apply app_nil_r.
Qed.

Lemma after_opening_fence_inside (u before r : jsstring) (e : option LineEnding) :
  split_fence u = Some (before, r) ->
  diagrams_after_opening (u ++ ending e) =
  keep (trim before) ++ diagrams_of (r ++ ending e).
Proof.
  intros Hs. rewrite after_opening_by_fence.
  rewrite (split_fence_app_inside u (ending e) before r Hs). reflexivity.
Qed.

Lemma find_close_ending (u : jsstring) (e : option LineEnding) :
  ends_well u -> find_close (u ++ ending e) <> None.
Proof.
  intros Hw H. pose proof (find_close_split_fence (u ++ ending e)) as Hf.
  rewrite H in Hf.
  destruct (split_fence u) as [[before r]|] eqn:Hs.
  - rewrite (split_fence_app_inside u (ending e) before r Hs) in Hf. exact Hf.
  - unfold ending in Hf.
    rewrite (split_fence_end u (trailing e) Hs Hw (trailing_no_backtick e)) in Hf.
    exact Hf.
Qed.

Lemma skip_while_app (p : code_unit -> bool) (a b : jsstring) :
  skip_while p (a ++ b) =
  match skip_while p a with
  | [] => skip_while p b
  | c :: r => (c :: r) ++ b
  end.
Proof.
  induction a as [|c a IH]; [reflexivity|].
  cbn [app skip_while]. destruct (p c); [exact IH | reflexivity].
Qed.

Lemma strip_newline_app_inside (s Y r : jsstring) :
  strip_newline s = Some r -> strip_newline (s ++ Y) = Some (r ++ Y).
Proof.
  intros H. apply strip_newline_Some in H. apply strip_newline_Some.
  destruct H as [-> | ->]; [left | right]; reflexivity.
Qed.

(** An opening fence inside [u] opens [u ++ Y] as well. *)
Lemma open_fence_app_inside (u Y r : jsstring) :
  open_fence u = Some r -> open_fence (u ++ Y) = Some (r ++ Y).
Proof.
  unfold open_fence.
  destruct (strip_prefix opener u) as [r0|] eqn:H0; [|discriminate].
  rewrite (strip_prefix_app_inside opener u Y r0 H0).
  intros H1. unfold skip_hspace in *. rewrite skip_while_app.
  destruct (skip_while class_hspace r0) as [|c r1] eqn:Hs; [discriminate|].
  apply strip_newline_app_inside. exact H1.
Qed.

Lemma open_fence_suffix (u r : jsstring) :
  open_fence u = Some r -> exists pre, u = pre ++ r /\ pre <> [].
Proof.
  unfold open_fence.
  destruct (strip_prefix opener u) as [r0|] eqn:H0; [|discriminate].
  apply strip_prefix_Some in H0.
  destruct (skip_while_split class_hspace r0) as [ws [E _]].
  fold (skip_hspace r0) in E. intros H1. apply strip_newline_Some in H1.
  destruct H1 as [H1 | H1].
  - exists (opener ++ ws ++ [LF]). split; [|discriminate].
    rewrite H0, E, H1, <- !app_assoc. reflexivity.
  - exists (opener ++ ws ++ [CR; LF]). split; [|discriminate].
    rewrite H0, E, H1, <- !app_assoc. reflexivity.
Qed.

Lemma strip_prefix_app_cases (p : jsstring) :
  forall u Y r, strip_prefix p (u ++ Y) = Some r ->
  (exists u1, u = p ++ u1 /\ r = u1 ++ Y) \/
  (exists p2, p2 <> [] /\ p = u ++ p2 /\ Y = p2 ++ r).
Proof.
  induction p as [|a p IH]; intros u Y r H.
  - left. exists u. injection H as <-. split; reflexivity.
  - destruct u as [|b u].
    + right. exists (a :: p). apply strip_prefix_Some in H.
      repeat split; [discriminate | exact H].
    + cbn [app strip_prefix] in H. destruct (N.eqb_spec b a) as [->|_]; [|discriminate].
      destruct (IH u Y r H) as [[u1 [-> ->]] | [p2 [Hne [-> ->]]]].
      * left. exists u1. split; reflexivity.
      * right. exists p2. repeat split; assumption.
Qed.

Lemma opener_tail_in (u p2 : jsstring) :
  p2 <> [] -> opener = u ++ p2 -> In 100%N p2.
Proof.
  intros Hne E.
  destruct (exists_last Hne) as [front [x Ep]]. subst p2.
  rewrite app_assoc in E.
  change opener with (removelast opener ++ [100%N]) in E.
  apply app_inj_tail in E as [_ <-].
  apply in_or_app. right. left. reflexivity.
Qed.

Lemma ending_has_no_d (e : option LineEnding) : ~ In 100%N (ending e).
Proof.
  destruct e as [[|]|]; cbn; intuition discriminate.
Qed.

Lemma strip_newline_app_cases (s Y r : jsstring) :
  strip_newline s = None -> strip_newline (s ++ Y) = Some r -> s = [] \/ s = [CR].
Proof.
  unfold strip_newline. destruct s as [|c s]; [now left|].
  cbn [app]. destruct (c =? LF)%N; [discriminate|].
  destruct (N.eqb_spec c CR) as [->|_]; [|discriminate].
  destruct s as [|d s]; [now right|].
  cbn [app]. destruct (d =? LF)%N; discriminate.
Qed.

(** Where the opening fence of [u ++ ending e] does not lie in [u], [u]
    is the opener, blanks and perhaps a carriage return. *)
Lemma open_fence_across (u r : jsstring) (e : option LineEnding) :
  open_fence u = None -> open_fence (u ++ ending e) = Some r ->
  exists ws z, u = opener ++ ws ++ z /\ forallb class_hspace ws = true /\
               (z = [] \/ z = [CR]).
Proof.
  unfold open_fence. intros Hu H.
  destruct (strip_prefix opener (u ++ ending e)) as [r0|] eqn:H0; [|discriminate].
  apply strip_prefix_app_cases in H0.
  destruct H0 as [[u1 [-> ->]] | [p2 [Hne [E1 E2]]]].
  - rewrite (proj2 (strip_prefix_Some opener (opener ++ u1) u1) eq_refl) in Hu.
    unfold skip_hspace in *. rewrite skip_while_app in H.
    destruct (skip_while_split class_hspace u1) as [ws [E F]].
    exists ws, (skip_while class_hspace u1). split; [rewrite <- E; reflexivity|].
    split; [exact F|].
    destruct (skip_while class_hspace u1) as [|c r1] eqn:Hs; [now left|].
    apply (strip_newline_app_cases _ _ _ Hu H).
  - exfalso. apply (ending_has_no_d e). rewrite E2. apply in_or_app. left.
    apply (opener_tail_in u p2 Hne E1).
Qed.

Lemma hspace_not_backtick (c : code_unit) : class_hspace c = true -> c <> BACKTICK.
Proof. intros H ->. discriminate H. Qed.

Lemma block_here_not_backtick (c : code_unit) (t : jsstring) :
  c <> BACKTICK -> block_here (c :: t) = None.
Proof.
  intros H. unfold block_here, open_fence. cbn [opener lit strip_prefix].
  destruct (N.eqb_spec c (of_ascii "`"%char)); [contradiction | reflexivity].
Qed.

Lemma diagrams_of_skip_blanks (ws Z : jsstring) :
  forallb class_hspace ws = true -> diagrams_of (ws ++ Z) = diagrams_of Z.
Proof.
  induction ws as [|c ws IH]; intros H; [reflexivity|].
  cbn [forallb] in H. apply andb_true_iff in H as [Hc Hws].
  cbn [app]. rewrite diagrams_of_skip; [apply IH; exact Hws|].
  apply block_here_not_backtick, hspace_not_backtick. exact Hc.
Qed.

(** The text after the first character of the opener holds no opening
    fence before the opener's end. *)
Lemma diagrams_of_skip_opener (W : jsstring) :
  block_here (opener ++ W) = None -> diagrams_of (opener ++ W) = diagrams_of W.
Proof.
  intros H.
  change (opener ++ W) with (96 :: 96 :: 96 :: 109 :: 101 :: 114 :: 109 :: 97 :: 105 ::
    100 :: W)%N in *.
  rewrite diagrams_of_skip by exact H.
  rewrite diagrams_of_skip by reflexivity.
  rewrite diagrams_of_skip by reflexivity.
  repeat (rewrite diagrams_of_skip by (apply block_here_not_backtick; discriminate)).
  reflexivity.
Qed.

Lemma block_here_opener_blanks (ws Z : jsstring) :
  forallb class_hspace ws = true ->
  block_here (opener ++ ws ++ Z) = block_here (opener ++ Z).
Proof.
  intros H. unfold block_here, open_fence.
  rewrite !(proj2 (strip_prefix_Some opener _ _) eq_refl).
  unfold skip_hspace. rewrite skip_while_app.
  destruct (skip_while_split class_hspace ws) as [ws' [E F]].
  assert (Hs : skip_while class_hspace ws = []).
  { clear E F ws'. induction ws as [|c ws IH]; [reflexivity|].
    cbn [forallb] in H. apply andb_true_iff in H as [Hc Hws].
    cbn [skip_while]. rewrite Hc. apply IH. exact Hws. }
  rewrite Hs. reflexivity.
Qed.

(** An opener that is completed only by the end of the text opens an
    empty block or none: no diagram comes of it. *)
Lemma diagrams_of_open_end (ws z : jsstring) (e : option LineEnding) :
  forallb class_hspace ws = true -> z = [] \/ z = [CR] ->
  diagrams_of (opener ++ ws ++ z ++ ending e) = [].
Proof.
  intros Hws Hz.
  destruct (block_here (opener ++ ws ++ z ++ ending e)) as [[body rest]|] eqn:Hb.
  - rewrite (diagrams_of_block _ body rest Hb).
    rewrite block_here_opener_blanks in Hb by exact Hws.
    destruct Hz as [-> | ->]; destruct e as [[|]|]; vm_compute in Hb;
      try discriminate; injection Hb as <- <-; reflexivity.
  - rewrite diagrams_of_skip_opener by exact Hb.
    rewrite diagrams_of_skip_blanks by exact Hws.
    destruct Hz as [-> | ->]; destruct e as [[|]|]; reflexivity.
Qed.

Lemma diagrams_of_opened (s r : jsstring) :
  open_fence s = Some r -> find_close r <> None ->
  diagrams_of s = diagrams_after_opening r.
Proof.
  intros Ho Hc. unfold diagrams_after_opening.
  destruct (find_close r) as [[body rest]|] eqn:Hf; [|contradiction].
  apply diagrams_of_block. unfold block_here. rewrite Ho. exact Hf.
Qed.

Lemma diagrams_of_not_opened (c : code_unit) (t : jsstring) :
  open_fence (c :: t) = None -> diagrams_of (c :: t) = diagrams_of t.
Proof.
  intros H. apply diagrams_of_skip. unfold block_here. rewrite H. reflexivity.
Qed.

Lemma diagrams_of_across (u r : jsstring) (e0 e : option LineEnding) :
  open_fence u = None -> open_fence (u ++ ending e0) = Some r ->
  diagrams_of (u ++ ending e) = [].
Proof.
  intros Hu H. destruct (open_fence_across u r e0 Hu H) as [ws [z [-> [Hws Hz]]]].
  rewrite <- !app_assoc. apply diagrams_of_open_end; assumption.
Qed.

(** How the block is closed does not show in the diagrams: neither in
    those of a text that follows an opening fence, nor in those of a
    text read from its start. *)
Lemma ending_invariance :
  forall n u, length u <= n -> ends_well u ->
  forall e e',
  diagrams_after_opening (u ++ ending e) = diagrams_after_opening (u ++ ending e') /\
  diagrams_of (u ++ ending e) = diagrams_of (u ++ ending e').
Proof.
  induction n as [|n IH]; intros u Hlen Hw e e'.
  - destruct u; [|simpl in Hlen; lia]. split.
    + rewrite !after_opening_no_fence by (reflexivity || apply ends_well_nil).
      reflexivity.
    + destruct e as [[|]|], e' as [[|]|]; reflexivity.
  - split.
    + destruct (split_fence u) as [[before r]|] eqn:Hs.
      * rewrite !(after_opening_fence_inside u before r _ Hs). f_equal.
        apply IH.
        -- apply split_fence_length in Hs. lia.
        -- apply split_fence_Some in Hs. rewrite Hs in Hw.
           apply ends_well_suffix in Hw. apply ends_well_suffix in Hw. exact Hw.
      * rewrite !after_opening_no_fence by assumption. reflexivity.
    + destruct u as [|c u].
      { destruct e as [[|]|], e' as [[|]|]; reflexivity. }
      destruct (open_fence (c :: u)) as [r0|] eqn:Ho.
      * destruct (open_fence_suffix _ _ Ho) as [pre [E Hne]].
        assert (Hw0 : ends_well r0) by (rewrite E in Hw; apply ends_well_suffix in Hw; exact Hw).
        assert (Hl0 : length r0 <= n).
        { apply (f_equal (@length N)) in E. rewrite length_app in E.
          destruct pre; [contradiction|]. simpl in E, Hlen. lia. }
        rewrite !(diagrams_of_opened _ _ (open_fence_app_inside _ _ _ Ho))
          by (apply find_close_ending; exact Hw0).
        apply IH; assumption.
      * destruct (open_fence ((c :: u) ++ ending e)) as [r|] eqn:H1.
        { rewrite (diagrams_of_across _ _ e e Ho H1), (diagrams_of_across _ _ e e' Ho H1).
          reflexivity. }
        destruct (open_fence ((c :: u) ++ ending e')) as [r|] eqn:H2.
        { rewrite (diagrams_of_across _ _ e' e Ho H2), (diagrams_of_across _ _ e' e' Ho H2).
          reflexivity. }
        cbn [app] in *. rewrite !diagrams_of_not_opened by assumption.
        apply IH; [simpl in Hlen; lia | apply ends_well_tail with c; exact Hw].
Qed.


End WrittenFacts.

Section WrittenClaims.
Import Scanner RegexFacts Written WrittenFacts.

Lemma blanks_are_hspace (ws : list Blank) : forallb class_hspace (map blank ws) = true.
Proof. induction ws as [|[|] ws IH]; [reflexivity | exact IH | exact IH]. Qed.

Lemma open_fence_block (ws : list Blank) (first : LineEnding) (rest : jsstring) :
  open_fence (opener ++ map blank ws ++ eol first ++ rest) = Some rest.
Proof.
  unfold open_fence.
  rewrite (proj2 (strip_prefix_Some opener _ _) eq_refl).
  unfold skip_hspace. rewrite skip_while_app.
  assert (Hs : skip_while class_hspace (map blank ws) = []).
  { induction ws as [|[|] ws IH]; [reflexivity | exact IH | exact IH]. }
  rewrite Hs. destruct first; reflexivity.
Qed.

(** The diagrams of a written block are those of its body and its end. *)
Lemma diagrams_of_written (ws : list Blank) (first : LineEnding) (body : jsstring)
  (e : option LineEnding) :
  ends_well body ->
  diagrams (block ws first body e) = diagrams_after_opening (body ++ ending e).
Proof.
  intros Hw. rewrite diagrams_by_bodies. unfold block.
  apply diagrams_of_opened.
  - apply open_fence_block.
  - apply find_close_ending. exact Hw.
Qed.

Lemma extracted_diagrams (text : jsstring) :
  extracted text =
  Normal (match diagrams text with
          | [] => None
          | _ :: _ => Some (JSON.stringify (diagrams text))
          end).
Proof.
  unfold extracted.
  match goal with |- context [Panel._extractMermaidCode ?d ?w] =>
    destruct (extractMermaidCode_run d w) as [w' [Hrun _]] end.
  rewrite Hrun. reflexivity.
Qed.

Lemma no_fence_included (s : jsstring) :
  includes fence s = false -> split_fence s = None.
Proof.
  induction s as [|c t IH]; intros H; [reflexivity|].
  cbn [includes] in H. apply orb_false_iff in H as [H1 H2].
  cbn [split_fence].
  destruct (strip_prefix fence (c :: t)) as [r|] eqn:Hp.
  - apply strip_prefix_Some in Hp. rewrite Hp in H1. discriminate H1.
  - rewrite (IH H2). reflexivity.
Qed.

(** C2, as the code has it. The extraction does not depend on how the
    two fence lines are written: for every diagram body (the text between
    the line break that ends the opener's line and the closing fence,
    with the line breaks of its own) that does not end in a backtick, a
    block written with a Unix or a Windows line break after the opener,
    with or without spaces and tabs after the opener, with a Unix or a
    Windows line break or none before the closing fence, gives the same
    extraction; when the body holds no fence of its own, the extraction
    is the JSON array of the trimmed body, with the line breaks inside it
    as they are written, or null when the trimmed body is empty. *)
Theorem written_block_extraction
  (body : jsstring) (Hbody : ends_well body)
  (blanks blanks' : list Blank) (first first' : LineEnding)
  (last last' : option LineEnding) :
  extracted (block blanks first body last) =
    extracted (block blanks' first' body last') /\
  (includes fence body = false ->
   extracted (block blanks first body last) =
     Normal (if Panel.nonempty (trim body)
             then Some (JSON.stringify [trim body])
             else None)).
Proof.
  rewrite !extracted_diagrams, !diagrams_of_written by exact Hbody.
  destruct (ending_invariance (length body) body (le_n _) Hbody last last') as [HA _].
  split.
  - rewrite HA. reflexivity.
  - intros Hn. apply no_fence_included in Hn.
    rewrite (after_opening_no_fence body last Hn Hbody).
    unfold keep. destruct (Panel.nonempty (trim body)); reflexivity.
Qed.

Lemma written_block_extraction_witness :
  extracted (block [Space; Tab] Windows (lit "graph TD" ++ [CR; LF] ++ lit "  A-->B") None) =
    extracted (block [] Unix (lit "graph TD" ++ [CR; LF] ++ lit "  A-->B") (Some Unix)) /\
  extracted (block [Space; Tab] Windows (lit "graph TD" ++ [CR; LF] ++ lit "  A-->B") None) =
    Normal (Some (JSON.stringify [lit "graph TD" ++ [CR; LF] ++ lit "  A-->B"])).
Proof.
  assert (H : ends_well (lit "graph TD" ++ [CR; LF] ++ lit "  A-->B"))
    by (vm_compute; discriminate).
  destruct (written_block_extraction (lit "graph TD" ++ [CR; LF] ++ lit "  A-->B") H
              [Space; Tab] [] Windows Unix None (Some Unix)) as [H1 H2].
  split; [exact H1 | exact (H2 eq_refl)].
Defined.

(** C2 as it is worded fails in two ways. A body that ends in a backtick,
    written without a line break before the closing fence, is cut at its
    own backtick: the body [A`] gives another extraction than with the
    line break. And the line breaks inside a body are kept as they are
    written: the same two lines written with Unix line breaks throughout
    and with Windows line breaks throughout give different strings. *)
Lemma written_block_same_diagram_differs :
  extracted (block [] Unix (lit "A`") None) <>
    extracted (block [] Unix (lit "A`") (Some Unix)) /\
  extracted (block [] Unix (lit "graph TD" ++ [LF] ++ lit "A-->B") (Some Unix)) <>
    extracted (block [] Windows (lit "graph TD" ++ [CR; LF] ++ lit "A-->B") (Some Windows)).
Proof. split; vm_compute; discriminate. Qed.

End WrittenClaims.

(* ================================================================== *)
(** * Further properties of the code *)
(* ================================================================== *)

(** ** The blocks of a text *)

Module BlockFacts.
Import Scanner RegexFacts CodeLens.

Lemma find_block_here (text : jsstring) :
  forall s i b rest, skipn i text = s ->
  find_block i s = Some (b, rest) ->
  block_here (skipn (block_start b) text) = Some (block_body b, rest).
Proof.
  induction s as [|c t IH]; intros i b rest Hs; rewrite find_block_eq.
  - destruct (block_here []) as [[body r]|] eqn:Hb; [|discriminate].
    apply block_here_length in Hb. simpl in Hb. lia.
  - destruct (block_here (c :: t)) as [[body r]|] eqn:Hb.
    + intros [= <- <-]. cbn [block_start block_body]. rewrite Hs. exact Hb.
    + apply IH. apply skipn_cons_next with c. exact Hs.
Qed.

Lemma find_block_in (text : jsstring) (i : nat) (b : Block) (rest : jsstring) :
  i <= length text ->
  find_block i (skipn i text) = Some (b, rest) ->
  block_in text i b /\ rest = skipn (block_end b) text.
Proof.
  intros Hi Hb.
  pose proof (find_block_bounds _ _ _ _ Hb) as (H1 & H2 & H3).
  pose proof (find_block_rest text _ _ _ _ eq_refl Hb) as H4.
  pose proof (find_block_here text _ _ _ _ eq_refl Hb) as H5.
  rewrite length_skipn in H3.
  split; [|symmetry; exact H4].
  unfold block_in. rewrite H4. repeat split; try assumption; lia.
Qed.

Lemma block_in_weaken (text : jsstring) (lo lo' : nat) (b : Block) :
  lo' <= lo -> block_in text lo b -> block_in text lo' b.
Proof. unfold block_in. intros H (H1 & H2 & H3 & H4). repeat split; try assumption; lia. Qed.

(** The blocks found from an offset on lie after it, in the text, one
    after the other. *)
Lemma blocks_from_in (text : jsstring) :
  forall fuel i, i <= length text ->
  Forall (block_in text i) (blocks_from fuel i (skipn i text)) /\
  ForallOrdPairs (fun b b' => block_end b <= block_start b')
    (blocks_from fuel i (skipn i text)).
Proof.
  induction fuel as [|f IH]; intros i Hi; cbn [blocks_from].
  - split; constructor.
  - destruct (find_block i (skipn i text)) as [[b rest]|] eqn:Hb.
    + destruct (find_block_in text i b rest Hi Hb) as [Hin ->].
      pose proof Hin as (H1 & H2 & H3 & H4).
      destruct (IH (block_end b) H3) as [IH1 IH2].
      split.
      * constructor; [exact Hin|].
        eapply Forall_impl; [|exact IH1].
        intros b'. apply block_in_weaken. lia.
      * constructor; [|exact IH2].
        eapply Forall_impl; [|exact IH1].
        intros b' Hb'. apply Hb'.
    + split; constructor.
Qed.

Lemma fenced_blocks_in (text : jsstring) :
  Forall (block_in text 0) (fenced_blocks text) /\
  ForallOrdPairs (fun b b' => block_end b <= block_start b') (fenced_blocks text).
Proof.
  unfold fenced_blocks.
  pose proof (blocks_from_in text (length text) 0 (Nat.le_0_l _)) as H.
  exact H.
Qed.

(** The blocks before a block of a sorted list end before it starts. *)
Lemma sorted_before {A : Type} (R : A -> A -> Prop) (l : list A) :
  ForallOrdPairs R l ->
  forall l1 a l2, l = l1 ++ a :: l2 -> Forall (fun x => R x a) l1.
Proof.
  induction 1 as [|x l Hx Hs IH]; intros l1 a l2 E.
  - destruct l1; discriminate.
  - destruct l1 as [|y l1]; [constructor|].
    injection E as -> ->. constructor.
    + rewrite Forall_forall in Hx. apply Hx. apply in_or_app. right. left. reflexivity.
    + apply IH with l2. reflexivity.
Qed.

(** [find] answers the first element that passes. *)
Lemma find_first {A : Type} (f : A -> bool) (l1 : list A) (a : A) (l2 : list A) :
  Forall (fun x => f x = false) l1 -> f a = true ->
  find f (l1 ++ a :: l2) = Some a.
Proof.
  induction 1 as [|x l1 Hx _ IH]; intros Ha; cbn [app find].
  - rewrite Ha. reflexivity.
  - rewrite Hx. apply IH. exact Ha.
Qed.

(** ** Strings *)

Lemma starts_with_app (p s : jsstring) : starts_with p (p ++ s) = true.
Proof.
  induction p as [|a p IH]; [reflexivity|].
  cbn [app starts_with]. rewrite N.eqb_refl. exact IH.
Qed.

Lemma starts_with_Some (p s : jsstring) :
  starts_with p s = true <-> exists r, s = p ++ r.
Proof.
  revert s. induction p as [|a p IH]; intros s; cbn [starts_with].
  - split; [exists s; reflexivity | reflexivity].
  - destruct s as [|b t].
    + split; [discriminate | intros [r E]; discriminate].
    + destruct (N.eqb_spec a b) as [->|Hne]; cbn [andb].
      * rewrite IH. split; intros [r E]; exists r.
        -- rewrite E. reflexivity.
        -- injection E as E. exact E.
      * split; [discriminate | intros [r E]; injection E as E _; congruence].
Qed.

(** [includes]: the pattern stands somewhere in the string. *)
Lemma includes_Some (p s : jsstring) :
  includes p s = true <-> exists a b, s = a ++ p ++ b.
Proof.
  induction s as [|c t IH]; cbn [includes].
  - rewrite orb_false_r, starts_with_Some. split.
    + intros [r E]. exists [], r. exact E.
    + intros [a [b E]]. destruct a; [|discriminate]. exists b. exact E.
  - rewrite orb_true_iff, starts_with_Some, IH. split.
    + intros [[r E] | [a [b E]]].
      * exists [], r. exact E.
      * exists (c :: a), b. rewrite E. reflexivity.
    + intros [a [b E]]. destruct a as [|x a].
      * left. exists b. exact E.
      * right. injection E as _ E. exists a, b. exact E.
Qed.

Lemma includes_inside (p a s b : jsstring) :
  includes p (a ++ s ++ b) = false -> includes p s = false.
Proof.
  intros H. destruct (includes p s) eqn:E; [|reflexivity].
  apply includes_Some in E as [x [y E]].
  assert (H' : includes p (a ++ s ++ b) = true).
  { apply includes_Some. exists (a ++ x), (y ++ b). rewrite E.
    rewrite <- !app_assoc. reflexivity. }
  congruence.
Qed.

Lemma trimStart_split (s : jsstring) :
  exists o, s = o ++ trimStart s /\ forallb is_space o = true.
Proof.
  induction s as [|c t [o [E F]]]; cbn [trimStart].
  - exists []. split; reflexivity.
  - destruct (is_space c) eqn:Hc.
    + exists (c :: o). cbn [app forallb]. rewrite Hc, F, <- E. split; reflexivity.
    + exists []. split; reflexivity.
Qed.

Lemma trimEnd_split (s : jsstring) :
  exists o, s = trimEnd s ++ o /\ forallb is_space o = true.
Proof.
  unfold trimEnd. destruct (trimStart_split (rev s)) as [o [E F]].
  exists (rev o). split.
  - rewrite <- rev_app_distr, <- E, rev_involutive. reflexivity.
  - rewrite WrittenFacts.forallb_rev. exact F.
Qed.

(** [trim] takes blanks off the two ends. *)
Lemma trim_split (s : jsstring) :
  exists a b, s = a ++ trim s ++ b /\
    forallb is_space a = true /\ forallb is_space b = true.
Proof.
  unfold trim. destruct (trimStart_split s) as [a [Ea Fa]].
  destruct (trimEnd_split (trimStart s)) as [b [Eb Fb]].
  exists a, b. rewrite <- Eb, <- Ea. repeat split; assumption.
Qed.

Lemma trimStart_head (s : jsstring) (c : code_unit) (t : jsstring) :
  trimStart s = c :: t -> is_space c = false.
Proof.
  induction s as [|x s IH]; cbn [trimStart]; [discriminate|].
  destruct (is_space x) eqn:Hx; [exact IH|].
  intros [= -> _]. exact Hx.
Qed.

Lemma trimStart_fixed (s : jsstring) : trimStart (trimStart s) = trimStart s.
Proof.
  destruct (trimStart s) as [|c t] eqn:E; [reflexivity|].
  apply trimStart_head in E. cbn [trimStart]. rewrite E. reflexivity.
Qed.

Lemma trimEnd_fixed (s : jsstring) : trimEnd (trimEnd s) = trimEnd s.
Proof. unfold trimEnd. rewrite rev_involutive, trimStart_fixed. reflexivity. Qed.

(** Trimming the end of a string whose start is trimmed keeps the start
    trimmed. *)
Lemma trimStart_trimEnd (s : jsstring) :
  trimStart s = s -> trimStart (trimEnd s) = trimEnd s.
Proof.
  intros H. destruct (trimEnd s) as [|c t] eqn:E; [reflexivity|].
  destruct (trimEnd_split s) as [o [Eo _]]. rewrite E in Eo.
  destruct s as [|x s']; [discriminate|].
  injection Eo as -> _.
  apply trimStart_head in H. cbn [trimStart]. rewrite H. reflexivity.
Qed.

(** [trim] of a trimmed string is the string. *)
Lemma trim_fixed (s : jsstring) : trim (trim s) = trim s.
Proof.
  unfold trim.
  rewrite (trimStart_trimEnd (trimStart s) (trimStart_fixed s)).
  apply trimEnd_fixed.
Qed.

(** The body of a block holds no fence. *)
Lemma find_close_no_fence :
  forall s body r, find_close s = Some (body, r) -> includes fence body = false.
Proof.
  induction s as [|c t IH]; intros body r; cbn [find_close].
  - destruct (close_here []); [|discriminate]. intros [= <- _]. reflexivity.
  - destruct (close_here (c :: t)) as [r'|] eqn:Hc.
    + intros [= <- _]. reflexivity.
    + destruct (find_close t) as [[b r']|] eqn:Ht; [|discriminate].
      intros [= <- <-]. cbn [includes]. rewrite (IH b r' eq_refl), orb_false_r.
      destruct (starts_with fence (c :: b)) eqn:Hs; [|reflexivity].
      apply starts_with_Some in Hs as [x Hx].
      apply find_close_split in Ht as [cl [Et _]].
      assert (Hp : strip_prefix fence (c :: t) = Some (x ++ cl ++ r')).
      { apply strip_prefix_Some. rewrite Et.
        change (c :: b ++ cl ++ r') with ((c :: b) ++ cl ++ r').
        rewrite Hx, <- !app_assoc. reflexivity. }
      apply WrittenFacts.fence_closes in Hp. congruence.
Qed.

Lemma block_here_no_fence (s body r : jsstring) :
  block_here s = Some (body, r) -> includes fence body = false.
Proof.
  unfold block_here. destruct (open_fence s) as [r0|]; [|discriminate].
  apply find_close_no_fence.
Qed.

(** The body of a block stands in the text. *)
Lemma block_body_inside (text : jsstring) (lo : nat) (b : Block) :
  block_in text lo b -> exists pre post, text = pre ++ block_body b ++ post.
Proof.
  intros (_ & _ & _ & H).
  apply block_here_Some in H as [ws [nl [cl [E _]]]].
  exists (firstn (block_start b) text ++ opener ++ ws ++ nl),
         (cl ++ skipn (block_end b) text).
  rewrite <- (firstn_skipn (block_start b) text) at 1. rewrite E.
  rewrite <- !app_assoc. reflexivity.
Qed.

End BlockFacts.

(** ** Code lenses *)

Module CodeLensFacts.
Import Scanner RegexFacts CodeLens BlockFacts.

(** The pattern of the lenses at one position: the opening fence. *)
Lemma rmatch_lens (s : jsstring) :
  rmatch CodeLens.mermaidRegex (s, None) =
  match open_fence s with
  | Some r => [(r, None)]
  | None => []
  end.
Proof.
  unfold CodeLens.mermaidRegex, open_fence. rewrite rmatch_RLit.
  destruct (strip_prefix opener s) as [r0|]; [|reflexivity].
  rewrite rmatch_seq, rmatch_star. cbn [fst].
  rewrite star_greedy_class by lia.
  rewrite after_greedy_class.
  - fold (skip_hspace r0). apply rmatch_newline.
  - intros c t Hc. rewrite rmatch_newline, (hspace_not_newline c t Hc). reflexivity.
Qed.

Lemma match_here_lens (i : nat) (s : jsstring) :
  match_here CodeLens.mermaidRegex i s =
  match open_fence s with
  | Some r => Some (mkMatch i (firstn (length s - length r) s) None)
  | None => None
  end.
Proof.
  unfold match_here. rewrite rmatch_lens.
  destruct (open_fence s) as [r|]; reflexivity.
Qed.

(** How an opening fence is written. *)
Lemma open_fence_Some (s r : jsstring) :
  open_fence s = Some r <->
  exists ws nl, s = opener ++ ws ++ nl ++ r /\
    forallb class_hspace ws = true /\ (nl = [LF] \/ nl = [CR; LF]).
Proof.
  unfold open_fence. split.
  - destruct (strip_prefix opener s) as [r0|] eqn:H0; [|discriminate].
    intros H1. apply strip_prefix_Some in H0.
    destruct (skip_while_split class_hspace r0) as [ws [E F]]. fold (skip_hspace r0) in E.
    apply strip_newline_Some in H1.
    destruct H1 as [H1 | H1]; exists ws; [exists [LF] | exists [CR; LF]];
      subst s; rewrite E at 1; rewrite H1; repeat split; auto.
  - intros [ws [nl [-> [F Hnl]]]].
    assert (E : strip_prefix opener (opener ++ ws ++ nl ++ r) = Some (ws ++ nl ++ r))
      by (apply strip_prefix_Some; reflexivity).
    rewrite E. unfold skip_hspace.
    assert (Hs : skip_while class_hspace (ws ++ nl ++ r) = nl ++ r).
    { clear E. induction ws as [|c ws IH].
      - destruct Hnl as [-> | ->]; reflexivity.
      - cbn [forallb] in F. apply andb_true_iff in F as [Hc F].
        cbn [app skip_while]. rewrite Hc. apply IH. exact F. }
    rewrite Hs. apply strip_newline_Some.
    destruct Hnl as [-> | ->]; [left | right]; reflexivity.
Qed.

Lemma open_fence_not_backtick (c : code_unit) (t : jsstring) :
  c <> BACKTICK -> open_fence (c :: t) = None.
Proof.
  intros H. unfold open_fence. cbn [opener lit strip_prefix].
  destruct (N.eqb_spec c (of_ascii "`"%char)); [contradiction | reflexivity].
Qed.

Lemma openings_cons (i : nat) (c : code_unit) (t : jsstring) :
  open_fence (c :: t) = None -> openings i (c :: t) = openings (S i) t.
Proof. intros H. cbn [openings]. rewrite H. reflexivity. Qed.

Lemma openings_blanks (ws : jsstring) :
  forall i x, forallb class_hspace ws = true ->
  openings i (ws ++ x) = openings (length ws + i) x.
Proof.
  induction ws as [|c ws IH]; intros i x F; [reflexivity|].
  cbn [forallb] in F. apply andb_true_iff in F as [Hc F].
  cbn [app length]. rewrite openings_cons.
  - rewrite IH by exact F. f_equal. lia.
  - apply open_fence_not_backtick. apply WrittenFacts.hspace_not_backtick. exact Hc.
Qed.

(** No opening fence stands inside an opening fence. *)
Lemma openings_after (i : nat) (s r : jsstring) :
  open_fence s = Some r ->
  openings i s = i :: openings (i + (length s - length r)) r.
Proof.
  intros H. pose proof H as H'. apply open_fence_Some in H' as [ws [nl [E [F Hnl]]]].
  assert (El : length s - length r = 10 + length ws + length nl).
  { rewrite E, !length_app. change (length opener) with 10. lia. }
  rewrite El. destruct s as [|c t]; [discriminate|].
  cbn [openings]. rewrite H. cbn [app]. f_equal.
  injection E as _ ->.
  do 9 (rewrite openings_cons by reflexivity).
  rewrite openings_blanks by exact F.
  destruct Hnl as [-> | ->]; cbn [app length].
  - rewrite openings_cons by reflexivity. f_equal. lia.
  - do 2 (rewrite openings_cons by reflexivity). f_equal. lia.
Qed.

(** [exec] finds the first opening fence at or after its start. *)
Lemma exec_from_lens :
  forall s i,
  match exec_from CodeLens.mermaidRegex i s with
  | Some m =>
      exists k r, open_fence (skipn k s) = Some r /\ k <= length s /\
        m = mkMatch (i + k) (firstn (length (skipn k s) - length r) (skipn k s)) None /\
        openings i s = openings (i + k) (skipn k s)
  | None => openings i s = []
  end.
Proof.
  induction s as [|c t IH]; intros i; cbn [exec_from]; rewrite match_here_lens.
  - reflexivity.
  - destruct (open_fence (c :: t)) as [r|] eqn:Ho.
    + exists 0, r. rewrite Nat.add_0_r. cbn [skipn length].
      repeat split; try assumption; lia.
    + specialize (IH (S i)).
      destruct (exec_from CodeLens.mermaidRegex (S i) t) as [m|].
      * destruct IH as [k [r (H1 & H2 & H3 & H4)]].
        exists (S k), r. cbn [skipn length].
        replace (i + S k) with (S i + k) by lia.
        repeat split; try assumption; [lia|].
        rewrite openings_cons by exact Ho. exact H4.
      * rewrite openings_cons by exact Ho. exact IH.
Qed.

Lemma openings_nil (i : nat) : openings i [] = [].
Proof. reflexivity. Qed.

(** The loop of [provideCodeLenses] ends, with a lens at every opening
    fence from [lastIndex] on. *)
Lemma lenses_loop_openings (document : Document) :
  forall fuel i codeLenses,
  i <= length (getText (text_document document)) ->
  length (getText (text_document document)) - i < fuel ->
  lenses_loop fuel document i codeLenses =
  Normal (codeLenses ++
          map (lens_at document) (openings i (skipn i (getText (text_document document))))).
Proof.
  set (text := getText (text_document document)).
  induction fuel as [|f IH]; intros i acc Hi Hf; [lia|].
  cbn [lenses_loop]. fold text. unfold exec.
  destruct (Nat.ltb_spec (length text) i) as [Hlt|_]; [lia|].
  pose proof (exec_from_lens (skipn i text) i) as He.
  destruct (exec_from CodeLens.mermaidRegex i (skipn i text)) as [m|].
  - destruct He as [k [r (H1 & H2 & -> & H4)]].
    rewrite H4, (openings_after _ _ _ H1).
    rewrite length_skipn in H2.
    pose proof H1 as H1'. apply open_fence_Some in H1' as [ws [nl [E [F Hnl]]]].
    set (a := opener ++ ws ++ nl).
    assert (Ea : skipn k (skipn i text) = a ++ r)
      by (rewrite E; unfold a; rewrite <- !app_assoc; reflexivity).
    assert (La : 11 <= length a).
    { unfold a. rewrite !length_app. change (length opener) with 10.
      destruct Hnl as [-> | ->]; cbn [length]; lia. }
    assert (Ll : length text - i - k = length a + length r).
    { rewrite <- !length_skipn, Ea, length_app. reflexivity. }
    rewrite Ea, length_app, Nat.add_sub.
    unfold end_index. cbn [index matched].
    rewrite firstn_app, Nat.sub_diag, firstn_all. cbn [firstn]. rewrite app_nil_r.
    rewrite IH by lia.
    assert (Er : skipn (i + k + length a) text = r).
    { replace (i + k + length a) with (length a + (k + i)) by lia.
      rewrite <- !skipn_skipn, Ea, skipn_app, Nat.sub_diag, skipn_all. reflexivity. }
    rewrite Er, <- app_assoc. reflexivity.
  - rewrite He. cbn [map]. rewrite app_nil_r. reflexivity.
Qed.

Lemma provideCodeLenses_run (document : Document) :
  provideCodeLenses document =
  Normal (map (lens_at document) (openings 0 (getText (text_document document)))).
Proof.
  unfold provideCodeLenses. rewrite lenses_loop_openings by (cbn [length]; lia).
  reflexivity.
Qed.

(** The openings are the offsets at which an opening fence stands. *)
Lemma In_openings :
  forall s i j,
  In j (openings i s) <->
  exists k, j = i + k /\ k <= length s /\ open_fence (skipn k s) <> None.
Proof.
  induction s as [|c t IH]; intros i j.
  - cbn [openings app]. split; [intros []|].
    intros [k (_ & Hk & H)]. destruct k; [|simpl in Hk; lia]. apply H. reflexivity.
  - cbn [openings]. rewrite in_app_iff, IH. split.
    + intros [H | [k (-> & Hk & H)]].
      * destruct (open_fence (c :: t)) eqn:Ho; [|destruct H].
        destruct H as [<-|[]]. exists 0. rewrite Nat.add_0_r.
        cbn [skipn length]. rewrite Ho. repeat split; [lia | discriminate].
      * exists (S k). cbn [skipn length]. repeat split; [lia | lia | exact H].
    + intros [k (-> & Hk & H)]. destruct k as [|k].
      * left. cbn [skipn] in H. destruct (open_fence (c :: t)); [|contradiction].
        left. lia.
      * right. exists k. cbn [skipn length] in *. repeat split; [lia | lia | exact H].
Qed.

Lemma openings_ascend :
  forall s i, Forall (fun j => i <= j) (openings i s) /\ ForallOrdPairs lt (openings i s).
Proof.
  induction s as [|c t IH]; intros i.
  - split; constructor.
  - destruct (IH (S i)) as [H1 H2]. cbn [openings].
    assert (H1' : Forall (fun j => i < j) (openings (S i) t))
      by (eapply Forall_impl; [|exact H1]; intros; cbn beta in *; lia).
    destruct (open_fence (c :: t)); cbn [app].
    + split.
      * constructor; [lia|]. eapply Forall_impl; [|exact H1']. intros; cbn beta in *; lia.
      * constructor; assumption.
    + split; [|exact H2].
      eapply Forall_impl; [|exact H1']. intros; cbn beta in *; lia.
Qed.

(** A block starts at an opening fence. *)
Lemma block_start_opening (text : jsstring) (lo : nat) (b : Block) :
  block_in text lo b -> In (block_start b) (openings 0 text).
Proof.
  intros (_ & H2 & H3 & H4). apply In_openings.
  exists (block_start b). repeat split; [lia|].
  unfold block_here in H4.
  destruct (open_fence (skipn (block_start b) text)); [discriminate | discriminate H4].
Qed.

(** The lines of the editor's text model ascend. *)
Lemma line_of_ascends (text : jsstring) : lines_ascend (document_of text).
Proof.
  unfold lines_ascend, document_of. cbn [positionAt_line].
  induction text as [|c t IH]; intros i j Hij.
  - destruct i, j; cbn [line_of]; lia.
  - destruct i as [|i]; [cbn [line_of]; lia|].
    destruct j as [|j]; [lia|].
    specialize (IH i j ltac:(lia)). cbn [line_of].
    destruct (c =? LF)%N; [lia|].
    destruct (c =? CR)%N; [|exact IH].
    destruct t as [|d t']; [lia|].
    destruct (d =? LF)%N; lia.
Qed.

End CodeLensFacts.

(** ** What a render puts on the page *)

Module PageFacts.
Import Scanner RegexFacts CodeLens BlockFacts Panel.
Local Open Scope string_scope.
Local Open Scope nat_scope.
Local Open Scope list_scope.

Lemma found_stringify (a : list jsstring) :
  found (Some (JSON.stringify a)) = Some (JSON.stringify a).
Proof. reflexivity. Qed.

(** The page after [_renderSingle]. *)
Lemma renderSingle_html (l : Z) (o : option string) (w : World) (d : TextDocument) :
  _currentDocument w = Some d ->
  html (snd (_renderSingle l o w)) =
  match find (hit d l) (fenced_blocks (getText d)) with
  | Some b =>
      DiagramHtml (JSON.stringify [trim (block_body b)])
        (fst (resolveTheme (config w) (activeColorTheme w) o))
        (Some (snd (resolveTheme (config w) (activeColorTheme w) o)))
  | None => ErrorHtml "No Mermaid diagram found at this position."
  end.
Proof.
  intros Hd. unfold _renderSingle, bind at 1, get. rewrite Hd.
  unfold bind at 1. rewrite extractMermaidCodeAtLine_run.
  destruct (find (hit d l) (fenced_blocks (getText d))) as [b|]; cbn [option_map].
  - rewrite found_stringify. reflexivity.
  - reflexivity.
Qed.

(** The page after [_renderAll]. *)
Lemma renderAll_html (o : option string) (w : World) (d : TextDocument) :
  _currentDocument w = Some d ->
  html (snd (_renderAll o w)) =
  match diagrams (getText d) with
  | [] =>
      ErrorHtml "No Mermaid diagram found. Wrap your diagram in ```mermaid code blocks."
  | _ :: _ =>
      DiagramHtml (JSON.stringify (diagrams (getText d)))
        (fst (resolveTheme (config w) (activeColorTheme w) o))
        (Some (snd (resolveTheme (config w) (activeColorTheme w) o)))
  end.
Proof.
  intros Hd. unfold _renderAll, bind at 1, get. rewrite Hd.
  unfold bind at 1.
  destruct (extractMermaidCode_run d w) as [w' [Hrun Hlog]]. rewrite Hrun.
  destruct Hlog as (_ & _ & _ & _ & _ & _ & _ & _ & Hc & Hk).
  destruct (diagrams (getText d)) as [|x ds]; [reflexivity|].
  rewrite found_stringify. unfold show_diagrams, bind, _resolveTheme.
  cbn [set_html snd html fst]. rewrite Hc, Hk. reflexivity.
Qed.

(** The page of a panel that was just opened. *)
Lemma createOrShowSingle_html (cfg : Configuration) (kind : ColorThemeKind)
  (log : list LogEntry) (d : TextDocument) (l : Z) :
  html (createOrShowSingle cfg kind log d l) =
  match find (hit d l) (fenced_blocks (getText d)) with
  | Some b =>
      DiagramHtml (JSON.stringify [trim (block_body b)])
        (fst (resolveTheme cfg kind None)) (Some (snd (resolveTheme cfg kind None)))
  | None => ErrorHtml "No Mermaid diagram found at this position."
  end.
Proof.
  unfold createOrShowSingle, construct, _render, bind, get.
  cbn [_mode _singleLine fst snd].
  rewrite renderSingle_html with (d := d) by reflexivity. reflexivity.
Qed.

Lemma createOrShow_html (cfg : Configuration) (kind : ColorThemeKind)
  (log : list LogEntry) (d : TextDocument) :
  html (createOrShow cfg kind log d) =
  match diagrams (getText d) with
  | [] =>
      ErrorHtml "No Mermaid diagram found. Wrap your diagram in ```mermaid code blocks."
  | _ :: _ =>
      DiagramHtml (JSON.stringify (diagrams (getText d)))
        (fst (resolveTheme cfg kind None)) (Some (snd (resolveTheme cfg kind None)))
  end.
Proof.
  unfold createOrShow, construct, _render, bind, get.
  cbn [_mode _singleLine fst snd].
  rewrite renderAll_html with (d := d) by reflexivity. reflexivity.
Qed.

(** The diagrams of a text are trimmed bodies of its blocks. *)
Lemma In_diagrams (text d : jsstring) :
  In d (diagrams text) <->
  exists b, In b (fenced_blocks text) /\ d = trim (block_body b) /\ d <> [].
Proof.
  unfold diagrams. rewrite filter_In, in_map_iff. split.
  - intros [[b [<- Hb]] Hn]. exists b. repeat split; [exact Hb|].
    intros E. rewrite E in Hn. discriminate.
  - intros [b (Hb & -> & Hn)]. split; [exists b; split; [reflexivity | exact Hb]|].
    destruct (trim (block_body b)); [contradiction | reflexivity].
Qed.

Lemma trimmed_body_clean (text : jsstring) (b : Block) :
  In b (fenced_blocks text) -> trim (block_body b) <> [] ->
  clean text (trim (block_body b)).
Proof.
  intros Hb Hn.
  destruct (fenced_blocks_in text) as [Hin _]. rewrite Forall_forall in Hin.
  specialize (Hin b Hb).
  destruct (trim_split (block_body b)) as [x [y (E & _ & _)]].
  unfold clean. split; [exact Hn|]. split; [apply trim_fixed|]. split.
  - apply includes_inside with x y. rewrite <- E.
    destruct Hin as (_ & _ & _ & H). apply block_here_no_fence in H. exact H.
  - destruct (block_body_inside text 0 b Hin) as [pre [post Et]].
    exists (pre ++ x), (y ++ post). rewrite Et at 1. rewrite E at 1.
    rewrite <- !app_assoc. reflexivity.
Qed.

Lemma diagrams_clean (text : jsstring) : Forall (clean text) (diagrams text).
Proof.
  apply Forall_forall. intros d Hd. apply In_diagrams in Hd as [b (Hb & -> & Hn)].
  apply trimmed_body_clean; assumption.
Qed.

Lemma find_hit (document : TextDocument) (l : Z) (b : Block) :
  find (hit document l) (fenced_blocks (getText document)) = Some b ->
  In b (fenced_blocks (getText document)) /\ spans document b l = true /\
  trim (block_body b) <> [].
Proof.
  intros H. apply find_some in H as [Hin Hhit].
  unfold hit in Hhit. apply andb_true_iff in Hhit as [Hs Hn].
  repeat split; try assumption. intros E. rewrite E in Hn. discriminate.
Qed.

(** With no opening fence in the text there is no block. *)
Lemma no_opener_no_block (text : jsstring) :
  includes opener text = false -> fenced_blocks text = [].
Proof.
  intros H. destruct (fenced_blocks text) as [|b bs] eqn:E; [reflexivity|].
  destruct (fenced_blocks_in text) as [Hin _]. rewrite E in Hin.
  inversion Hin as [|? ? (_ & _ & _ & Hb) _]; subst.
  apply block_here_Some in Hb as [ws [nl [cl [Eb _]]]].
  assert (Hi : includes opener text = true).
  { apply includes_Some. exists (firstn (block_start b) text), (ws ++ nl ++ block_body b ++ cl ++ skipn (block_end b) text).
    rewrite <- Eb. symmetry. apply firstn_skipn. }
  congruence.
Qed.

End PageFacts.

Section LensProperties.
Import Scanner RegexFacts BlockFacts CodeLensFacts.
Local Open Scope string_scope.
Local Open Scope nat_scope.
Local Open Scope list_scope.

(** X1. [provideCodeLenses] ends on every document and answers one lens
    for every offset at which an opening fence stands ([```mermaid],
    blanks other than line breaks, one line break), in the order of the
    text and each offset once; the lens sits at the position of the
    offset and carries the command [mermaid-preview.showDiagramAtPosition]
    with the document's uri and the line of that position. *)
Theorem provideCodeLenses_at_every_opening (document : CodeLens.Document) :
  let text := getText (CodeLens.text_document document) in
  let offsets := CodeLens.openings 0 text in
  CodeLens.provideCodeLenses document = Normal (map (CodeLens.lens_at document) offsets) /\
  (forall j, In j offsets <->
     j <= length text /\
     exists ws nl rest,
       skipn j text = opener ++ ws ++ nl ++ rest /\
       forallb class_hspace ws = true /\ (nl = [LF] \/ nl = [CR; LF])) /\
  ForallOrdPairs lt offsets /\
  (forall j,
     let lens := CodeLens.lens_at document j in
     CodeLens.range lens = (CodeLens.positionAt document j, CodeLens.positionAt document j) /\
     CodeLens.title (CodeLens.lens_command lens) = "Preview Diagram"%string /\
     CodeLens.command (CodeLens.lens_command lens) =
       "mermaid-preview.showDiagramAtPosition"%string /\
     CodeLens.arguments (CodeLens.lens_command lens) =
       (CodeLens.uri document, positionAt_line (CodeLens.text_document document) j)).
Proof.
  intros text offsets. subst offsets. split; [apply provideCodeLenses_run|].
  split; [|split; [apply openings_ascend | intros j; repeat split]].
  intros j. rewrite In_openings. cbn [plus]. split.
  - intros [k (-> & Hk & H)]. split; [exact Hk|].
    destruct (open_fence (skipn k text)) as [r|] eqn:Ho; [|contradiction].
    apply open_fence_Some in Ho as [ws [nl [E Hw]]]. exists ws, nl, r. split; [exact E | exact Hw].
  - intros [Hj [ws [nl [rest [E Hw]]]]]. exists j. repeat split; [exact Hj|].
    assert (Ho : open_fence (skipn j text) = Some rest).
    { apply open_fence_Some. exists ws, nl. split; [exact E | exact Hw]. }
    rewrite Ho. discriminate.
Qed.

(** X2. Every fenced block [_extractMermaidCode] finds has a lens: for
    each match of the panel's pattern on the text of a document,
    [provideCodeLenses] answers a lens at the position where the match
    starts. *)
Theorem every_match_has_a_lens (document : CodeLens.Document) :
  exists matches lenses,
    matchAll mermaidRegex (getText (CodeLens.text_document document)) = Some matches /\
    CodeLens.provideCodeLenses document = Normal lenses /\
    forall m, In m matches -> In (CodeLens.lens_at document (index m)) lenses.
Proof.
  rewrite matchAll_mermaid, provideCodeLenses_run.
  eexists. eexists. split; [reflexivity|]. split; [reflexivity|].
  intros m Hm. apply in_map_iff in Hm as [b [<- Hb]].
  apply in_map. cbn [to_match index].
  destruct (fenced_blocks_in (getText (CodeLens.text_document document))) as [Hin _].
  rewrite Forall_forall in Hin.
  apply block_start_opening with 0. apply Hin. exact Hb.
Qed.

(** X3. A lens above a block with a diagram opens that diagram: when the
    lines of a document ascend with its offsets, the lens at the start of
    a fenced block whose trimmed body is not empty is among the lenses,
    and [createOrShowSingle] with the line the lens carries shows the
    page of one diagram, never the error page; the diagram shown is the
    trimmed body of a block that spans the line, and it is the body of
    the block under the lens when every earlier block ends on an
    earlier line. *)
Theorem lens_opens_a_diagram
  (document : CodeLens.Document) (b : Block)
  (cfg : Configuration) (kind : ColorThemeKind) (log : list LogEntry)
  (Hlines : CodeLens.lines_ascend (CodeLens.text_document document))
  (Hb : In b (fenced_blocks (getText (CodeLens.text_document document))))
  (Hbody : trim (block_body b) <> []) :
  let d := CodeLens.text_document document in
  let blocks := fenced_blocks (getText d) in
  let lens := CodeLens.lens_at document (block_start b) in
  let lineNumber := Z.of_nat (snd (CodeLens.arguments (CodeLens.lens_command lens))) in
  exists lenses shown,
    CodeLens.provideCodeLenses document = Normal lenses /\ In lens lenses /\
    In shown blocks /\ trim (block_body shown) <> [] /\
    spans d shown lineNumber = true /\
    Panel.html (Panel.createOrShowSingle cfg kind log d lineNumber) =
      DiagramHtml (JSON.stringify [trim (block_body shown)])
        (fst (Panel.resolveTheme cfg kind None))
        (Some (snd (Panel.resolveTheme cfg kind None))) /\
    ((forall b0, In b0 blocks -> block_end b0 <= block_start b ->
        positionAt_line d (block_end b0) < positionAt_line d (block_start b)) ->
     shown = b).
Proof.
  intros d blocks lens lineNumber.
  destruct (fenced_blocks_in (getText d)) as [Hin Hsorted]. fold blocks in Hin, Hsorted.
  rewrite Forall_forall in Hin. pose proof (Hin b Hb) as Hbin.
  assert (Hhit : hit d lineNumber b = true).
  { unfold hit, spans. subst lineNumber lens. cbn [CodeLens.lens_at CodeLens.lens_command
      CodeLens.arguments snd CodeLens.positionAt CodeLens.line]. fold d.
    rewrite Z.leb_refl. cbn [andb].
    apply andb_true_iff. split.
    - apply Z.leb_le. apply Nat2Z.inj_le. apply Hlines.
      destruct Hbin as (_ & H & _). lia.
    - unfold Panel.nonempty. destruct (trim (block_body b)); [contradiction | reflexivity]. }
  destruct (find (hit d lineNumber) blocks) as [shown|] eqn:Hf.
  2:{ pose proof (find_none _ _ Hf b Hb). congruence. }
  exists (map (CodeLens.lens_at document) (CodeLens.openings 0 (getText d))), shown.
  split; [apply provideCodeLenses_run|].
  split; [apply in_map; apply block_start_opening with 0; exact Hbin|].
  destruct (PageFacts.find_hit d lineNumber shown Hf) as (H1 & H2 & H3).
  split; [exact H1|]. split; [exact H3|]. split; [exact H2|]. split.
  - rewrite PageFacts.createOrShowSingle_html. fold blocks. rewrite Hf. reflexivity.
  - intros Hbefore.
    destruct (in_split b blocks Hb) as [l1 [l2 E]].
    pose proof (sorted_before _ blocks Hsorted l1 b l2 E) as Hl1.
    assert (Hfirst : find (hit d lineNumber) (l1 ++ b :: l2) = Some b).
    { apply find_first; [|exact Hhit].
      apply Forall_forall. intros x Hx.
      rewrite Forall_forall in Hl1. specialize (Hl1 x Hx). cbn beta in Hl1.
      assert (Hxin : In x blocks) by (rewrite E; apply in_or_app; left; exact Hx).
      specialize (Hbefore x Hxin Hl1).
      unfold hit, spans. subst lineNumber lens. cbn [CodeLens.lens_at CodeLens.lens_command
        CodeLens.arguments snd CodeLens.positionAt CodeLens.line]. fold d.
      replace (Z.of_nat (positionAt_line d (block_start b)) <=?
               Z.of_nat (positionAt_line d (block_end x)))%Z with false
        by (symmetry; apply Z.leb_gt; lia).
      rewrite andb_false_r. reflexivity. }
    rewrite <- E in Hfirst. congruence.
Qed.

Lemma lens_opens_a_diagram_witness :
  let document :=
    CodeLens.mkLensDocument "file:///a.md"
      (document_of (opener ++ [LF] ++ lit "graph TD" ++ [LF] ++ fence)) (fun i => i) in
  let b := mkBlock 0 23 (lit "graph TD") in
  let d := CodeLens.text_document document in
  let blocks := fenced_blocks (getText d) in
  let lens := CodeLens.lens_at document (block_start b) in
  let lineNumber := Z.of_nat (snd (CodeLens.arguments (CodeLens.lens_command lens))) in
  exists lenses shown,
    CodeLens.provideCodeLenses document = Normal lenses /\ In lens lenses /\
    In shown blocks /\ trim (block_body shown) <> [] /\
    spans d shown lineNumber = true /\
    Panel.html (Panel.createOrShowSingle (mkConfig None None None None) Light [] d
                  lineNumber) =
      DiagramHtml (JSON.stringify [trim (block_body shown)])
        (fst (Panel.resolveTheme (mkConfig None None None None) Light None))
        (Some (snd (Panel.resolveTheme (mkConfig None None None None) Light None))) /\
    ((forall b0, In b0 blocks -> block_end b0 <= block_start b ->
        positionAt_line d (block_end b0) < positionAt_line d (block_start b)) ->
     shown = b).
Proof.
  intros document b.
  refine (lens_opens_a_diagram document b (mkConfig None None None None) Light [] _ _ _).
  - apply line_of_ascends.
  - vm_compute. left. reflexivity.
  - vm_compute. discriminate.
Defined.

(** X4. What the two extractions hand on is clean: every diagram in the
    array [_extractMermaidCode] answers, and the one diagram
    [_extractMermaidCodeAtLine] answers, is not empty, has no white space
    at either end, holds no [```] and stands in the text of the document
    as it is; the array is never empty. *)
Theorem extracted_diagrams_are_clean
  (document : TextDocument) (lineNumber : Z) (w : Panel.World) :
  (forall json, fst (Panel._extractMermaidCode document w) = Normal (Some json) ->
     exists ds, json = JSON.stringify ds /\ ds <> [] /\
       Forall (CodeLens.clean (getText document)) ds) /\
  (forall json,
     fst (Panel._extractMermaidCodeAtLine document lineNumber w) = Normal (Some json) ->
     exists d, json = JSON.stringify [d] /\ CodeLens.clean (getText document) d).
Proof.
  split; intros json.
  - destruct (extractMermaidCode_run document w) as [w' [Hrun _]]. rewrite Hrun.
    cbn [fst]. pose proof (PageFacts.diagrams_clean (getText document)) as Hc.
    destruct (diagrams (getText document)) as [|x ds]; [discriminate|].
    intros [= <-]. exists (x :: ds). repeat split; [discriminate | exact Hc].
  - rewrite extractMermaidCodeAtLine_run. cbn [fst].
    destruct (find _ _) as [b|] eqn:Hf; [|discriminate].
    cbn [option_map]. intros [= <-].
    apply PageFacts.find_hit in Hf as (H1 & _ & H3).
    exists (trim (block_body b)). split; [reflexivity|].
    apply PageFacts.trimmed_body_clean; assumption.
Qed.

(** X5. The matches of the panel's pattern on a text lie in the text one
    after the other without overlap: each match starts at or after the
    end of the one before, ends within the text, is the part of the text
    at its index, is at least fourteen characters long (the two fences
    and a line break), and its group 1 took part in the match, so
    [match[1].trim()] never throws. *)
Theorem matches_do_not_overlap (text : jsstring) :
  exists matches,
    matchAll mermaidRegex text = Some matches /\
    ForallOrdPairs (fun m m' => end_index m <= index m') matches /\
    Forall (fun m =>
              14 <= length (matched m) /\ end_index m <= length text /\
              matched m = firstn (length (matched m)) (skipn (index m) text) /\
              exists body, group1 m = Some body /\
                           Panel.trimmed_group m = Normal (trim body)) matches.
Proof.
  rewrite matchAll_mermaid. eexists. split; [reflexivity|].
  destruct (fenced_blocks_in text) as [Hin Hsorted].
  assert (Hend : forall b, In b (fenced_blocks text) ->
                           end_index (to_match b text) = block_end b).
  { rewrite Forall_forall in Hin. intros b Hb.
    destruct (Hin b Hb) as (_ & H2 & H3 & _). apply to_match_end; lia. }
  split.
  - induction Hsorted as [|b l Hb Hs IH]; cbn [map]; constructor.
    + apply Forall_forall. intros m Hm. apply in_map_iff in Hm as [b' [<- Hb']].
      rewrite Hend by (left; reflexivity). cbn [to_match index].
      rewrite Forall_forall in Hb. apply Hb. exact Hb'.
    + apply IH.
      * inversion Hin; assumption.
      * intros b' Hb'. apply Hend. right. exact Hb'.
  - apply Forall_forall. intros m Hm. apply in_map_iff in Hm as [b [<- Hb]].
    rewrite (Hend b Hb). rewrite Forall_forall in Hin.
    destruct (Hin b Hb) as (_ & H2 & H3 & _).
    cbn [to_match matched index group1].
    assert (Hl : length (firstn (block_end b - block_start b)
                           (skipn (block_start b) text)) = block_end b - block_start b)
      by (rewrite length_firstn, length_skipn; lia).
    rewrite Hl. repeat split; [lia | lia |].
    exists (block_body b). split; reflexivity.
Qed.

(** X6. A text without [```mermaid] gives nothing: no lens, null from
    [_extractMermaidCode], null from [_extractMermaidCodeAtLine] at every
    line, and the error page of each kind of panel. *)
Theorem no_opening_fence_nothing_found
  (document : CodeLens.Document) (lineNumber : Z) (w : Panel.World)
  (cfg : Configuration) (kind : ColorThemeKind) (log : list LogEntry)
  (Hnone : includes opener (getText (CodeLens.text_document document)) = false) :
  let d := CodeLens.text_document document in
  CodeLens.provideCodeLenses document = Normal [] /\
  fst (Panel._extractMermaidCode d w) = Normal None /\
  fst (Panel._extractMermaidCodeAtLine d lineNumber w) = Normal None /\
  Panel.html (Panel.createOrShow cfg kind log d) =
    ErrorHtml "No Mermaid diagram found. Wrap your diagram in ```mermaid code blocks." /\
  Panel.html (Panel.createOrShowSingle cfg kind log d lineNumber) =
    ErrorHtml "No Mermaid diagram found at this position.".
Proof.
  intros d. pose proof (PageFacts.no_opener_no_block _ Hnone) as Hblocks. fold d in Hblocks.
  assert (Hd : diagrams (getText d) = []) by (unfold diagrams; rewrite Hblocks; reflexivity).
  split.
  - rewrite provideCodeLenses_run. fold d.
    destruct (CodeLens.openings 0 (getText d)) as [|j l] eqn:E; [reflexivity|].
    assert (Hj : In j (CodeLens.openings 0 (getText d))) by (rewrite E; left; reflexivity).
    apply In_openings in Hj as [k (_ & _ & Ho)].
    destruct (open_fence (skipn k (getText d))) as [r|] eqn:Hof; [|contradiction].
    apply open_fence_Some in Hof as [ws [nl [Eo _]]].
    assert (Hi : includes opener (getText d) = true).
    { apply includes_Some. exists (firstn k (getText d)), (ws ++ nl ++ r).
      rewrite <- Eo. symmetry. apply firstn_skipn. }
    fold d in Hnone. congruence.
  - destruct (extractMermaidCode_run d w) as [w' [Hrun _]]. rewrite Hrun, Hd.
    rewrite extractMermaidCodeAtLine_run, Hblocks.
    rewrite PageFacts.createOrShow_html, Hd.
    rewrite PageFacts.createOrShowSingle_html, Hblocks.
    repeat split.
Qed.

Lemma no_opening_fence_nothing_found_witness :
  let document :=
    CodeLens.mkLensDocument "file:///a.md" (document_of (lit "# Notes")) (fun i => i) in
  CodeLens.provideCodeLenses document = Normal [] /\
  fst (Panel._extractMermaidCode (document_of (lit "# Notes"))
         (Panel.createOrShow (mkConfig None None None None) Light []
            (document_of (lit "# Notes")))) = Normal None /\
  fst (Panel._extractMermaidCodeAtLine (document_of (lit "# Notes")) 0
         (Panel.createOrShow (mkConfig None None None None) Light []
            (document_of (lit "# Notes")))) = Normal None /\
  Panel.html (Panel.createOrShow (mkConfig None None None None) Light []
          (document_of (lit "# Notes"))) =
    ErrorHtml "No Mermaid diagram found. Wrap your diagram in ```mermaid code blocks." /\
  Panel.html (Panel.createOrShowSingle (mkConfig None None None None) Light []
          (document_of (lit "# Notes")) 0) =
    ErrorHtml "No Mermaid diagram found at this position.".
Proof.
  intros document.
  apply (no_opening_fence_nothing_found document 0 _ (mkConfig None None None None) Light []).
  reflexivity.
Defined.

(** X7. A line outside the document finds nothing: for a line number
    below 0, or above the line of the end of the text when the lines of
    the document ascend, [_extractMermaidCodeAtLine] answers null and a
    panel opened at that line shows the error page. *)
Theorem line_outside_document_finds_nothing
  (document : TextDocument) (lineNumber : Z) (w : Panel.World)
  (cfg : Configuration) (kind : ColorThemeKind) (log : list LogEntry)
  (Hlines : CodeLens.lines_ascend document)
  (Hout : (lineNumber < 0 \/
           Z.of_nat (positionAt_line document (length (getText document))) < lineNumber)%Z) :
  Panel._extractMermaidCodeAtLine document lineNumber w = (Normal None, w) /\
  Panel.html (Panel.createOrShowSingle cfg kind log document lineNumber) =
    ErrorHtml "No Mermaid diagram found at this position.".
Proof.
  assert (Hf : find (hit document lineNumber) (fenced_blocks (getText document)) = None).
  { destruct (find _ _) as [b|] eqn:Hf; [|reflexivity].
    apply PageFacts.find_hit in Hf as (Hb & Hs & _).
    destruct (fenced_blocks_in (getText document)) as [Hin _].
    rewrite Forall_forall in Hin. destruct (Hin b Hb) as (_ & _ & H3 & _).
    unfold spans in Hs. apply andb_true_iff in Hs as [Hs1 Hs2].
    apply Z.leb_le in Hs1, Hs2.
    pose proof (Hlines _ _ H3) as Hle.
    destruct Hout as [Hneg | Hbig]; lia. }
  split.
  - rewrite extractMermaidCodeAtLine_run, Hf. reflexivity.
  - rewrite PageFacts.createOrShowSingle_html, Hf. reflexivity.
Qed.

Lemma line_outside_document_finds_nothing_witness :
  let text := opener ++ [LF] ++ lit "graph TD" ++ [LF] ++ fence in
  let w := Panel.createOrShow (mkConfig None None None None) Light [] (document_of text) in
  Panel._extractMermaidCodeAtLine (document_of text) 3 w = (Normal None, w) /\
  Panel.html (Panel.createOrShowSingle (mkConfig None None None None) Light []
          (document_of text) 3) =
    ErrorHtml "No Mermaid diagram found at this position.".
Proof.
  intros text w.
  apply (line_outside_document_finds_nothing (document_of text) 3 w
           (mkConfig None None None None) Light []).
  - apply line_of_ascends.
  - right. vm_compute. reflexivity.
Defined.

(** X8. The diagram of the single view is one of the diagrams of the
    full view: when [_extractMermaidCodeAtLine] answers a diagram for
    some line of a document, [_extractMermaidCode] answers an array for
    the same document and the diagram is one of its elements. *)
Theorem diagram_at_line_is_among_all
  (document : TextDocument) (lineNumber : Z) (w w' : Panel.World) (json : jsstring)
  (Hsingle : fst (Panel._extractMermaidCodeAtLine document lineNumber w) =
             Normal (Some json)) :
  exists d ds,
    json = JSON.stringify [d] /\
    fst (Panel._extractMermaidCode document w') = Normal (Some (JSON.stringify ds)) /\
    In d ds.
Proof.
  rewrite extractMermaidCodeAtLine_run in Hsingle. cbn [fst] in Hsingle.
  destruct (find _ _) as [b|] eqn:Hf; [|discriminate].
  cbn [option_map] in Hsingle. injection Hsingle as <-.
  apply PageFacts.find_hit in Hf as (H1 & _ & H3).
  assert (Hin : In (trim (block_body b)) (diagrams (getText document))).
  { apply PageFacts.In_diagrams. exists b. repeat split; assumption. }
  exists (trim (block_body b)), (diagrams (getText document)).
  split; [reflexivity|]. split; [|exact Hin].
  destruct (extractMermaidCode_run document w') as [w1 [Hrun _]]. rewrite Hrun.
  destruct (diagrams (getText document)); [destruct Hin | reflexivity].
Qed.

Lemma diagram_at_line_is_among_all_witness :
  let text := opener ++ [LF] ++ lit "graph TD" ++ [LF] ++ fence in
  let w := Panel.createOrShow (mkConfig None None None None) Light [] (document_of text) in
  exists d ds,
    JSON.stringify [lit "graph TD"] = JSON.stringify [d] /\
    fst (Panel._extractMermaidCode (document_of text) w) =
      Normal (Some (JSON.stringify ds)) /\
    In d ds.
Proof.
  intros text w.
  apply (diagram_at_line_is_among_all (document_of text) 1 w w).
  vm_compute. reflexivity.
Defined.

End LensProperties.

(** ** The JSON text of the diagrams, read back *)

Module JSONFacts.
Import Page.

Lemma hex_value_digit (n : N) : (n < 16)%N -> hex_value (JSON.hex_digit n) = Some n.
Proof.
  intros H. unfold JSON.hex_digit, hex_value.
  destruct (N.ltb_spec n 10) as [Hlt | Hge].
  - replace ((48 <=? 48 + n) && (48 + n <=? 57))%N with true.
    + f_equal. lia.
    + symmetry. apply andb_true_iff. split; apply N.leb_le; lia.
  - replace ((48 <=? 87 + n) && (87 + n <=? 57))%N with false.
    + replace ((97 <=? 87 + n) && (87 + n <=? 102))%N with true.
      * f_equal. lia.
      * symmetry. apply andb_true_iff. split; apply N.leb_le; lia.
    + symmetry. apply andb_false_iff. right. apply N.leb_gt. lia.
Qed.

Lemma hex_parts (c : N) :
  (c < 65536)%N ->
  (4096 * (c / 4096 mod 16) + 256 * (c / 256 mod 16) + 16 * (c / 16 mod 16) + c mod 16 = c)%N.
Proof.
  intros H. zify. Z.to_euclidean_division_equations. lia.
Qed.

(** The escape of a code unit below 65536 is read back as the unit. *)
Lemma read_unicode_escape (c : code_unit) (done : list jsstring) (cur x : jsstring) :
  (c < 65536)%N ->
  read InString done cur (JSON.unicode_escape c ++ x) = read InString done (cur ++ [c]) x.
Proof.
  intros H. unfold JSON.unicode_escape. cbn [app read N.eqb Pos.eqb].
  rewrite !hex_value_digit by (apply N.mod_lt; lia).
  rewrite hex_parts by exact H. reflexivity.
Qed.

Lemma surrogate_small (c : code_unit) :
  JSON.is_lead_surrogate c || JSON.is_trail_surrogate c = true -> (c < 65536)%N.
Proof.
  unfold JSON.is_lead_surrogate, JSON.is_trail_surrogate. intros H.
  apply orb_true_iff in H as [H | H]; apply andb_true_iff in H as [_ H];
    apply N.leb_le in H; lia.
Qed.

(** What [JSON.stringify] writes for one code unit is read back as it. *)
Lemma read_quote_unit (c : code_unit) (done : list jsstring) (cur x : jsstring) :
  read InString done cur (JSON.quote_unit c ++ x) = read InString done (cur ++ [c]) x.
Proof.
  unfold JSON.quote_unit.
  destruct (N.eqb_spec c 8) as [->|H8]; [reflexivity|].
  destruct (N.eqb_spec c 9) as [->|H9]; [reflexivity|].
  destruct (N.eqb_spec c 10) as [->|H10]; [reflexivity|].
  destruct (N.eqb_spec c 12) as [->|H12]; [reflexivity|].
  destruct (N.eqb_spec c 13) as [->|H13]; [reflexivity|].
  destruct (N.eqb_spec c 34) as [->|H34]; [reflexivity|].
  destruct (N.eqb_spec c 92) as [->|H92]; [reflexivity|].
  destruct (N.ltb_spec c 32) as [Hlt | Hge]; cbn [orb].
  - apply read_unicode_escape. lia.
  - destruct (JSON.is_lead_surrogate c || JSON.is_trail_surrogate c) eqn:Hs.
    + apply read_unicode_escape. apply surrogate_small. exact Hs.
    + cbn [app read].
      destruct (N.eqb_spec c 34); [contradiction|].
      destruct (N.eqb_spec c 92); [contradiction|].
      destruct (N.ltb_spec c 32); [lia | reflexivity].
Qed.

Lemma read_surrogate (c : code_unit) (done : list jsstring) (cur x : jsstring) :
  JSON.is_lead_surrogate c || JSON.is_trail_surrogate c = true ->
  read InString done cur (c :: x) = read InString done (cur ++ [c]) x.
Proof.
  intros H. assert (Hc : (55296 <= c)%N).
  { unfold JSON.is_lead_surrogate, JSON.is_trail_surrogate in H.
    apply orb_true_iff in H as [H | H]; apply andb_true_iff in H as [H _];
      apply N.leb_le in H; lia. }
  cbn [read].
  destruct (N.eqb_spec c 34); [lia|].
  destruct (N.eqb_spec c 92); [lia|].
  destruct (N.ltb_spec c 32); [lia | reflexivity].
Qed.

(** The body of a string is read back as the string. *)
Lemma read_quote_body :
  forall n s, length s <= n ->
  forall done cur x,
  read InString done cur (JSON.quote_body s ++ 34%N :: x) =
  read AfterString (done ++ [cur ++ s]) [] x.
Proof.
  induction n as [|n IH]; intros s Hn done cur x.
  - destruct s; [|simpl in Hn; lia]. cbn [JSON.quote_body app read N.eqb Pos.eqb].
    rewrite app_nil_r. reflexivity.
  - destruct s as [|c [|d t]].
    + cbn [JSON.quote_body app read N.eqb Pos.eqb]. rewrite app_nil_r. reflexivity.
    + cbn [JSON.quote_body]. rewrite read_quote_unit. cbn [read N.eqb Pos.eqb].
      reflexivity.
    + cbn [JSON.quote_body].
      destruct (JSON.is_lead_surrogate c && JSON.is_trail_surrogate d) eqn:Hp.
      * apply andb_true_iff in Hp as [Hc Hd].
        cbn [app]. rewrite read_surrogate by (rewrite Hc; reflexivity).
        rewrite read_surrogate by (rewrite Hd; apply orb_true_r).
        rewrite (IH t) by (simpl in Hn; lia).
        rewrite <- !app_assoc. reflexivity.
      * rewrite <- app_assoc, read_quote_unit.
        rewrite (IH (d :: t)) by (simpl in *; lia).
        rewrite <- app_assoc. reflexivity.
Qed.

Lemma read_quote (s : jsstring) (done : list jsstring) (cur x : jsstring) (st : Where) :
  st = Opened \/ st = AfterComma ->
  read st done cur (JSON.quote s ++ x) = read AfterString (done ++ [s]) [] x.
Proof.
  intros Hst. unfold JSON.quote. rewrite <- !app_assoc. cbn [app].
  assert (E : read st done cur (34%N :: JSON.quote_body s ++ 34%N :: x) =
              read InString done [] (JSON.quote_body s ++ 34%N :: x))
    by (destruct Hst as [-> | ->]; reflexivity).
  rewrite E. apply (read_quote_body (length s) s (Nat.le_refl _)).
Qed.

(** The strings after the first, each after its comma. *)
Lemma read_elements (a : list jsstring) :
  forall s done,
  read AfterString (done ++ [s]) []
    (match a with
     | [] => []
     | _ :: _ => 44%N :: JSON.join_comma (map JSON.quote a)
     end ++ [93%N]) =
  Some (done ++ s :: a).
Proof.
  induction a as [|y a IH]; intros s done.
  - reflexivity.
  - cbn [app read is_json_space N.eqb Pos.eqb orb map].
    assert (E : JSON.join_comma (JSON.quote y :: map JSON.quote a) =
                JSON.quote y ++ match a with
                                | [] => []
                                | _ :: _ => 44%N :: JSON.join_comma (map JSON.quote a)
                                end).
    { destruct a; cbn [map JSON.join_comma app]; [rewrite app_nil_r|]; reflexivity. }
    rewrite E, <- app_assoc.
    rewrite read_quote by (right; reflexivity).
    rewrite IH, <- app_assoc. reflexivity.
Qed.

Lemma parse_stringify (a : list jsstring) : JSON_parse (JSON.stringify a) = Some a.
Proof.
  unfold JSON_parse, JSON.stringify. cbn [app read is_json_space N.eqb Pos.eqb orb].
  destruct a as [|s a]; [reflexivity|].
  assert (E : JSON.join_comma (map JSON.quote (s :: a)) =
              JSON.quote s ++ match a with
                              | [] => []
                              | _ :: _ => 44%N :: JSON.join_comma (map JSON.quote a)
                              end).
  { destruct a; cbn [map JSON.join_comma app]; [rewrite app_nil_r|]; reflexivity. }
  rewrite E, <- app_assoc.
  rewrite read_quote by (left; reflexivity).
  apply (read_elements a s []).
Qed.

End JSONFacts.

(** ** The escaping of a diagram *)

Module EscapeFacts.
Import Page.

Lemma match_here_char (c : code_unit) (i : nat) (s : jsstring) :
  match_here (RChar c) i s =
  match s with
  | ch :: t => if (ch =? c)%N then Some (mkMatch i [ch] None) else None
  | [] => None
  end.
Proof.
  unfold match_here. destruct s as [|ch t]; [reflexivity|].
  cbn [rmatch fst snd]. destruct (ch =? c)%N; [|reflexivity].
  unfold consumed. cbn [fst snd length].
  replace (S (length t) - length t) with 1 by lia. reflexivity.
Qed.

Lemma flat_map_flat_map {A B C : Type} (f : A -> list B) (g : B -> list C) (l : list A) :
  flat_map g (flat_map f l) = flat_map (fun x => flat_map g (f x)) l.
Proof.
  induction l as [|a l IH]; [reflexivity|].
  cbn [flat_map]. rewrite flat_map_app, IH. reflexivity.
Qed.

Section OneCharacter.

Variable c : code_unit.
Variables template subst text : jsstring.
Hypothesis Hsubst :
  forall matched before after, GetSubstitution matched before after template = subst.

Let f (ch : code_unit) : jsstring := if (ch =? c)%N then subst else [ch].

(** The text before the first match can be taken one character later. *)
Lemma accumulate_shift (ms : list match_result) (next : nat) (ch : code_unit)
  (t : jsstring) :
  skipn next text = ch :: t ->
  Forall (fun m => S next <= index m) ms ->
  accumulate ms text template next = ch :: accumulate ms text template (S next).
Proof.
  intros Hs Hms. pose proof (RegexFacts.skipn_cons_next text next ch t Hs) as Ht.
  destruct ms as [|m ms]; cbn [accumulate].
  - rewrite Hs, Ht. reflexivity.
  - apply Forall_inv in Hms. cbn beta in Hms.
    destruct (Nat.leb_spec next (index m)) as [_|]; [|lia].
    destruct (Nat.leb_spec (S next) (index m)) as [_|]; [|lia].
    rewrite Hs, Ht.
    replace (index m - next) with (S (index m - S next)) by lia.
    reflexivity.
Qed.

(** The two loops of [replace] on a pattern of one character: they end,
    and every occurrence of the character is replaced. *)
Lemma replace_loops :
  forall s i, skipn i text = s ->
  forall fuel, length s + 1 < fuel ->
  exists ms,
    matchAll_loop fuel (RChar c) text i = Some ms /\
    Forall (fun m => i <= index m) ms /\
    accumulate ms text template i = flat_map f s.
Proof.
  induction s as [|ch t IH]; intros i Hs fuel Hf.
  - destruct fuel as [|fuel]; [lia|]. exists []. cbn [matchAll_loop]. unfold exec.
    rewrite Hs. cbn [exec_from]. rewrite match_here_char.
    destruct (length text <? i); repeat split; try constructor; exact Hs.
  - destruct fuel as [|fuel]; [simpl in Hf; lia|].
    assert (Hi : i < length text).
    { destruct (Nat.lt_ge_cases i (length text)) as [H|H]; [exact H|].
      rewrite skipn_all2 in Hs by exact H. discriminate. }
    pose proof (RegexFacts.skipn_cons_next text i ch t Hs) as Ht.
    cbn [matchAll_loop]. unfold exec.
    destruct (Nat.ltb_spec (length text) i) as [|_]; [lia|].
    rewrite Hs. cbn [exec_from]. rewrite match_here_char.
    destruct (N.eqb_spec ch c) as [->|Hne].
    + cbn [matched]. unfold end_index. cbn [index matched length].
      replace (i + 1) with (S i) by lia.
      destruct (IH (S i) Ht fuel) as [ms (H1 & H2 & H3)]; [simpl in Hf; lia|].
      rewrite H1. exists (mkMatch i [c] None :: ms). cbn [option_map].
      split; [reflexivity|]. split.
      * constructor; [cbn [index]; lia|].
        eapply Forall_impl; [|exact H2]. intros m Hm. cbn beta in *. lia.
      * cbn [accumulate index matched length].
        destruct (Nat.leb_spec i i) as [_|]; [|lia].
        rewrite Nat.sub_diag. cbn [firstn app].
        replace (i + 1) with (S i) by lia.
        rewrite Hsubst, H3. cbn [flat_map]. unfold f at 2. rewrite N.eqb_refl.
        reflexivity.
    + destruct (IH (S i) Ht (S fuel)) as [ms (H1 & H2 & H3)]; [simpl in Hf |- *; lia|].
      exists ms. split.
      * cbn [matchAll_loop] in H1. unfold exec in H1.
        destruct (Nat.ltb_spec (length text) (S i)) as [|_]; [lia|].
        rewrite Ht in H1. exact H1.
      * split.
        -- eapply Forall_impl; [|exact H2]. intros m Hm. cbn beta in *. lia.
        -- rewrite (accumulate_shift ms i ch t Hs H2), H3.
           cbn [flat_map]. unfold f at 2.
           destruct (N.eqb_spec ch c); [contradiction | reflexivity].
Qed.

Lemma replace_char :
  replace (RChar c) template text = Normal (flat_map f text).
Proof.
  unfold replace, matchAll.
  destruct (replace_loops text 0 eq_refl (length text + 2)) as [ms (H1 & _ & H3)]; [lia|].
  rewrite H1, H3. reflexivity.
Qed.

End OneCharacter.

Lemma escape_unit_chain (c : code_unit) :
  flat_map (fun ch => if (ch =? 36)%N then [92; 36]%N else [ch])
    (flat_map (fun ch => if (ch =? 96)%N then [92; 96]%N else [ch])
       (if (c =? 92)%N then [92; 92]%N else [c])) =
  escape_unit c.
Proof.
  unfold escape_unit.
  destruct (N.eqb_spec c 92) as [->|H92]; [reflexivity|].
  destruct (N.eqb_spec c 96) as [->|H96]; [reflexivity|].
  destruct (N.eqb_spec c 36) as [->|H36]; [reflexivity|].
  cbn [flat_map app orb].
  destruct (N.eqb_spec c 96); [contradiction|]. cbn [flat_map app].
  destruct (N.eqb_spec c 36); [contradiction|]. reflexivity.
Qed.

(** The three replacements act as one pass over the characters. *)
Lemma escape_run (code : jsstring) : escape code = Normal (flat_map escape_unit code).
Proof.
  unfold escape.
  rewrite (replace_char 92%N [92; 92]%N [92; 92]%N code) by reflexivity.
  cbn [and_then].
  rewrite (replace_char 96%N [92; 96]%N [92; 96]%N) by reflexivity.
  cbn [and_then].
  rewrite (replace_char 36%N [92; 36]%N [92; 36]%N) by reflexivity.
  rewrite !flat_map_flat_map. f_equal.
  apply flat_map_ext. intros c.
  rewrite <- (escape_unit_chain c), flat_map_flat_map. reflexivity.
Qed.

Lemma escape_all_run (ds : list jsstring) :
  Panel.map_completion escape ds = Normal (map (flat_map escape_unit) ds).
Proof.
  induction ds as [|d ds IH]; [reflexivity|].
  cbn [Panel.map_completion map]. rewrite escape_run, IH. reflexivity.
Qed.

Lemma escape_unit_length (code : jsstring) :
  length (flat_map escape_unit code) = length code + length (filter is_special code).
Proof.
  induction code as [|c code IH]; [reflexivity|].
  cbn [flat_map filter]. rewrite length_app, IH. unfold escape_unit, is_special.
  destruct ((c =? 92) || (c =? 96) || (c =? 36))%N; cbn [length]; lia.
Qed.

(** A diagram stays as it is exactly when it holds none of the three
    characters. *)
Lemma escape_unit_fixed (code : jsstring) :
  flat_map escape_unit code = code <->
  forallb (fun c => negb (is_special c)) code = true.
Proof.
  split.
  - intros H. apply (f_equal (@length N)) in H. rewrite escape_unit_length in H.
    assert (Hf : filter is_special code = []).
    { destruct (filter is_special code); [reflexivity | simpl in H; lia]. }
    clear H. induction code as [|c code IH]; [reflexivity|].
    cbn [filter forallb] in *. destruct (is_special c); [discriminate|].
    cbn [negb andb]. apply IH. exact Hf.
  - induction code as [|c code IH]; [reflexivity|].
    cbn [forallb flat_map]. intros H. apply andb_true_iff in H as [Hc H].
    rewrite (IH H). unfold escape_unit. unfold is_special in Hc.
    destruct ((c =? 92) || (c =? 96) || (c =? 36))%N; [discriminate | reflexivity].
Qed.

Lemma getHtmlForWebview_run (ds : list jsstring) (theme : string)
  (appearance : PreviewAppearance) :
  _getHtmlForWebview (JSON.stringify ds) theme appearance =
  Normal (mkHtml (JSON.stringify (map (flat_map escape_unit) ds)) theme
            (appearance_text appearance) (_getAppearanceClass appearance)).
Proof.
  unfold _getHtmlForWebview. rewrite JSONFacts.parse_stringify, escape_all_run.
  reflexivity.
Qed.

End EscapeFacts.

Section PageProperties.
Import Page.

(** X9. [JSON.parse] gives back what [JSON.stringify] was given: the
    array of diagrams [_getHtmlForWebview] reads from the text the
    extraction wrote is the array the extraction made, for every array
    of strings, whatever their characters; so two arrays with the same
    text are the same array. *)
Theorem parse_gives_back_the_diagrams (diagrams : list jsstring) :
  JSON_parse (JSON.stringify diagrams) = Some diagrams /\
  (forall other, JSON.stringify other = JSON.stringify diagrams -> other = diagrams).
Proof.
  split; [apply JSONFacts.parse_stringify|].
  intros other H. pose proof (JSONFacts.parse_stringify other) as Ho.
  rewrite H, JSONFacts.parse_stringify in Ho. congruence.
Qed.

(** X10. The three replacements of [_getHtmlForWebview] end and act as
    one pass over the diagram: a backslash, a backtick and a dollar each
    get one backslash before them (the backslashes the second and third
    replacement add are not doubled, the backslashes being doubled
    first), and every other character stays. The diagram comes out as
    it went in exactly when it holds none of the three characters, and
    otherwise longer by the number of them. *)
Theorem escape_is_one_pass (code : jsstring) :
  escape code = Normal (flat_map escape_unit code) /\
  (forall c, escape_unit c =
             if ((c =? 92) || (c =? 96) || (c =? 36))%N then [92%N; c] else [c]) /\
  (escape code = Normal code <->
   forallb (fun c => negb ((c =? 92) || (c =? 96) || (c =? 36))%N) code = true) /\
  (forall escaped, escape code = Normal escaped ->
     length escaped =
     length code + length (filter (fun c => (c =? 92) || (c =? 96) || (c =? 36))%N code)).
Proof.
  rewrite EscapeFacts.escape_run.
  split; [reflexivity|]. split; [reflexivity|]. split.
  - rewrite <- (EscapeFacts.escape_unit_fixed code). split; [intros [= H] | intros H].
    + exact H.
    + rewrite H. reflexivity.
  - intros escaped [= <-]. apply EscapeFacts.escape_unit_length.
Qed.

(** X11. The page of [_getHtmlForWebview]: for the JSON text of any
    array of diagrams the function ends without throwing; the array it
    writes into the script, read back as JSON, holds the escaped
    diagrams, one for one and in order, so a diagram reaches the page
    unchanged exactly when it holds no backslash, backtick or dollar;
    the theme is written as given and the class of the body is the one
    of the appearance. *)
Theorem page_holds_the_escaped_diagrams
  (diagrams : list jsstring) (theme : string) (appearance : PreviewAppearance) :
  exists page,
    _getHtmlForWebview (JSON.stringify diagrams) theme appearance = Normal page /\
    JSON_parse (diagrams_text page) = Some (map (flat_map escape_unit) diagrams) /\
    (JSON_parse (diagrams_text page) = Some diagrams <->
     Forall (fun d => forallb (fun c => negb (is_special c)) d = true) diagrams) /\
    currentTheme page = theme /\
    currentAppearance page = appearance_text appearance /\
    body_class page = _getAppearanceClass appearance.
Proof.
  rewrite EscapeFacts.getHtmlForWebview_run. eexists. split; [reflexivity|].
  cbn [diagrams_text currentTheme currentAppearance body_class].
  rewrite JSONFacts.parse_stringify.
  split; [reflexivity|]. split; [|repeat split].
  split.
  - intros [= H]. induction diagrams as [|d ds IH]; [constructor|].
    cbn [map] in H. injection H as Hd Hds. constructor.
    + apply EscapeFacts.escape_unit_fixed. exact Hd.
    + apply IH. exact Hds.
  - intros H. f_equal. induction H as [|d ds Hd _ IH]; [reflexivity|].
    cbn [map]. rewrite IH. f_equal. apply EscapeFacts.escape_unit_fixed. exact Hd.
Qed.

End PageProperties.

Module WellFormedFacts.
Import Scanner Panel Page PanelFacts.
Local Open Scope string_scope.
Local Open Scope nat_scope.
Local Open Scope list_scope.

Lemma diagram_page_well_formed (ds : list jsstring) (theme : string)
  (a : PreviewAppearance) :
  ds <> [] -> Forall (fun d => d <> []) ds ->
  well_formed (DiagramHtml (JSON.stringify ds) theme (Some a)).
Proof.
  intros H1 H2. cbn [well_formed]. exists ds, a. eexists.
  split; [reflexivity|]. split; [exact H1|]. split; [exact H2|]. split; [reflexivity|].
  rewrite EscapeFacts.getHtmlForWebview_run. split; [reflexivity|].
  cbn [diagrams_text]. apply JSONFacts.parse_stringify.
Qed.

Lemma renderSingle_well_formed (l : Z) (o : option string) (w : World) :
  well_formed (html (snd (_renderSingle l o w))).
Proof.
  destruct (_currentDocument w) as [d|] eqn:Hd.
  - rewrite (PageFacts.renderSingle_html l o w d Hd).
    destruct (find _ _) as [b|] eqn:Hf.
    + apply PageFacts.find_hit in Hf as (_ & _ & Hn).
      apply diagram_page_well_formed; [discriminate|].
      constructor; [exact Hn | constructor].
    + cbn [well_formed]. right. right. reflexivity.
  - unfold _renderSingle, bind, get. rewrite Hd. cbn [set_html snd html well_formed].
    left. reflexivity.
Qed.

Lemma renderAll_well_formed (o : option string) (w : World) :
  well_formed (html (snd (_renderAll o w))).
Proof.
  destruct (_currentDocument w) as [d|] eqn:Hd.
  - rewrite (PageFacts.renderAll_html o w d Hd).
    pose proof (PageFacts.diagrams_clean (getText d)) as Hc.
    destruct (diagrams (getText d)) as [|x ds].
    + cbn [well_formed]. right. left. reflexivity.
    + apply diagram_page_well_formed; [discriminate|].
      eapply Forall_impl; [|exact Hc]. intros y Hy. apply Hy.
  - unfold _renderAll, bind, get. rewrite Hd. cbn [set_html snd html well_formed].
    left. reflexivity.
Qed.

Lemma render_well_formed (o : option string) (w : World) :
  well_formed (html (snd (_render o w))).
Proof.
  unfold _render, bind, get.
  destruct (_mode w), (_singleLine w);
    first [apply renderAll_well_formed | apply renderSingle_well_formed].
Qed.

Lemma handle_well_formed (e : Event) (w : World) :
  well_formed (html w) -> well_formed (html (handle e w)).
Proof.
  intros H. destruct e as [d | d | d l | id | t | | cfg | kind]; cbn [handle].
  - unfold _switchToAllMode, _setMode, bind, set_currentDocument, set_mode.
    apply render_well_formed.
  - destruct (_mode w) eqn:Hm.
    + rewrite updateContent_all by exact Hm. exact H.
    + rewrite updateContent_single by exact Hm. exact H.
  - unfold updateContentAtLine, _switchToSingleMode, _setMode, bind,
      set_currentDocument, set_mode.
    apply renderSingle_well_formed.
  - unfold fire. destruct (is_pending id w); [|exact H].
    unfold bind, clearTimeout. apply render_well_formed.
  - apply render_well_formed.
  - unfold refreshAppearance, bind, get.
    destruct (_currentDocument w); [apply render_well_formed | exact H].
  - exact H.
  - exact H.
Qed.

Lemma created_well_formed (cfg : Configuration) (kind : ColorThemeKind)
  (log : list LogEntry) (document : TextDocument) (at_line : option Z) :
  well_formed (html (created cfg kind log document at_line)).
Proof.
  unfold created, createOrShow, createOrShowSingle, construct.
  destruct at_line; apply render_well_formed.
Qed.

End WellFormedFacts.

Section WellFormedPage.
Import Panel.

(** X12. A panel of [extension.ts] always shows a page that is well
    formed: after its construction and after every event, the page is an
    error page with one of the three messages of the renderers, or a
    page of diagrams made from the JSON text of an array that is not
    empty, of diagrams that are not empty, with an appearance; on that
    text [_getHtmlForWebview] does not throw ([JSON.parse] reads it, the
    replacements end), and the array written into the script reads back
    as the escaped diagrams. *)
Theorem panel_page_is_well_formed
  (cfg : Configuration) (kind : ColorThemeKind) (log : list LogEntry)
  (document : TextDocument) (at_line : option Z) (es : list Event) :
  match html (run_events es (created cfg kind log document at_line)) with
  | NoHtml => False
  | ErrorHtml message =>
      message = "No document to preview"%string \/
      message =
        "No Mermaid diagram found. Wrap your diagram in ```mermaid code blocks."%string \/
      message = "No Mermaid diagram found at this position."%string
  | DiagramHtml mermaidCode theme appearance =>
      exists diagrams a page,
        mermaidCode = JSON.stringify diagrams /\
        diagrams <> [] /\ Forall (fun d => d <> []) diagrams /\
        appearance = Some a /\
        Page._getHtmlForWebview mermaidCode theme a = Normal page /\
        Page.JSON_parse (Page.diagrams_text page) =
          Some (map (flat_map Page.escape_unit) diagrams)
  end.
Proof.
  change (Page.well_formed (html (run_events es (created cfg kind log document at_line)))).
  pose proof (WellFormedFacts.created_well_formed cfg kind log document at_line) as H.
  revert H. generalize (created cfg kind log document at_line).
  induction es as [|e es IH]; intros w H; cbn [run_events fold_left].
  - exact H.
  - apply IH. apply WellFormedFacts.handle_well_formed. exact H.
Qed.

End WellFormedPage.

(** ** The zoom of the two pages *)

Module ZoomFacts.
Local Open Scope float_scope.

(** A conjunction over a list, one conjunct for each element. *)
Lemma conjunction_In {A : Type} (P : A -> Prop) (l : list A) :
  fold_right (fun a acc => P a /\ acc) True l -> forall a, In a l -> P a.
Proof.
  induction l as [|x l IH]; intros H a Hin; [destruct Hin|].
  destruct H as [Hx Hl]. destruct Hin as [<- | Hin]; [exact Hx | exact (IH Hl a Hin)].
Qed.

(** The zoom of the page of [extension.ts] is always one of its levels. *)
Lemma run_events_level (es : list Webview.Event) :
  In (Webview.currentZoom (Webview.run_events es Webview.initial)) Webview.zoom_levels.
Proof.
  unfold Webview.run_events.
  assert (H0 : In (Webview.currentZoom Webview.initial) Webview.zoom_levels)
    by exact zoom_initial_level.
  revert H0. generalize Webview.initial.
  induction es as [|e es IH]; intros s Hs; cbn [fold_left]; [exact Hs|].
  apply IH. apply handle_level. exact Hs.
Qed.

Lemma label_check (zs : list float) (lo hi : Z) :
  forallb (fun z =>
             match Script.Math_round (z * 100) with
             | Some n => ((n mod 10 =? 0) && (lo <=? n) && (n <=? hi))%Z
             | None => false
             end) zs = true ->
  forall z, In z zs ->
  exists k, (lo <= 10 * k <= hi)%Z /\ Script.Math_round (z * 100) = Some (10 * k)%Z.
Proof.
  intros H z Hin. rewrite forallb_forall in H. specialize (H z Hin).
  destruct (Script.Math_round (z * 100)) as [n|]; [|discriminate].
  apply andb_true_iff in H as [H H3]. apply andb_true_iff in H as [H1 H2].
  apply Z.eqb_eq in H1. apply Z.leb_le in H2, H3.
  exists (n / 10)%Z.
  assert (E : (10 * (n / 10) = n)%Z).
  { pose proof (Z.div_mod n 10 ltac:(lia)) as Hd. lia. }
  rewrite E. split; [lia | reflexivity].
Qed.

Lemma iter_zoomIn (k : nat) (s : Webview.State) :
  Webview.currentZoom (Nat.iter k Webview.zoomIn s) =
  Nat.iter k (fun z => Webview.Math_min (z + Webview.tenth) Webview.zoom_max)
    (Webview.currentZoom s).
Proof.
  induction k as [|k IH]; [reflexivity|].
  rewrite !Nat.iter_succ. cbn [Webview.zoomIn Webview.currentZoom]. rewrite IH.
  reflexivity.
Qed.

Lemma iter_zoomOut (k : nat) (s : Webview.State) :
  Webview.currentZoom (Nat.iter k Webview.zoomOut s) =
  Nat.iter k (fun z => Webview.Math_max (z - Webview.tenth) Webview.zoom_min)
    (Webview.currentZoom s).
Proof.
  induction k as [|k IH]; [reflexivity|].
  rewrite !Nat.iter_succ. cbn [Webview.zoomOut Webview.currentZoom]. rewrite IH.
  reflexivity.
Qed.

(** From every level, forty-six steps in reach the upper bound and
    forty-six steps out the lower bound. *)
Lemma levels_reach_bounds :
  fold_right (fun z acc => Script.reaches_bounds z /\ acc) True Webview.zoom_levels.
Proof. vm_compute. repeat split. Qed.

Lemma levels_ordered :
  forallb (fun z =>
             (z <=? Webview.Math_min (z + Webview.tenth) Webview.zoom_max)
             && (Webview.Math_max (z - Webview.tenth) Webview.zoom_min <=? z))
    Webview.zoom_levels = true.
Proof. vm_compute. reflexivity. Qed.

Lemma levels_labels :
  forallb (fun z =>
             match Script.Math_round (z * 100) with
             | Some n => ((n mod 10 =? 0) && (50 <=? n) && (n <=? 500))%Z
             | None => false
             end) Webview.zoom_levels = true.
Proof. vm_compute. reflexivity. Qed.

(** The earlier page. *)
Lemma legacy_steps_hold : LegacyScript.steps_hold LegacyScript.zoom_levels LegacyScript.zoom_steps.
Proof. vm_compute. repeat (split; [reflexivity|]). exact I. Qed.

Lemma legacy_steps_hold_In :
  forall zs steps, LegacyScript.steps_hold zs steps ->
  forall z, In z zs ->
  In (LegacyScript.zoomIn z) LegacyScript.zoom_levels /\
  In (LegacyScript.zoomOut z) LegacyScript.zoom_levels.
Proof.
  induction zs as [|z0 zs IH]; intros steps H z Hin; [destruct Hin|].
  destruct steps as [|[i o] steps]; cbn [LegacyScript.steps_hold] in H; [destruct H|].
  destruct H as (Hi & Ho & Li & Lo & Hrest).
  destruct Hin as [<- | Hin].
  - rewrite Hi, Ho. split; apply nth_In; apply Nat.ltb_lt; assumption.
  - apply (IH steps Hrest z Hin).
Qed.

Lemma legacy_run_events_level (es : list LegacyScript.Event) :
  In (LegacyScript.run_events es LegacyScript.initial) LegacyScript.zoom_levels.
Proof.
  unfold LegacyScript.run_events.
  assert (H0 : In LegacyScript.initial LegacyScript.zoom_levels) by (left; reflexivity).
  revert H0. generalize LegacyScript.initial.
  induction es as [|e es IH]; intros z Hz; cbn [fold_left]; [exact Hz|].
  apply IH.
  destruct (legacy_steps_hold_In _ _ legacy_steps_hold z Hz) as [Hin Hout].
  destruct e; cbn [LegacyScript.handle]; [exact Hin | exact Hout | left; reflexivity].
Qed.

Lemma legacy_levels_in_range :
  forallb (fun z => (LegacyScript.zoom_min <=? z) && (z <=? LegacyScript.zoom_max))
    LegacyScript.zoom_levels = true.
Proof. vm_compute. reflexivity. Qed.

Lemma legacy_levels_labels :
  forallb (fun z =>
             match Script.Math_round (z * 100) with
             | Some n => ((n mod 10 =? 0) && (30 <=? n) && (n <=? 300))%Z
             | None => false
             end) LegacyScript.zoom_levels = true.
Proof. vm_compute. reflexivity. Qed.

Lemma legacy_levels_reach_bounds :
  fold_right (fun z acc => LegacyScript.reaches_bounds z /\ acc) True
    LegacyScript.zoom_levels.
Proof. vm_compute. repeat split. Qed.

End ZoomFacts.

Section ZoomProperties.
Import Webview.
Local Open Scope float_scope.

(** X13. The zoom label of the page of [extension.ts] always shows a
    multiple of ten between 50 and 500: after any sequence of [zoomIn],
    [zoomOut], [zoomReset] and wheel events, [Math.round(currentZoom * 100)]
    is [10 * k] for an integer [k] from 5 to 50, though [currentZoom]
    itself drifts from the tenths by rounding, and [applyZoomScale]
    writes that integer and a percent sign. *)
Theorem zoom_label_is_a_multiple_of_ten (es : list Event) :
  let z := currentZoom (run_events es initial) in
  exists k, (5 <= k <= 50)%Z /\
    Script.Math_round (z * 100) = Some (10 * k)%Z /\
    Script.zoom_label z = Some (Script.integer_text (10 * k) ++ "%")%string.
Proof.
  cbn zeta.
  destruct (ZoomFacts.label_check zoom_levels 50 500 ZoomFacts.levels_labels _
              (ZoomFacts.run_events_level es)) as [k [Hk Hr]].
  exists k. split; [lia|]. split; [exact Hr|].
  unfold Script.zoom_label. rewrite Hr. reflexivity.
Qed.

(** X14. The zoom of the page of [extension.ts] reaches its bounds and
    stays there: from every state the page can be in, forty-six
    [zoomIn] give exactly 5.0 and forty-six [zoomOut] exactly 0.5,
    whatever the rounding on the way; [zoomIn] at 5.0 and [zoomOut] at
    0.5 change nothing; and [zoomIn] never lowers the zoom, [zoomOut]
    never raises it. *)
Theorem zoom_reaches_its_bounds (es : list Event) :
  let s := run_events es initial in
  currentZoom (Nat.iter 46 zoomIn s) = zoom_max /\
  currentZoom (Nat.iter 46 zoomOut s) = zoom_min /\
  currentZoom (zoomIn (Nat.iter 46 zoomIn s)) = zoom_max /\
  currentZoom (zoomOut (Nat.iter 46 zoomOut s)) = zoom_min /\
  (currentZoom s <=? currentZoom (zoomIn s)) = true /\
  (currentZoom (zoomOut s) <=? currentZoom s) = true.
Proof.
  cbn zeta. pose proof (ZoomFacts.run_events_level es) as Hl.
  destruct (ZoomFacts.conjunction_In Script.reaches_bounds zoom_levels
              ZoomFacts.levels_reach_bounds _ Hl) as [Hin Hout].
  pose proof ZoomFacts.levels_ordered as Ho. rewrite forallb_forall in Ho.
  specialize (Ho _ Hl). apply andb_true_iff in Ho as [Ho1 Ho2].
  cbn [zoomIn zoomOut currentZoom].
  rewrite ZoomFacts.iter_zoomIn, ZoomFacts.iter_zoomOut, Hin, Hout.
  repeat split; assumption.
Qed.

(** X15. The zoom of the page of [previewPanel.ts] stays within
    [0.3, 3.0]: from the initial 1.0, after any sequence of [zoomIn],
    [zoomOut] and [zoomReset], [0.3 <= currentZoom <= 3.0]; its label
    shows a multiple of ten between 30 and 300; and twenty-seven
    [zoomIn] give exactly 3.0, twenty-seven [zoomOut] exactly 0.3. *)
Theorem legacy_zoom_within_bounds (es : list LegacyScript.Event) :
  let z := LegacyScript.run_events es LegacyScript.initial in
  (LegacyScript.zoom_min <=? z) = true /\ (z <=? LegacyScript.zoom_max) = true /\
  (exists k, (3 <= k <= 30)%Z /\
     Script.zoom_label z = Some (Script.integer_text (10 * k) ++ "%")%string) /\
  Nat.iter 27 LegacyScript.zoomIn z = LegacyScript.zoom_max /\
  Nat.iter 27 LegacyScript.zoomOut z = LegacyScript.zoom_min.
Proof.
  cbn zeta. pose proof (ZoomFacts.legacy_run_events_level es) as Hl.
  pose proof ZoomFacts.legacy_levels_in_range as Hr. rewrite forallb_forall in Hr.
  specialize (Hr _ Hl). apply andb_true_iff in Hr as [Hr1 Hr2].
  destruct (ZoomFacts.label_check _ 30 300 ZoomFacts.legacy_levels_labels _ Hl)
    as [k [Hk Hlab]].
  destruct (ZoomFacts.conjunction_In LegacyScript.reaches_bounds LegacyScript.zoom_levels
              ZoomFacts.legacy_levels_reach_bounds _ Hl) as [Hin Hout].
  split; [exact Hr1|]. split; [exact Hr2|]. split; [|split; [exact Hin | exact Hout]].
  exists k. split; [lia|]. unfold Script.zoom_label. rewrite Hlab. reflexivity.
Qed.

End ZoomProperties.

(** ** The active diagram and the menus *)

Module ScriptFacts.
Import Script.
Local Open Scope Z_scope.

Lemma setActiveDiagram_length (index : Z) (s : Navigation) :
  diagrams_length (setActiveDiagram index s) = diagrams_length s.
Proof.
  unfold setActiveDiagram. destruct (diagrams_length s =? 0)%nat; reflexivity.
Qed.

Lemma navigateDiagram_length (delta : Z) (s : Navigation) :
  diagrams_length (navigateDiagram delta s) = diagrams_length s.
Proof.
  unfold navigateDiagram, focusDiagram.
  destruct (diagrams_length s =? 0)%nat; [reflexivity | apply setActiveDiagram_length].
Qed.

Lemma step_length (e : NavigationEvent) (s : Navigation) :
  diagrams_length (navigation_step e s) = diagrams_length s.
Proof.
  destruct e; cbn [navigation_step]; unfold focusDiagram;
    first [apply navigateDiagram_length | apply setActiveDiagram_length].
Qed.

(** The index [setActiveDiagram] leaves is one of a diagram. *)
Lemma setActiveDiagram_range (index : Z) (s : Navigation) :
  diagrams_length s <> 0%nat ->
  0 <= activeDiagramIndex (setActiveDiagram index s) < Z.of_nat (diagrams_length s).
Proof.
  intros Hn. unfold setActiveDiagram.
  destruct (Nat.eqb_spec (diagrams_length s) 0); [contradiction|].
  cbn [activeDiagramIndex]. lia.
Qed.

Lemma setActiveDiagram_inside (index : Z) (s : Navigation) :
  0 <= index < Z.of_nat (diagrams_length s) ->
  setActiveDiagram index s = mkNavigation (diagrams_length s) index.
Proof.
  intros H. unfold setActiveDiagram.
  destruct (Nat.eqb_spec (diagrams_length s) 0) as [E|_]; [rewrite E in H; simpl in H; lia|].
  f_equal. lia.
Qed.

Lemma step_range (e : NavigationEvent) (s : Navigation) :
  diagrams_length s <> 0%nat ->
  0 <= activeDiagramIndex (navigation_step e s) < Z.of_nat (diagrams_length s).
Proof.
  intros Hn.
  assert (Hnav : forall delta,
            0 <= activeDiagramIndex (navigateDiagram delta s) < Z.of_nat (diagrams_length s)).
  { intros delta. unfold navigateDiagram, focusDiagram.
    destruct (Nat.eqb_spec (diagrams_length s) 0); [contradiction|].
    apply setActiveDiagram_range. exact Hn. }
  destruct e; cbn [navigation_step]; unfold focusDiagram;
    first [apply Hnav | apply setActiveDiagram_range; exact Hn].
Qed.

Lemma run_range (es : list NavigationEvent) :
  forall s,
  (diagrams_length s = 0%nat \/
   0 <= activeDiagramIndex s < Z.of_nat (diagrams_length s)) ->
  diagrams_length (navigation_run es s) = diagrams_length s /\
  (diagrams_length s = 0%nat -> navigation_run es s = s) /\
  (diagrams_length s <> 0%nat ->
   0 <= activeDiagramIndex (navigation_run es s) < Z.of_nat (diagrams_length s)).
Proof.
  induction es as [|e es IH]; intros s Hs; cbn [navigation_run fold_left].
  - split; [reflexivity|]. split; [reflexivity|]. intros Hn. destruct Hs; [contradiction | assumption].
  - fold (navigation_run es (navigation_step e s)).
    pose proof (step_length e s) as Hl.
    destruct (Nat.eq_dec (diagrams_length s) 0) as [E | Hn].
    + assert (Es : navigation_step e s = s).
      { destruct e; cbn [navigation_step];
          unfold navigateDiagram, focusDiagram, setActiveDiagram; rewrite E; reflexivity. }
      rewrite Es. apply IH. left. exact E.
    + destruct (IH (navigation_step e s)) as (H1 & H2 & H3).
      { right. rewrite Hl. apply step_range. exact Hn. }
      rewrite Hl in *. split; [exact H1|]. split; [intros; contradiction|].
      intros _. apply H3. exact Hn.
Qed.

(** One step forward or back from a diagram, around the ends. *)
Lemma navigate_one (delta : Z) (s : Navigation) :
  (delta = 1 \/ delta = -1) ->
  0 <= activeDiagramIndex s < Z.of_nat (diagrams_length s) ->
  navigateDiagram delta s =
  mkNavigation (diagrams_length s)
    ((activeDiagramIndex s + delta) mod Z.of_nat (diagrams_length s)).
Proof.
  intros Hd Hs. unfold navigateDiagram, focusDiagram.
  destruct (Nat.eqb_spec (diagrams_length s) 0) as [E|Hn]; [rewrite E in Hs; simpl in Hs; lia|].
  set (n := Z.of_nat (diagrams_length s)) in *.
  assert (Hnpos : 0 < n) by lia.
  rewrite Z.rem_mod_nonneg by (destruct Hd; lia).
  replace (activeDiagramIndex s + delta + n) with (activeDiagramIndex s + delta + 1 * n) by lia.
  rewrite Z.mod_add by lia.
  apply setActiveDiagram_inside. fold n. apply Z.mod_pos_bound. exact Hnpos.
Qed.

Lemma iter_next (k : nat) (s : Navigation) :
  0 <= activeDiagramIndex s < Z.of_nat (diagrams_length s) ->
  Nat.iter k (navigateDiagram 1) s =
  mkNavigation (diagrams_length s)
    ((activeDiagramIndex s + Z.of_nat k) mod Z.of_nat (diagrams_length s)).
Proof.
  intros Hs. induction k as [|k IH].
  - cbn [Nat.iter nat_rect]. rewrite Z.add_0_r, Z.mod_small by exact Hs.
    destruct s; reflexivity.
  - rewrite Nat.iter_succ, IH.
    assert (Hn : 0 < Z.of_nat (diagrams_length s)) by lia.
    rewrite navigate_one; cbn [diagrams_length activeDiagramIndex].
    + f_equal. rewrite Zplus_mod_idemp_l. f_equal. lia.
    + left. reflexivity.
    + apply Z.mod_pos_bound. exact Hn.
Qed.

Lemma same_menu_refl (m : Menu) : same_menu m m = true.
Proof. destruct m; reflexivity. Qed.

Lemma same_menu_eq (a b : Menu) : same_menu a b = true -> a = b.
Proof. destruct a, b; (reflexivity || discriminate). Qed.

(** After [toggleDropdown(name)] no other menu is shown. *)
Lemma toggleDropdown_only (name : Menu) (shown : Shown) (m : Menu) :
  toggleDropdown name shown m = same_menu m name && negb (shown name).
Proof.
  unfold toggleDropdown, closeAllDropdowns.
  destruct (shown name) eqn:E; cbn [negb].
  - rewrite andb_false_r. reflexivity.
  - destruct (same_menu m name) eqn:Em; [reflexivity|]. reflexivity.
Qed.

Lemma menu_step_one (e : MenuEvent) (shown : Shown) :
  (forall a b, shown a = true -> shown b = true -> a = b) ->
  forall a b, menu_step e shown a = true -> menu_step e shown b = true -> a = b.
Proof.
  intros H a b. destruct e as [name | [|]]; cbn [menu_step document_click negb].
  - rewrite !toggleDropdown_only. intros Ha Hb.
    apply andb_true_iff in Ha as [Ha _]. apply andb_true_iff in Hb as [Hb _].
    apply same_menu_eq in Ha, Hb. congruence.
  - apply H.
  - discriminate.
Qed.

Lemma legacy_menu_step_one (e : LegacyScript.MenuEvent) (shown : LegacyScript.Shown) :
  (forall a b, shown a = true -> shown b = true -> a = b) ->
  forall a b, LegacyScript.menu_step e shown a = true ->
              LegacyScript.menu_step e shown b = true -> a = b.
Proof.
  intros H a b. destruct e as [index | index | [|]];
    cbn [LegacyScript.menu_step LegacyScript.document_click negb].
  - unfold LegacyScript.toggleExportMenu.
    destruct (Nat.eqb_spec a index), (Nat.eqb_spec b index); try discriminate. congruence.
  - unfold LegacyScript.closeExportMenu.
    destruct (a =? index)%nat, (b =? index)%nat; try discriminate. apply H.
  - apply H.
  - discriminate.
Qed.

End ScriptFacts.

Section ScriptProperties.
Import Script.
Local Open Scope Z_scope.

(** X16. The active diagram of the page is always one of its diagrams:
    in a page of [n] diagrams, after any sequence of presses of the
    previous and next buttons, [navigateDiagram] with any integer,
    clicks at any index and renderings, [0 <= activeDiagramIndex < n]
    when the page has a diagram, and nothing moves when it has none; so
    the indicator, shown when there are two diagrams or more, reads
    "Diagram k of n" with [1 <= k <= n]. *)
Theorem active_diagram_stays_in_range (n : nat) (es : list NavigationEvent) :
  let s := navigation_run es (loaded n) in
  diagrams_length s = n /\
  (n = 0%nat -> s = loaded 0) /\
  (n <> 0%nat -> 0 <= activeDiagramIndex s < Z.of_nat n) /\
  ((1 < n)%nat ->
   exists k, 1 <= k <= Z.of_nat n /\
     updateDiagramIndicator s =
     ("Diagram " ++ integer_text k ++ " of " ++ integer_text (Z.of_nat n), "flex")%string) /\
  ((n <= 1)%nat -> updateDiagramIndicator s = (""%string, "none"%string)).
Proof.
  cbn zeta.
  destruct (ScriptFacts.run_range es (loaded n)) as (H1 & H2 & H3).
  { cbn [loaded diagrams_length activeDiagramIndex]. destruct n; [left; reflexivity | right; lia]. }
  cbn [loaded diagrams_length] in H1, H2, H3.
  split; [exact H1|]. split; [intros ->; apply H2; reflexivity|]. split; [exact H3|].
  unfold updateDiagramIndicator. rewrite H1. split.
  - intros Hn. destruct (Nat.ltb_spec 1 n) as [_|]; [|lia].
    exists (activeDiagramIndex (navigation_run es (loaded n)) + 1).
    split; [|reflexivity]. specialize (H3 ltac:(lia)). lia.
  - intros Hn. destruct (Nat.ltb_spec 1 n) as [|_]; [lia | reflexivity].
Qed.

(** X17. The two buttons go round the diagrams: in a page with a
    diagram, whatever state it is in, the next button moves the active
    diagram from [a] to [(a + 1) mod n] and the previous button to
    [(a - 1) mod n], so the last diagram is followed by the first and
    the first preceded by the last; either button undoes the other;
    [k] presses of next lead from [a] to [(a + k) mod n], and [n]
    presses lead back to where they started. *)
Theorem navigation_goes_round (n : nat) (es : list NavigationEvent) (k : nat) :
  let s := navigation_run es (loaded (S n)) in
  let a := activeDiagramIndex s in
  let count := Z.of_nat (S n) in
  activeDiagramIndex (navigation_step Next s) = (a + 1) mod count /\
  activeDiagramIndex (navigation_step Previous s) = (a - 1) mod count /\
  navigation_step Previous (navigation_step Next s) = s /\
  navigation_step Next (navigation_step Previous s) = s /\
  activeDiagramIndex (Nat.iter k (navigation_step Next) s) = (a + Z.of_nat k) mod count /\
  Nat.iter (S n) (navigation_step Next) s = s.
Proof.
  cbn zeta.
  destruct (ScriptFacts.run_range es (loaded (S n))) as (H1 & _ & H3).
  { right. cbn [loaded diagrams_length activeDiagramIndex]. lia. }
  cbn [loaded diagrams_length] in H1, H3. specialize (H3 ltac:(discriminate)).
  set (s := navigation_run es (loaded (S n))) in *.
  assert (Hs : 0 <= activeDiagramIndex s < Z.of_nat (diagrams_length s))
    by (rewrite H1; exact H3).
  assert (Es : s = mkNavigation (S n) (activeDiagramIndex s))
    by (rewrite <- H1; destruct s; reflexivity).
  assert (Hpos : 0 < Z.of_nat (S n)) by lia.
  cbn [navigation_step].
  rewrite !(ScriptFacts.navigate_one 1 s) by (auto; exact Hs).
  rewrite !(ScriptFacts.navigate_one (-1) s) by (auto; exact Hs).
  rewrite H1. cbn [activeDiagramIndex].
  split; [reflexivity|]. split; [reflexivity|].
  split; [|split; [|split]].
  - rewrite ScriptFacts.navigate_one; cbn [diagrams_length activeDiagramIndex].
    + transitivity (mkNavigation (S n) (activeDiagramIndex s)); [|symmetry; exact Es].
      f_equal.
      rewrite Zplus_mod_idemp_l.
      replace (activeDiagramIndex s + 1 + -1) with (activeDiagramIndex s) by lia.
      apply Z.mod_small. exact H3.
    + right. reflexivity.
    + apply Z.mod_pos_bound. exact Hpos.
  - rewrite ScriptFacts.navigate_one; cbn [diagrams_length activeDiagramIndex].
    + transitivity (mkNavigation (S n) (activeDiagramIndex s)); [|symmetry; exact Es].
      f_equal.
      rewrite Zplus_mod_idemp_l.
      replace (activeDiagramIndex s + -1 + 1) with (activeDiagramIndex s) by lia.
      apply Z.mod_small. exact H3.
    + left. reflexivity.
    + apply Z.mod_pos_bound. exact Hpos.
  - change (navigation_step Next) with (navigateDiagram 1).
    rewrite ScriptFacts.iter_next by exact Hs. rewrite H1. reflexivity.
  - change (navigation_step Next) with (navigateDiagram 1).
    rewrite ScriptFacts.iter_next by exact Hs. rewrite H1.
    transitivity (mkNavigation (S n) (activeDiagramIndex s)); [|symmetry; exact Es].
    f_equal.
    replace (activeDiagramIndex s + Z.of_nat (S n))
      with (activeDiagramIndex s + 1 * Z.of_nat (S n)) by lia.
    rewrite Z.mod_add by lia. apply Z.mod_small. exact H3.
Qed.

(** X18. At most one dropdown menu is open at a time, in either page. In
    the page of [extension.ts], after any sequence of [toggleDropdown]
    and clicks in the document, no two of the three menus have the class
    [show]; [toggleDropdown] of a closed menu leaves that menu open and
    no other, [toggleDropdown] of an open menu and a click outside the
    dropdowns leave none open. In the page of [previewPanel.ts] the same
    holds of the export menus of the diagrams under [toggleExportMenu],
    [closeExportMenu] and clicks in the document. *)
Theorem one_menu_at_a_time
  (es : list MenuEvent) (legacy_es : list LegacyScript.MenuEvent)
  (any : Shown) (name : Menu) :
  let shown := menu_run es all_closed in
  let legacy_shown := LegacyScript.menu_run legacy_es (fun _ => false) in
  (forall a b, shown a = true -> shown b = true -> a = b) /\
  (forall m, toggleDropdown name any m = same_menu m name && negb (any name)) /\
  (forall m, document_click false any m = false) /\
  (forall a b, legacy_shown a = true -> legacy_shown b = true -> a = b).
Proof.
  cbn zeta. split; [|split; [|split]].
  - assert (H : forall a b, all_closed a = true -> all_closed b = true -> a = b)
      by (intros a b; discriminate).
    revert H. generalize all_closed. unfold menu_run.
    induction es as [|e es IH]; intros s Hs; cbn [fold_left]; [exact Hs|].
    apply IH. apply ScriptFacts.menu_step_one. exact Hs.
  - apply ScriptFacts.toggleDropdown_only.
  - reflexivity.
  - assert (H : forall a b : nat, (fun _ : nat => false) a = true ->
                                  (fun _ : nat => false) b = true -> a = b)
      by (intros a b; discriminate).
    revert H. generalize (fun _ : nat => false). unfold LegacyScript.menu_run.
    induction legacy_es as [|e es' IH]; intros s Hs; cbn [fold_left]; [exact Hs|].
    apply IH. apply ScriptFacts.legacy_menu_step_one. exact Hs.
Qed.

End ScriptProperties.

(** ** The extension *)

Module ExtensionFacts.
Import Panel PanelFacts Extension.
Local Open Scope nat_scope.
Local Open Scope list_scope.

Lemma nth_error_set_nth {A : Type} (a : A) (l : list A) :
  forall i j,
  nth_error (set_nth i a l) j =
  if (j =? i) && (i <? length l) then Some a else nth_error l j.
Proof.
  induction l as [|b l IH]; intros i j.
  - destruct i; cbn [set_nth length]; rewrite andb_false_r; reflexivity.
  - destruct i as [|i], j as [|j]; cbn [set_nth nth_error length Nat.eqb andb]; try reflexivity.
    rewrite IH. reflexivity.
Qed.

Lemma length_set_nth {A : Type} (a : A) (l : list A) :
  forall i, length (set_nth i a l) = length l.
Proof.
  induction l as [|b l IH]; intros i; [destruct i; reflexivity|].
  destruct i; cbn [set_nth length]; [reflexivity | rewrite IH; reflexivity].
Qed.

Lemma panel_lt (i : nat) (x : State) (w : World) :
  panel i x = Some w -> i < length (panels x).
Proof.
  unfold panel. intros H. apply nth_error_Some. intros E. rewrite E in H. discriminate.
Qed.

(** The panels after a call. *)
Lemma panel_call (i j : nat) (m : M unit) (x : State) :
  panel j (call i m x) =
  match panel i x with
  | Some w => if j =? i then Some (snd (m (enter x w))) else panel j x
  | None => panel j x
  end.
Proof.
  unfold call. destruct (panel i x) as [w|] eqn:Hp; [|reflexivity].
  unfold panel at 1. cbn [panels]. rewrite nth_error_set_nth.
  apply panel_lt in Hp. apply Nat.ltb_lt in Hp. rewrite Hp, andb_true_r.
  destruct (j =? i); reflexivity.
Qed.

Lemma currentPanel_call (i : nat) (m : M unit) (x : State) :
  currentPanel (call i m x) = currentPanel x.
Proof. unfold call. destruct (panel i x); reflexivity. Qed.

Lemma length_call (i : nat) (m : M unit) (x : State) :
  length (panels (call i m x)) = length (panels x).
Proof.
  unfold call. destruct (panel i x); [|reflexivity]. cbn [panels]. apply length_set_nth.
Qed.

Lemma panel_new (j : nat) (d : TextDocument) (mode : PreviewMode) (l : option Z)
  (x : State) :
  panel j (new_panel d mode l x) =
  if j =? length (panels x)
  then Some (snd (construct (settings x) (colorTheme x) (log x) d mode l))
  else panel j x.
Proof.
  unfold panel, new_panel. cbn [panels].
  destruct (Nat.eqb_spec j (length (panels x))) as [->|Hne].
  - rewrite nth_error_app2 by lia. rewrite Nat.sub_diag. reflexivity.
  - destruct (Nat.lt_ge_cases j (length (panels x))) as [Hlt|Hge].
    + rewrite nth_error_app1 by exact Hlt. reflexivity.
    + rewrite nth_error_app2 by exact Hge.
      destruct (j - length (panels x)) as [|k] eqn:E; [lia|].
      cbn [nth_error]. destruct k; cbn [nth_error].
      * assert (Hn : nth_error (panels x) j = None) by (apply nth_error_None; lia).
        rewrite Hn. reflexivity.
      * assert (Hn : nth_error (panels x) j = None) by (apply nth_error_None; lia).
        rewrite Hn. reflexivity.
Qed.

Lemma panel_dispose (i j : nat) (x : State) :
  panel j (dispose i x) = if j =? i then None else panel j x.
Proof.
  unfold dispose. destruct (panel i x) as [w|] eqn:Hp.
  - unfold panel at 1. cbn [panels]. rewrite nth_error_set_nth.
    apply panel_lt in Hp. apply Nat.ltb_lt in Hp. rewrite Hp, andb_true_r.
    destruct (j =? i); reflexivity.
  - destruct (Nat.eqb_spec j i) as [->|_]; [exact Hp | reflexivity].
Qed.

(** What the methods keep. *)
Lemma render_kept (o : option string) (w : World) : kept w (snd (_render o w)).
Proof.
  destruct (render_renders o w) as [w' [Hrun [Hf _]]]. rewrite Hrun. cbn [snd].
  destruct Hf as (H1 & H2 & H3 & _ & H5 & _). unfold kept.
  rewrite H1, H2, H3, H5. repeat split. intros E. exact E.
Qed.

Lemma enter_kept (x : State) (w : World) : kept w (enter x w).
Proof. unfold kept, enter. cbn. repeat split. intros E. exact E. Qed.

Lemma kept_trans (a b c : World) : kept a b -> kept b c -> kept a c.
Proof.
  unfold kept. intros (H1 & H2 & H3 & H4) (K1 & K2 & K3 & K4).
  rewrite K1, K2, K3, H1, H2, H3. repeat split. intros E. apply K4, H4, E.
Qed.

Lemma refreshAppearance_kept (w : World) : kept w (snd (refreshAppearance w)).
Proof.
  unfold refreshAppearance, bind, get. destruct (_currentDocument w) eqn:E.
  - apply render_kept.
  - cbn [ret snd]. unfold kept. repeat split. intros H. exact H.
Qed.

Lemma fire_kept (id : TimerId) (w : World) : kept w (snd (fire id w)).
Proof.
  unfold fire. destruct (is_pending id w).
  - unfold bind, clearTimeout.
    eapply kept_trans; [|apply render_kept].
    unfold kept. cbn. repeat split. intros E. rewrite E. reflexivity.
  - unfold kept. cbn. repeat split. intros E. exact E.
Qed.

Lemma message_kept (message : Message) (w : World) :
  kept w (snd (onDidReceiveMessage message w)).
Proof.
  unfold onDidReceiveMessage, bind, Panel.logDebug.
  destruct message; cbn [ret snd logError Panel.logDebug _handleThemeChange];
    try (unfold kept; cbn; repeat split; intros E; exact E).
  eapply kept_trans; [|apply render_kept].
  unfold kept. cbn. repeat split. intros E. exact E.
Qed.

(** A call that keeps the panel keeps the modes. *)
Lemma call_modes_kept (i : nat) (m : M unit) (x : State) :
  (forall w, kept w (snd (m w))) -> modes_kept x -> modes_kept (call i m x).
Proof.
  intros Hm [H1 H2]. split.
  - intros j w. rewrite panel_call.
    destruct (panel i x) as [wi|] eqn:Hp; [|apply H1].
    destruct (Nat.eqb_spec j i) as [->|_]; [|apply H1].
    intros [= <-].
    pose proof (kept_trans _ _ _ (enter_kept x wi) (Hm (enter x wi))) as (K1 & K2 & _ & K4).
    rewrite K1, K2. specialize (H1 i wi Hp).
    destruct (_mode wi); [exact H1|]. destruct H1 as [Hl Ht].
    split; [exact Hl | exact (K4 Ht)].
  - intros j. rewrite currentPanel_call. intros Hc.
    destruct (H2 j Hc) as [w [Hw Hmode]]. rewrite panel_call.
    destruct (panel i x) as [wi|] eqn:Hp; [|exists w; split; assumption].
    destruct (Nat.eqb_spec j i) as [->|_]; [|exists w; split; assumption].
    eexists. split; [reflexivity|].
    pose proof (kept_trans _ _ _ (enter_kept x wi) (Hm (enter x wi))) as (K1 & _).
    rewrite K1. congruence.
Qed.

(** [updateContent] on the current panel keeps the modes. *)
Lemma update_modes_kept (d : TextDocument) (x : State) :
  modes_kept x -> modes_kept (call_current (updateContent d) x).
Proof.
  intros H. pose proof H as [H1 H2]. unfold call_current.
  destruct (currentPanel x) as [i|] eqn:Hc; [|exact H].
  destruct (H2 i eq_refl) as [wi [Hp Hmode]].
  assert (Hrun : forall w, _mode w = all ->
            _mode (snd (updateContent d w)) = all /\
            _singleLine (snd (updateContent d w)) = _singleLine w).
  { intros w Hw. rewrite updateContent_all by exact Hw. cbn. split; [exact Hw | reflexivity]. }
  destruct (Hrun (enter x wi) Hmode) as [R1 R2].
  split.
  - intros j w. rewrite panel_call, Hp.
    destruct (Nat.eqb_spec j i) as [->|_]; [|apply H1].
    intros [= <-]. rewrite R1, R2. cbn [enter _singleLine].
    specialize (H1 i wi Hp). rewrite Hmode in H1. exact H1.
  - intros j. rewrite currentPanel_call, Hc. intros [= <-].
    rewrite panel_call, Hp, Nat.eqb_refl. eexists. split; [reflexivity | exact R1].
Qed.

Lemma construct_mode (cfg : Configuration) (kind : ColorThemeKind) (lg : list LogEntry)
  (d : TextDocument) (mode : PreviewMode) (l : option Z) :
  let w := snd (construct cfg kind lg d mode l) in
  _mode w = mode /\ _singleLine w = l /\ _currentDocument w = Some d /\ timers w = [].
Proof.
  cbn zeta. unfold construct.
  match goal with |- context [_render None ?w0] =>
    destruct (render_kept None w0) as (K1 & K2 & K3 & K4) end.
  rewrite K1, K2, K3. repeat split. apply K4. reflexivity.
Qed.

Lemma new_panel_modes_kept (d : TextDocument) (mode : PreviewMode) (l : option Z)
  (x : State) (current : option nat) :
  match mode with
  | all => l = None
  | single => exists line, l = Some line
  end ->
  (current = currentPanel x \/ (current = Some (length (panels x)) /\ mode = all)) ->
  modes_kept x -> modes_kept (set_currentPanel current (new_panel d mode l x)).
Proof.
  intros Hl Hcur [H1 H2].
  destruct (construct_mode (settings x) (colorTheme x) (log x) d mode l)
    as (C1 & C2 & C3 & C4).
  assert (Hp : forall j, panel j (set_currentPanel current (new_panel d mode l x)) =
                         panel j (new_panel d mode l x)) by reflexivity.
  split.
  - intros j w. rewrite Hp, panel_new.
    destruct (Nat.eqb_spec j (length (panels x))) as [->|_]; [|apply H1].
    intros [= <-]. rewrite C1, C2, C4. destruct mode; [exact Hl | split; [exact Hl | reflexivity]].
  - intros j Hj. cbn [set_currentPanel currentPanel] in Hj. rewrite Hp, panel_new.
    destruct Hcur as [-> | [-> ->]].
    + destruct (H2 j Hj) as [w [Hw Hmode]].
      pose proof (panel_lt _ _ _ Hw) as Hlt.
      destruct (Nat.eqb_spec j (length (panels x))); [lia|].
      exists w. split; assumption.
    + injection Hj as <-. rewrite Nat.eqb_refl. eexists. split; [reflexivity | exact C1].
Qed.

Lemma switchToAllMode_modes_kept (d : TextDocument) (i : nat) (x : State) :
  currentPanel x = Some i ->
  modes_kept x -> modes_kept (call i (_switchToAllMode d) x).
Proof.
  intros Hc [H1 H2]. destruct (H2 i Hc) as [wi [Hp Hmode]].
  destruct (switchToAllMode_spec d (enter x wi)) as [w' [Hrun (S1 & S2 & _)]].
  split.
  - intros j w. rewrite panel_call, Hp.
    destruct (Nat.eqb_spec j i) as [->|_]; [|apply H1].
    intros [= <-]. rewrite Hrun. cbn [snd]. rewrite S1. exact S2.
  - intros j. rewrite currentPanel_call, Hc. intros [= <-].
    rewrite panel_call, Hp, Nat.eqb_refl. eexists. split; [reflexivity|].
    rewrite Hrun. exact S1.
Qed.

Lemma environment_modes_kept (x : State) (editor : option Document) (auto : option bool)
  (cfg : Configuration) (kind : ColorThemeKind) :
  modes_kept x ->
  modes_kept (mkState (currentPanel x) (panels x) editor auto cfg kind (log x)).
Proof. intros H. exact H. Qed.

Lemma dispose_modes_kept (i : nat) (x : State) : modes_kept x -> modes_kept (dispose i x).
Proof.
  intros [H1 H2]. split.
  - intros j w. rewrite panel_dispose. destruct (j =? i); [discriminate | apply H1].
  - intros j. unfold dispose. destruct (panel i x); [discriminate | apply H2].
Qed.

Lemma handle_modes_kept (e : Event) (x : State) : modes_kept x -> modes_kept (handle e x).
Proof.
  intros H. destruct e as [ | | d line | e | editor | kind | cfg auto affects
                          | i id | i message | i | i]; cbn [handle].
  - unfold showPreview. destruct (activeTextEditor x) as [editor|]; [|exact H].
    unfold createOrShow. destruct (currentPanel x) as [i|] eqn:Hc.
    + apply switchToAllMode_modes_kept; assumption.
    + apply new_panel_modes_kept; [reflexivity | right; split; reflexivity | exact H].
  - unfold showPreview. destruct (activeTextEditor x) as [editor|]; [|exact H].
    unfold createOrShow. destruct (currentPanel x) as [i|] eqn:Hc.
    + apply switchToAllMode_modes_kept; assumption.
    + apply new_panel_modes_kept; [reflexivity | right; split; reflexivity | exact H].
  - unfold showDiagramAtPosition, createOrShowSingle.
    apply (new_panel_modes_kept d single (Some line) x (currentPanel x));
      [exists line; reflexivity | left; reflexivity | exact H].
  - unfold onDidChangeTextDocument.
    destruct (config_get (autoRefresh x) true && is_markdown e && has_panel x); [|exact H].
    apply update_modes_kept. exact H.
  - match goal with |- modes_kept (_ _ ?y0) => set (y := y0) end.
    assert (Hy : modes_kept y) by exact H. clearbody y.
    unfold onDidChangeActiveTextEditor. destruct editor as [editor|]; [|exact Hy].
    destruct (is_markdown editor && has_panel y); [|exact Hy].
    apply update_modes_kept. exact Hy.
  - match goal with |- modes_kept (_ ?y0) => set (y := y0) end.
    assert (Hy : modes_kept y) by exact H. clearbody y.
    unfold onDidChangeActiveColorTheme, call_current.
    destruct (currentPanel y); [|exact Hy].
    apply call_modes_kept; [apply refreshAppearance_kept | exact Hy].
  - match goal with |- modes_kept (_ _ ?y0) => set (y := y0) end.
    assert (Hy : modes_kept y) by exact H. clearbody y.
    unfold onDidChangeConfiguration, call_current.
    destruct affects; [|exact Hy]. destruct (currentPanel y); [|exact Hy].
    apply call_modes_kept; [apply refreshAppearance_kept | exact Hy].
  - apply call_modes_kept; [apply fire_kept | exact H].
  - apply call_modes_kept; [apply message_kept | exact H].
  - apply call_modes_kept; [apply refreshAppearance_kept | exact H].
  - apply dispose_modes_kept. exact H.
Qed.

Lemma run_modes_kept (es : list Event) :
  forall x, modes_kept x -> modes_kept (run_events es x).
Proof.
  induction es as [|e es IH]; intros x H; cbn [run_events fold_left]; [exact H|].
  apply IH. apply handle_modes_kept. exact H.
Qed.

Lemma activated_modes_kept (editor : option Document) (auto : option bool)
  (cfg : Configuration) (kind : ColorThemeKind) :
  modes_kept (activated editor auto cfg kind).
Proof.
  split.
  - intros i w. unfold panel, activated. cbn [panels]. destruct i; discriminate.
  - intros i. discriminate.
Qed.

End ExtensionFacts.

Module StabilityFacts.
Import Panel PanelFacts Extension ExtensionFacts.
Local Open Scope nat_scope.
Local Open Scope list_scope.

Lemma stable_refl (w : World) : stable w w.
Proof. unfold stable. repeat split. Qed.

Lemma stable_trans (a b c : World) : stable a b -> stable b c -> stable a c.
Proof.
  unfold stable. intros (H1 & H2 & H3) (K1 & K2 & K3).
  rewrite K1, K2, H1, H2. repeat split. intros E.
  rewrite K3 by congruence. apply H3. exact E.
Qed.

Lemma kept_stable (a b : World) : kept a b -> stable a b.
Proof.
  unfold kept, stable. intros (H1 & H2 & H3 & _).
  split; [exact H1|]. split; [exact H2|]. intros _. exact H3.
Qed.

Lemma call_stable (i : nat) (m : M unit) (x : State) (j : nat) (w2 : World) :
  (forall w, kept w (snd (m w))) ->
  panel j (call i m x) = Some w2 ->
  exists w1, panel j x = Some w1 /\ stable w1 w2.
Proof.
  intros Hm. rewrite panel_call.
  destruct (panel i x) as [wi|] eqn:Hp.
  - destruct (Nat.eqb_spec j i) as [->|_].
    + intros [= <-]. exists wi. split; [exact Hp|].
      apply kept_stable. apply (kept_trans _ _ _ (enter_kept x wi) (Hm (enter x wi))).
    + intros H. exists w2. split; [exact H | apply stable_refl].
  - intros H. exists w2. split; [exact H | apply stable_refl].
Qed.

Lemma update_stable (d : TextDocument) (x : State) (j : nat) (w2 : World) :
  modes_kept x ->
  panel j (call_current (updateContent d) x) = Some w2 ->
  exists w1, panel j x = Some w1 /\ stable w1 w2.
Proof.
  intros [H1 H2]. unfold call_current.
  destruct (currentPanel x) as [i|] eqn:Hc.
  2:{ intros H. exists w2. split; [exact H | apply stable_refl]. }
  destruct (H2 i eq_refl) as [wi [Hp Hmode]].
  rewrite panel_call, Hp.
  destruct (Nat.eqb_spec j i) as [->|_].
  - intros [= <-]. exists wi. split; [exact Hp|].
    rewrite updateContent_all by exact Hmode. unfold stable. cbn.
    repeat split. intros E. congruence.
  - intros H. exists w2. split; [exact H | apply stable_refl].
Qed.

Lemma refresh_stable (x : State) (j : nat) (w2 : World) :
  panel j (call_current refreshAppearance x) = Some w2 ->
  exists w1, panel j x = Some w1 /\ stable w1 w2.
Proof.
  unfold call_current. destruct (currentPanel x) as [i|].
  - apply call_stable. apply refreshAppearance_kept.
  - intros H. exists w2. split; [exact H | apply stable_refl].
Qed.

Lemma showPreview_stable (x : State) (j : nat) (w2 : World) :
  modes_kept x -> j < length (panels x) ->
  panel j (showPreview x) = Some w2 ->
  exists w1, panel j x = Some w1 /\ stable w1 w2.
Proof.
  intros [H1 H2] Hj. unfold showPreview.
  destruct (activeTextEditor x) as [editor|].
  2:{ intros H. exists w2. split; [exact H | apply stable_refl]. }
  unfold createOrShow. destruct (currentPanel x) as [i|] eqn:Hc.
  - destruct (H2 i eq_refl) as [wi [Hp Hmode]].
    rewrite panel_call, Hp.
    destruct (Nat.eqb_spec j i) as [->|_].
    + intros [= <-]. exists wi. split; [exact Hp|].
      destruct (switchToAllMode_spec (document editor) (enter x wi))
        as [w' [Hrun (S1 & S2 & _)]].
      rewrite Hrun. cbn [snd]. unfold stable. rewrite S1, S2, Hmode.
      specialize (H1 i wi Hp). rewrite Hmode in H1. rewrite H1.
      repeat split. discriminate.
    + intros H. exists w2. split; [exact H | apply stable_refl].
  - change (panel j (set_currentPanel (Some (length (panels x)))
                       (new_panel (document editor) all None x)))
      with (panel j (new_panel (document editor) all None x)).
    rewrite panel_new. destruct (Nat.eqb_spec j (length (panels x))); [lia|].
    intros H. exists w2. split; [exact H | apply stable_refl].
Qed.

(** One event leaves every panel that stays open as it was opened. *)
Lemma handle_stable (e : Event) (x : State) (j : nat) (w2 : World) :
  modes_kept x -> j < length (panels x) ->
  panel j (handle e x) = Some w2 ->
  exists w1, panel j x = Some w1 /\ stable w1 w2.
Proof.
  intros H Hj.
  destruct e as [ | | d line | e | editor | kind | cfg auto affects
                | i id | i message | i | i]; cbn [handle].
  - apply showPreview_stable; assumption.
  - apply showPreview_stable; assumption.
  - unfold showDiagramAtPosition, createOrShowSingle. rewrite panel_new.
    destruct (Nat.eqb_spec j (length (panels x))); [lia|].
    intros Hp. exists w2. split; [exact Hp | apply stable_refl].
  - unfold onDidChangeTextDocument.
    destruct (config_get (autoRefresh x) true && is_markdown e && has_panel x).
    + apply update_stable. exact H.
    + intros Hp. exists w2. split; [exact Hp | apply stable_refl].
  - match goal with |- panel j (_ _ ?y0) = _ -> _ => set (y := y0) end.
    assert (Hy : modes_kept y) by exact H.
    assert (Hp : panel j x = panel j y) by reflexivity. rewrite Hp. clearbody y.
    unfold onDidChangeActiveTextEditor. destruct editor as [editor|].
    + destruct (is_markdown editor && has_panel y).
      * apply update_stable. exact Hy.
      * intros Hq. exists w2. split; [exact Hq | apply stable_refl].
    + intros Hq. exists w2. split; [exact Hq | apply stable_refl].
  - match goal with |- panel j (_ ?y0) = _ -> _ => set (y := y0) end.
    assert (Hp : panel j x = panel j y) by reflexivity. rewrite Hp. clearbody y.
    apply refresh_stable.
  - match goal with |- panel j (_ _ ?y0) = _ -> _ => set (y := y0) end.
    assert (Hp : panel j x = panel j y) by reflexivity. rewrite Hp. clearbody y.
    unfold onDidChangeConfiguration. destruct affects.
    + apply refresh_stable.
    + intros Hq. exists w2. split; [exact Hq | apply stable_refl].
  - apply call_stable. apply fire_kept.
  - apply call_stable. apply message_kept.
  - apply call_stable. apply refreshAppearance_kept.
  - rewrite panel_dispose. destruct (j =? i); [discriminate|].
    intros Hp. exists w2. split; [exact Hp | apply stable_refl].
Qed.

(** No event takes a panel off the list. *)
Lemma handle_length (e : Event) (x : State) :
  length (panels x) <= length (panels (handle e x)).
Proof.
  assert (Hcur : forall m y, length (panels (call_current m y)) = length (panels y)).
  { intros m y. unfold call_current. destruct (currentPanel y); [apply length_call | reflexivity]. }
  assert (Hshow : length (panels x) <= length (panels (showPreview x))).
  { unfold showPreview. destruct (activeTextEditor x); [|lia].
    unfold createOrShow. destruct (currentPanel x).
    - rewrite length_call. lia.
    - cbn [set_currentPanel new_panel panels]. rewrite length_app. lia. }
  destruct e as [ | | d line | e | editor | kind | cfg auto affects
                | i id | i message | i | i]; cbn [handle]; try exact Hshow.
  - unfold showDiagramAtPosition, createOrShowSingle, new_panel. cbn [panels].
    rewrite length_app. lia.
  - unfold onDidChangeTextDocument.
    destruct (_ && _); [rewrite Hcur|]; lia.
  - unfold onDidChangeActiveTextEditor. destruct editor as [editor|]; [|cbn; lia].
    destruct (_ && _); [rewrite Hcur|]; cbn [panels]; lia.
  - unfold onDidChangeActiveColorTheme. rewrite Hcur. cbn [panels]. lia.
  - unfold onDidChangeConfiguration. destruct affects; [rewrite Hcur|]; cbn [panels]; lia.
  - rewrite length_call. lia.
  - rewrite length_call. lia.
  - rewrite length_call. lia.
  - unfold dispose. destruct (panel i x); [|lia]. cbn [panels]. rewrite length_set_nth. lia.
Qed.

Lemma run_stable (es : list Event) :
  forall x j w2,
  modes_kept x -> j < length (panels x) ->
  panel j (run_events es x) = Some w2 ->
  exists w1, panel j x = Some w1 /\ stable w1 w2.
Proof.
  induction es as [|e es IH]; intros x j w2 H Hj; cbn [run_events fold_left].
  - intros Hp. exists w2. split; [exact Hp | apply stable_refl].
  - intros Hp.
    destruct (IH (handle e x) j w2) as [w' [Hw' Hs']].
    + apply handle_modes_kept. exact H.
    + pose proof (handle_length e x). lia.
    + exact Hp.
    + destruct (handle_stable e x j w' H Hj Hw') as [w1 [Hw1 Hs1]].
      exists w1. split; [exact Hw1 | exact (stable_trans _ _ _ Hs1 Hs')].
Qed.

(** The listeners of edits call the current panel alone, and that is no
    panel in mode [single]. *)
Lemma current_skips_single (m : M unit) (x : State) (i : nat) (w : World) :
  modes_kept x -> panel i x = Some w -> _mode w = single ->
  panel i (call_current m x) = Some w.
Proof.
  intros [_ H2] Hp Hmode. unfold call_current.
  destruct (currentPanel x) as [c|] eqn:Hc; [|exact Hp].
  destruct (H2 c eq_refl) as [wc [Hpc Hall]].
  rewrite panel_call, Hpc.
  destruct (Nat.eqb_spec i c) as [->|_]; [|exact Hp].
  rewrite Hp in Hpc. injection Hpc as <-. rewrite Hmode in Hall. discriminate.
Qed.

Lemma edit_skips_single (e : Document) (x : State) (i : nat) (w : World) :
  modes_kept x -> panel i x = Some w -> _mode w = single ->
  panel i (onDidChangeTextDocument e x) = Some w.
Proof.
  intros H Hp Hmode. unfold onDidChangeTextDocument.
  destruct (config_get (autoRefresh x) true && is_markdown e && has_panel x); [|exact Hp].
  apply current_skips_single; assumption.
Qed.

Lemma editor_skips_single (editor : option Document) (x : State) (i : nat) (w : World) :
  modes_kept x -> panel i x = Some w -> _mode w = single ->
  panel i (onDidChangeActiveTextEditor editor x) = Some w.
Proof.
  intros H Hp Hmode. unfold onDidChangeActiveTextEditor.
  destruct editor as [ed|]; [|exact Hp].
  destruct (is_markdown ed && has_panel x); [|exact Hp].
  apply current_skips_single; assumption.
Qed.

End StabilityFacts.

Section ExtensionProperties.
Import Panel Extension.
Local Open Scope nat_scope.
Local Open Scope list_scope.

(** X19. Through the commands and listeners of [activate] no panel
    changes its mode: after any sequence of commands, edits, changes of
    editor, colour theme and settings, timers, messages of the pages and
    closings of panels, every open panel in mode [all] keeps no line and
    every open panel in mode [single] keeps its line and has no timer
    pending; the current panel, when there is one, is open and in mode
    [all]: a panel opened by a lens is never the current panel. *)
Theorem extension_keeps_the_modes
  (editor : option Document) (auto : option bool) (cfg : Configuration)
  (kind : ColorThemeKind) (es : list Event) :
  let x := run_events es (activated editor auto cfg kind) in
  (forall i w, panel i x = Some w ->
     match _mode w with
     | all => _singleLine w = None
     | single => (exists l, _singleLine w = Some l) /\ timers w = []
     end) /\
  (forall i, currentPanel x = Some i -> exists w, panel i x = Some w /\ _mode w = all).
Proof.
  cbn zeta. apply (ExtensionFacts.run_modes_kept es).
  apply ExtensionFacts.activated_modes_kept.
Qed.

(** X20. A panel stays as it was opened, and an edit refreshes no panel
    of one diagram. The lens command opens a new panel in mode [single]
    at its line on its document and leaves the current panel as it is;
    whatever happens later, a panel that is still open has the mode and
    the line it had; and an edit of a document or a change of the active
    editor writes no page to a panel in mode [single] and sets no timer
    on it: the listeners of [activate] call the current panel alone,
    which is never a panel of one diagram. *)
Theorem panel_stays_as_opened
  (editor : option Document) (auto : option bool) (cfg : Configuration)
  (kind : ColorThemeKind) (es later : list Event) (d : TextDocument) (line : Z) :
  let x := run_events es (activated editor auto cfg kind) in
  let opened := handle (ShowDiagramAtPosition d line) x in
  (exists w, panel (length (panels x)) opened = Some w /\
     _mode w = single /\ _singleLine w = Some line /\ _currentDocument w = Some d) /\
  currentPanel opened = currentPanel x /\
  (forall i w2, i < length (panels x) -> panel i (run_events later x) = Some w2 ->
     exists w1, panel i x = Some w1 /\
       _mode w2 = _mode w1 /\ _singleLine w2 = _singleLine w1) /\
  (forall (e : Document) (changed : option Document) (ev : Event) i w,
     ev = TextDocumentChanged e \/ ev = ActiveTextEditorChanged changed ->
     panel i x = Some w -> _mode w = single ->
     exists w', panel i (handle ev x) = Some w' /\
       html w' = html w /\ html_writes w' = html_writes w /\ timers w' = timers w).
Proof.
  cbn zeta.
  assert (Hx : modes_kept (run_events es (activated editor auto cfg kind))).
  { apply (ExtensionFacts.run_modes_kept es). apply ExtensionFacts.activated_modes_kept. }
  split; [|split; [reflexivity|split]].
  - cbn [handle]. unfold showDiagramAtPosition, createOrShowSingle.
    rewrite ExtensionFacts.panel_new, Nat.eqb_refl. eexists. split; [reflexivity|].
    match goal with |- context [construct ?c ?k ?l d single (Some line)] =>
      destruct (ExtensionFacts.construct_mode c k l d single (Some line))
        as (C1 & C2 & C3 & _) end.
    repeat split; assumption.
  - intros i w2 Hi Hp.
    destruct (StabilityFacts.run_stable later _ i w2 Hx Hi Hp) as [w1 [Hw1 (S1 & S2 & _)]].
    exists w1. repeat split; assumption.
  - intros e changed ev i w Hev Hp Hmode. exists w.
    split; [|repeat split].
    destruct Hev as [-> | ->]; cbn [handle].
    + apply StabilityFacts.edit_skips_single; [exact Hx | exact Hp | exact Hmode].
    + apply StabilityFacts.editor_skips_single; [exact Hx | exact Hp | exact Hmode].
Qed.

(** X21. Closing any panel makes the extension forget the current one:
    [dispose] of an open panel, the current one or another (a panel of
    one diagram), clears [currentPanel] and leaves the other panels as
    they are; from then on an edit of a document changes nothing, and
    the preview command, with an editor active, opens a new panel and
    makes it the current one. *)
Theorem closing_a_panel_forgets_the_current_one
  (x : State) (i : nat) (w : World) (e : Document) (editor : Document)
  (Hopen : panel i x = Some w) (Heditor : activeTextEditor x = Some editor) :
  let y := handle (PanelClosed i) x in
  currentPanel y = None /\
  panel i y = None /\
  (forall j, j <> i -> panel j y = panel j x) /\
  handle (TextDocumentChanged e) y = y /\
  currentPanel (handle ShowPreview y) = Some (length (panels x)) /\
  length (panels (handle ShowPreview y)) = S (length (panels x)) /\
  (exists w', panel (length (panels x)) (handle ShowPreview y) = Some w' /\
     _mode w' = all /\ _currentDocument w' = Some (document editor)).
Proof.
  cbn zeta. cbn [handle].
  assert (Ey : dispose i x =
               mkState None (set_nth i None (panels x)) (activeTextEditor x)
                 (autoRefresh x) (settings x) (colorTheme x) (log x)).
  { unfold dispose. rewrite Hopen. reflexivity. }
  assert (Hc : currentPanel (dispose i x) = None) by (rewrite Ey; reflexivity).
  assert (Hl : length (panels (dispose i x)) = length (panels x)).
  { rewrite Ey. cbn [panels]. apply ExtensionFacts.length_set_nth. }
  assert (Ha : activeTextEditor (dispose i x) = Some editor) by (rewrite Ey; exact Heditor).
  split; [exact Hc|].
  split; [rewrite ExtensionFacts.panel_dispose, Nat.eqb_refl; reflexivity|].
  split.
  { intros j Hj. rewrite ExtensionFacts.panel_dispose.
    destruct (Nat.eqb_spec j i); [contradiction | reflexivity]. }
  split.
  { unfold onDidChangeTextDocument, has_panel. rewrite Hc, andb_false_r. reflexivity. }
  unfold showPreview, createOrShow. rewrite Ha, Hc.
  cbn [set_currentPanel currentPanel panels new_panel]. rewrite Hl, length_app.
  split; [reflexivity|]. split; [cbn [length]; lia|].
  change (panel (length (panels x))
            (set_currentPanel (Some (length (panels x)))
               (new_panel (document editor) all None (dispose i x))))
    with (panel (length (panels x)) (new_panel (document editor) all None (dispose i x))).
  rewrite ExtensionFacts.panel_new, Hl, Nat.eqb_refl. eexists. split; [reflexivity|].
  match goal with |- context [construct ?c ?k ?l ?d all None] =>
    destruct (ExtensionFacts.construct_mode c k l d all None) as (C1 & _ & C3 & _) end.
  split; assumption.
Qed.

Lemma closing_a_panel_forgets_the_current_one_witness :
  let editor := mkDocumentOf (document_of (lit "x")) "markdown" in
  let x :=
    run_events [ShowPreview; ShowDiagramAtPosition (document_of (lit "x")) 0]
      (activated (Some editor) None (mkConfig None None None None) Light) in
  let i := 1 in
  let e := editor in
  let y := handle (PanelClosed i) x in
  currentPanel y = None /\
  panel i y = None /\
  (forall j, j <> i -> panel j y = panel j x) /\
  handle (TextDocumentChanged e) y = y /\
  currentPanel (handle ShowPreview y) = Some (length (panels x)) /\
  length (panels (handle ShowPreview y)) = S (length (panels x)) /\
  (exists w', panel (length (panels x)) (handle ShowPreview y) = Some w' /\
     _mode w' = all /\ _currentDocument w' = Some (document editor)).
Proof.
  intros editor x i e.
  refine (closing_a_panel_forgets_the_current_one x i _ e editor _ _).
  - vm_compute. reflexivity.
  - vm_compute. reflexivity.
Defined.

End ExtensionProperties.

(** ** The two panels *)

Module VersionFacts.
Import Scanner Panel.
Local Open Scope string_scope.
Local Open Scope nat_scope.
Local Open Scope list_scope.

(** The page after [_update] of [previewPanel.ts]. *)
Lemma update_html (o : option string) (w : World) (d : TextDocument) :
  _currentDocument w = Some d ->
  html (snd (Legacy._update o w)) =
  match diagrams (getText d) with
  | [] =>
      ErrorHtml "No Mermaid diagram found. Wrap your diagram in ```mermaid code blocks."
  | _ :: _ =>
      DiagramHtml (JSON.stringify (diagrams (getText d)))
        (Legacy.update_theme (config w) (activeColorTheme w) o) None
  end.
Proof.
  intros Hd. unfold Legacy._update, bind at 1, get. rewrite Hd.
  unfold bind at 1.
  destruct (extractMermaidCode_run d w) as [w' [Hrun Hlog]]. rewrite Hrun.
  destruct Hlog as (_ & _ & _ & _ & _ & _ & _ & _ & Hc & Hk).
  destruct (diagrams (getText d)) as [|x ds]; [reflexivity|].
  rewrite PageFacts.found_stringify. unfold bind, get.
  cbn [set_html snd html fst]. rewrite Hc, Hk. reflexivity.
Qed.

End VersionFacts.

Section VersionProperties.
Import Panel.
Local Open Scope string_scope.

(** X22. The panel of [extension.ts] shows what the panel of
    [previewPanel.ts] shows, the appearance standing for the colour
    theme of the host: [_resolveTheme] answers the theme [_update]
    computes under the host's colour theme when [previewAppearance] is
    [matchVSCode] or not set, under a light one when it is [light] and
    under a dark one when it is [dark]; and the page of [_renderAll] is
    the page of [_update] in such a host, with the same diagrams, the
    same theme and the same error message. The theme of
    [updateContentAtLine] of [previewPanel.ts] is the theme of its
    [_update] without override. *)
Theorem appearance_stands_for_the_colour_theme
  (o : option string) (w : World) :
  let cfg := config w in
  let kind := activeColorTheme w in
  let host :=
    match config_get (cfg_previewAppearance cfg) matchVSCode with
    | matchVSCode => kind
    | light => Light
    | dark => Dark
    end in
  fst (resolveTheme cfg kind o) = Legacy.update_theme cfg host o /\
  Legacy.atLine_theme cfg kind = Legacy.update_theme cfg kind None /\
  match html (snd (_renderAll o w)) with
  | DiagramHtml mermaidCode theme _ =>
      html (snd (Legacy._update o (with_environment cfg host w))) =
      DiagramHtml mermaidCode theme None
  | page => html (snd (Legacy._update o (with_environment cfg host w))) = page
  end.
Proof.
  cbn zeta.
  assert (Ht : forall cfg kind,
            fst (resolveTheme cfg kind o) =
            Legacy.update_theme cfg
              match config_get (cfg_previewAppearance cfg) matchVSCode with
              | matchVSCode => kind
              | light => Light
              | dark => Dark
              end o).
  { intros cfg kind. unfold resolveTheme, Legacy.update_theme. cbn [fst].
    destruct (config_get (cfg_useVSCodeTheme cfg) false && negb (truthy o));
      [|reflexivity].
    destruct (config_get (cfg_previewAppearance cfg) matchVSCode); reflexivity. }
  split; [apply Ht|]. split.
  - unfold Legacy.atLine_theme, Legacy.update_theme. cbn [truthy negb or_else].
    rewrite andb_true_r. reflexivity.
  - destruct (_currentDocument w) as [d|] eqn:Hd.
    + rewrite (PageFacts.renderAll_html o w d Hd).
      rewrite (VersionFacts.update_html o _ d) by exact Hd.
      cbn [with_environment config activeColorTheme].
      destruct (Scanner.diagrams (getText d)); [reflexivity|].
      rewrite Ht. reflexivity.
    + unfold _renderAll, Legacy._update, bind, get. cbn [with_environment _currentDocument].
      rewrite Hd. reflexivity.
Qed.

End VersionProperties.

(** ** Documents of prose and blocks *)

Module ComposedFacts.
Import Scanner RegexFacts Written WrittenFacts Composed BlockFacts.

(** No opening fence starts in quiet prose, whether a block or nothing
    follows the prose. *)
Lemma quiet_no_opener (c : code_unit) (t X : jsstring) :
  starts_with opener (c :: t) = false ->
  X = [] \/ (exists Y, X = opener ++ Y) ->
  strip_prefix opener ((c :: t) ++ X) = None.
Proof.
  intros Hs HX.
  destruct (strip_prefix opener ((c :: t) ++ X)) as [r|] eqn:Hp; [|reflexivity].
  exfalso.
  destruct (strip_prefix_app_cases opener (c :: t) X r Hp)
    as [[u1 [E _]] | [p2 [Hne [E EX]]]].
  - rewrite E, starts_with_app in Hs. discriminate.
  - destruct HX as [-> | [Y ->]].
    + destruct p2; [contradiction | discriminate].
    + clear Hs Hp. unfold opener, lit in E. cbn in E. injection E as _ E.
      do 9 (destruct t as [|? t];
            [cbn [app] in E; subst p2; vm_compute in EX; discriminate EX
            |cbn [app] in E; injection E as _ E]).
      destruct t; [|discriminate E]. cbn [app] in E. subst p2. contradiction.
Qed.

Lemma diagrams_of_quiet (prose X : jsstring) :
  quiet prose -> X = [] \/ (exists Y, X = opener ++ Y) ->
  diagrams_of (prose ++ X) = diagrams_of X.
Proof.
  unfold quiet. intros Hq HX. induction prose as [|c t IH]; [reflexivity|].
  cbn [includes] in Hq. apply orb_false_iff in Hq as [H1 H2].
  cbn [app]. rewrite diagrams_of_not_opened; [exact (IH H2)|].
  unfold open_fence. change (c :: t ++ X) with ((c :: t) ++ X).
  rewrite (quiet_no_opener c t X H1 HX). reflexivity.
Qed.

(** A tidy block gives its trimmed body, and the search goes on after
    its closing fence. *)
Lemma diagrams_of_fenced (f : Fenced) (rest : jsstring) :
  tidy f ->
  diagrams_of (fenced_text f ++ rest) = keep (trim (body f)) ++ diagrams_of rest.
Proof.
  intros [Hf Hw].
  assert (Hs : split_fence ((body f ++ trailing (last_break f) ++ fence) ++ rest) =
               Some (body f ++ trailing (last_break f), rest)).
  { apply (split_fence_app_inside _ rest _ []).
    apply split_fence_end;
      [apply no_fence_included; exact Hf | exact Hw | apply trailing_no_backtick]. }
  pose proof (find_close_split_fence ((body f ++ trailing (last_break f) ++ fence) ++ rest)) as Hc.
  rewrite Hs in Hc.
  destruct (find_close ((body f ++ trailing (last_break f) ++ fence) ++ rest))
    as [[b r]|] eqn:Hfc; [|contradiction].
  destruct Hc as [-> [o [Eb Ho]]].
  assert (Ht : trim b = trim (body f)).
  { rewrite <- (trim_app_spaces (body f) (trailing (last_break f))) by apply trailing_spaces.
    rewrite Eb. symmetry. apply trim_app_spaces.
    destruct Ho as [-> | [-> | ->]]; reflexivity. }
  rewrite <- Ht. apply diagrams_of_block.
  unfold block_here, fenced_text, block, ending.
  replace ((opener ++ map blank (blanks f) ++ eol (first_break f) ++ body f ++
            trailing (last_break f) ++ fence) ++ rest)
    with (opener ++ map blank (blanks f) ++ eol (first_break f) ++
          ((body f ++ trailing (last_break f) ++ fence) ++ rest))
    by (rewrite <- !app_assoc; reflexivity).
  rewrite open_fence_block. exact Hfc.
Qed.

Lemma fenced_text_opens (f : Fenced) (rest : jsstring) :
  exists Y, fenced_text f ++ rest = opener ++ Y.
Proof.
  unfold fenced_text, block. rewrite <- app_assoc. eexists. reflexivity.
Qed.

Lemma parts_open (parts : list (Fenced * jsstring)) :
  let X := flat_map (fun p => fenced_text (fst p) ++ snd p) parts in
  X = [] \/ (exists Y, X = opener ++ Y).
Proof.
  destruct parts as [|[f prose] parts]; [left; reflexivity|].
  right. cbn [flat_map fst snd]. rewrite <- app_assoc. apply fenced_text_opens.
Qed.

Lemma diagrams_of_parts (parts : list (Fenced * jsstring)) :
  Forall (fun p => tidy (fst p) /\ quiet (snd p)) parts ->
  diagrams_of (flat_map (fun p => fenced_text (fst p) ++ snd p) parts) =
  flat_map (fun p => keep (trim (body (fst p)))) parts.
Proof.
  induction 1 as [|[f prose] parts [Ht Hq] _ IH]; [reflexivity|].
  cbn [flat_map fst snd] in *.
  rewrite <- app_assoc, (diagrams_of_fenced f _ Ht).
  rewrite (diagrams_of_quiet prose _ Hq (parts_open parts)), IH. reflexivity.
Qed.

Lemma diagrams_of_compose (prose : jsstring) (parts : list (Fenced * jsstring)) :
  quiet prose -> Forall (fun p => tidy (fst p) /\ quiet (snd p)) parts ->
  diagrams (compose prose parts) = flat_map (fun p => keep (trim (body (fst p)))) parts.
Proof.
  intros Hq Hp. rewrite diagrams_by_bodies. unfold compose.
  rewrite (diagrams_of_quiet prose _ Hq (parts_open parts)).
  apply diagrams_of_parts. exact Hp.
Qed.

End ComposedFacts.

Section ComposedProperties.
Import Written Composed.

(** X23. A document written as prose and fenced blocks gives back the
    bodies of its blocks: when [```mermaid] stands in none of the proses,
    and no body holds [```] or ends in a backtick, [_extractMermaidCode]
    answers the JSON text of the trimmed bodies that are not empty, one
    for each block, in the order of the document, whatever the blanks
    after the openers and the line breaks (LF or CRLF, or none before a
    closing fence); it answers null when no body is left. *)
Theorem written_document_gives_its_bodies
  (prose : jsstring) (parts : list (Fenced * jsstring)) :
  quiet prose ->
  Forall (fun p => tidy (fst p) /\ quiet (snd p)) parts ->
  let found := filter Panel.nonempty (map (fun p => trim (body (fst p))) parts) in
  extracted (compose prose parts) =
  Normal (match found with
          | [] => None
          | _ :: _ => Some (JSON.stringify found)
          end).
Proof.
  intros Hq Hp found.
  rewrite extracted_diagrams, (ComposedFacts.diagrams_of_compose prose parts Hq Hp).
  assert (E : flat_map (fun p => Scanner.keep (trim (body (fst p)))) parts = found).
  { subst found. clear Hp. induction parts as [|p parts IH]; [reflexivity|].
    cbn [flat_map map filter]. unfold Scanner.keep at 1.
    destruct (Panel.nonempty (trim (body (fst p)))); cbn [app]; rewrite IH; reflexivity. }
  rewrite E. reflexivity.
Qed.

Lemma written_document_gives_its_bodies_witness :
  let prose := lit "# Notes" ++ [LF] in
  let parts :=
    [(mkFenced [Space] Windows (lit "graph TD" ++ [CR; LF] ++ lit "  A-->B") (Some Windows),
      [LF] ++ lit "some `code` here" ++ [LF]);
     (mkFenced [] Unix (lit "  ") (Some Unix), [LF]);
     (mkFenced [Tab] Unix (lit "pie") None, [])] in
  let found := filter Panel.nonempty (map (fun p => trim (body (fst p))) parts) in
  extracted (compose prose parts) =
  Normal (match found with
          | [] => None
          | _ :: _ => Some (JSON.stringify found)
          end).
Proof.
  intros prose parts.
  refine (written_document_gives_its_bodies prose parts _ _).
  - reflexivity.
  - repeat constructor; cbn; discriminate.
Defined.

End ComposedProperties.
